(** * Streamflow routing: the convolution engine of [coup_conv.py]

    A shallow embedding of [convolution/python/coup_conv.py] (the unit
    conversions of [init], the flux combination of [run], the registry
    construction and state restore of [make_point_dict], the per-timestep
    ring update of [convolve] and [shift], the files of [write_output]) and
    the properties of the routing specification checked against it.

    Conventions of the embedding.
    - A numpy float array is a list over a scalar type [num] given by the
      interface [Scalar]; its instance is IEEE binary64 ([float]), what
      numpy computes with.  [sum] adds in the order of numpy's pairwise
      summation.
    - A 2-D array is the list of its rows; an array with no row does not
      record how many columns it has.  A snapshot array of shape (L, N) or
      (L, Y, X) is kept by columns [a[:, i]] / [a[:, y, x]], with L recorded
      next to them.  Operands of different length are broadcast as numpy
      does for one axis: a length of 1 stretches, any other mismatch raises.
    - A flux file holds one time step, so the leading time axis of [flux]
      has length 1 and [flux] is represented by that one slice.
    - A Python exception is a value of [exn]; a computation that may raise
      returns [res A].  Objects that are mutated in place and shared with
      the caller (the point dictionary, the time dictionary) are threaded
      through explicitly and are returned also when an exception escapes.
      A ring restored from a state file is a view of that file's array;
      distinct outlets get distinct columns unless two keys name one cell
      through a negative index, which the properties below rule out where
      it matters.
    - File access (netCDF) is outside the embedding: a file is the record of
      the variables and attributes the code reads from it or writes to it. *)

From Stdlib Require Import ZArith String PrimFloat Uint63 Lia.
From Stdlib Require Import SpecFloat FloatOps FloatAxioms.
From stdpp Require Import base list.

Local Open Scope string_scope.
Local Open Scope list_scope.
Local Open Scope Z_scope.

(** ** Exceptions *)

Inductive exn : Type :=
  | KeyError
  | IndexError
  | ValueError
  | ZeroDivisionError
  | UnboundLocalError
  | NameError
  | TypeError.

Definition res (A : Type) : Type := exn + A.

Definition raise {A : Type} (e : exn) : res A := inl e.
Definition ret {A : Type} (a : A) : res A := inr a.

Definition bind {A B : Type} (m : res A) (k : A → res B) : res B :=
  match m with
  | inl e => inl e
  | inr a => k a
  end.

Notation "'let*' x ':=' m 'in' k" := (bind m (fun x => k))
  (at level 10, x pattern, m at level 100, k at level 200).

Fixpoint map_res {A B : Type} (f : A → res B) (l : list A) : res (list B) :=
  match l with
  | [] => ret []
  | a :: l' =>
      let* b := f a in
      let* bs := map_res f l' in
      ret (b :: bs)
  end.

(** ** Scalars *)

Class Scalar (num : Type) : Type := {
  zero : num;
  add : num → num → num;
  mul : num → num → num;
  div : num → num → num;
  of_Z : Z → num
}.

Definition float_of_Z (z : Z) : float :=
  match z with
  | Z0 => PrimFloat.of_uint63 0%uint63
  | Zpos _ => PrimFloat.of_uint63 (Uint63.of_Z z)
  | Zneg p => PrimFloat.opp (PrimFloat.of_uint63 (Uint63.of_Z (Zpos p)))
  end.

#[export] Instance float_scalar : Scalar float := {|
  zero := PrimFloat.of_uint63 0%uint63;
  add := PrimFloat.add;
  mul := PrimFloat.mul;
  div := PrimFloat.div;
  of_Z := float_of_Z
|}.


(** ** numpy primitives *)

Section Numpy.
Context {num : Type} `{Scalar num}.

(** [np.zeros(n)] *)
Definition zeros (n : nat) : list num := replicate n zero.

(** An index into an axis of length [n]: negative indices count from the
    end, anything outside [-n, n) raises. *)
Definition np_index (n : nat) (i : Z) : res nat :=
  if (0 <=? i) && (i <? Z.of_nat n) then ret (Z.to_nat i)
  else if (- Z.of_nat n <=? i) && (i <? 0) then ret (Z.to_nat (i + Z.of_nat n))
  else raise IndexError.

(** [l[i]] *)
Definition getitem {A : Type} (l : list A) (i : Z) : res A :=
  let* j := np_index (length l) i in
  match l !! j with
  | Some a => ret a
  | None => raise IndexError
  end.

(** [l[i] = v] *)
Definition setitem {A : Type} (l : list A) (i : Z) (v : A) : res (list A) :=
  let* j := np_index (length l) i in
  ret (<[j := v]> l).

(** [g[y, x]] *)
Definition getitem2 {A : Type} (g : list (list A)) (y x : Z) : res A :=
  let* row := getitem g y in
  getitem row x.

(** [g[y, x] = v] *)
Definition setitem2 {A : Type} (g : list (list A)) (y x : Z) (v : A)
  : res (list (list A)) :=
  let* row := getitem g y in
  let* row' := setitem row x v in
  setitem g y row'.

(** Broadcasting of two 1-D operands: equal lengths pair up, an operand
    of length 1 is repeated, anything else raises [e]. *)
Definition broadcast {A B : Type} (e : exn) (l1 : list A) (l2 : list B)
  : res (list (A * B)) :=
  if (length l1 =? length l2)%nat then ret (zip l1 l2)
  else match l1, l2 with
       | [a], _ => ret (map (fun b => (a, b)) l2)
       | _, [b] => ret (map (fun a => (a, b)) l1)
       | _, _ => raise e
       end.

(** [l1 op l2] for 1-D arrays *)
Definition map2_bc {A B C : Type} (f : A → B → C) (l1 : list A) (l2 : list B)
  : res (list C) :=
  let* ps := broadcast ValueError l1 l2 in
  ret (map (fun p => f (fst p) (snd p)) ps).

(** [a += b] for 1-D arrays: [b] is broadcast to the shape of [a], which
    cannot change. *)
Definition iadd (a b : list num) : res (list num) :=
  if (length b =? length a)%nat then ret (zip_with add a b)
  else match b with
       | [v] => ret (map (fun x => add x v) a)
       | _ => raise ValueError
       end.

(** The terms of [l] added one after the other, from the left. *)
Definition sum_left (l : list num) : num :=
  match l with
  | [] => zero
  | a :: l' => fold_left add l' a
  end.

(** The unrolled loop of numpy's summation: eight running sums [r], to
    which each of the next [blocks] blocks of eight terms of [l] is added
    lane by lane. *)
Fixpoint lanes (blocks : nat) (r l : list num) : list num :=
  match blocks with
  | O => r
  | S blocks' => lanes blocks' (zip_with add r (take 8 l)) (drop 8 l)
  end.

(** A run of 8 to 128 terms: the eight lanes over the full blocks of
    eight, the lanes added as [((r0 + r1) + (r2 + r3)) + ((r4 + r5) +
    (r6 + r7))], then the terms left over one after the other. *)
Definition sum_block (l : list num) : num :=
  let full := (length l / 8)%nat in
  let res :=
    match lanes (full - 1) (take 8 l) (drop 8 l) with
    | [r0; r1; r2; r3; r4; r5; r6; r7] =>
        add (add (add r0 r1) (add r2 r3)) (add (add r4 r5) (add r6 r7))
    | _ => zero
    end in
  fold_left add (drop (8 * full) l) res.

(** numpy's pairwise summation of a contiguous run: fewer than eight terms
    are added from the left, up to 128 terms by [sum_block], and a longer
    run is split at half its length rounded down to a multiple of eight,
    the sums of the two parts being added.  [fuel] bounds the depth of the
    splitting; the length of the run is enough. *)
Fixpoint pairwise_sum (fuel : nat) (l : list num) : num :=
  let n := length l in
  if (n <? 8)%nat then sum_left l
  else if (n <=? 128)%nat then sum_block l
  else
    match fuel with
    | O => sum_block l
    | S fuel' =>
        let n2 := (n / 2 - (n / 2) mod 8)%nat in
        add (pairwise_sum fuel' (take n2 l)) (pairwise_sum fuel' (drop n2 l))
    end.

(** [a.sum()] of a contiguous 1-D array, and [a.sum(axis=1)] on each row of
    a 2-D array in C order: the terms are added in the order of numpy's
    pairwise summation.  The first term enters the accumulator as it is
    (a release of numpy that starts the accumulator from positive zero
    gives a positive zero where this sum is a negative zero, and the same
    value otherwise); the sum of no term is zero. *)
Definition sum (l : list num) : num := pairwise_sum (length l) l.

(** [g[:, yi, xi]] on the single time slice [g]: the two index arrays are
    broadcast against each other and each pair selects one cell. *)
Definition gather (g : list (list num)) (yi xi : list Z) : res (list num) :=
  let* ps := broadcast IndexError yi xi in
  map_res (fun p => getitem2 g (fst p) (snd p)) ps.

(** [shift]: [offset %= len(l)], then [l[offset:] ++ l[:offset]]. *)
Definition shift {A : Type} (l : list A) (offset : Z) : res (list A) :=
  if (length l =? 0)%nat then raise ZeroDivisionError
  else
    let offset := Z.to_nat (offset mod Z.of_nat (length l)) in
    ret (drop offset l ++ take offset l).

End Numpy.

(** ** Data model *)

(** An outlet is addressed by its grid cell [(y, x)]. *)
Abbreviation key := (Z * Z)%type.

Section Engine.
Context {num : Type} `{Scalar num}.


(** The dictionary [d] kept for one outlet.  The entries ['uh'] and
    ['ring'] are not always present (see [make_point_dict]). *)
Record point : Type := Point {
  d_time : list num;
  d_xi : list Z;
  d_yi : list Z;
  d_x : Z;
  d_y : Z;
  d_lat : num;
  d_lon : num;
  d_uh : option (list (list num));
  d_now : Z;
  d_ring : option (list num)
}.

Definition set_ring (d : point) (r : list num) : point :=
  {| d_time := d_time d; d_xi := d_xi d; d_yi := d_yi d; d_x := d_x d;
     d_y := d_y d; d_lat := d_lat d; d_lon := d_lon d; d_uh := d_uh d;
     d_now := d_now d; d_ring := Some r |}.

(** [point_dict]: an [OrderedDict], kept in insertion order; its keys are
    pairwise distinct. *)
Local Abbreviation point_dict := (list (key * point)).

(** [m[k] = v] on an ordered dictionary: an existing key keeps its place. *)
Fixpoint od_set {V : Type} (k : key) (v : V) (m : list (key * V))
  : list (key * V) :=
  match m with
  | [] => [(k, v)]
  | (k', v') :: m' =>
      if decide (k = k') then (k, v) :: m' else (k', v') :: od_set k v m'
  end.

(** [m[k]] *)
Fixpoint od_get {V : Type} (k : key) (m : list (key * V)) : res V :=
  match m with
  | [] => raise KeyError
  | (k', v') :: m' => if decide (k = k') then ret v' else od_get k m'
  end.

(** [time_dict]; an absent key is [None].  So is ['out_state_time'] when
    [convolve] has set it to Python's [None]: nothing reads it then. *)
Record time_dict : Type := TimeDict {
  time_step : option (list num);
  time_units : option string;
  time_cal : option string;
  time_long_name : option string;
  time_output_frequency : option string;
  out_state_time : option (list num)
}.

Definition set_out_state_time (td : time_dict) (t : option (list num))
  : time_dict :=
  {| time_step := time_step td; time_units := time_units td;
     time_cal := time_cal td; time_long_name := time_long_name td;
     time_output_frequency := time_output_frequency td;
     out_state_time := t |}.

(** The [shape] handed to [convolve]: [(n,)] for the array layout,
    [(ny, nx)] for the grid layout ([init] builds no other). *)
Inductive shape : Type :=
  | Shape1 (n : nat)
  | Shape2 (ny nx : nat).

(** [out_flow]: a vector indexed by outlet number or a grid indexed by
    cell. *)
Inductive flow : Type :=
  | Flow1 (v : list num)
  | Flow2 (g : list (list num)).

(** [out_state]: an array of shape (len, n), held as its n columns, or of
    shape (len, ny, nx), held as a grid of columns. *)
Inductive state : Type :=
  | State2 (len : nat) (cols : list (list num))
  | State3 (len : nat) (g : list (list (list num))).

(** ** [convolve] *)

(** [out_flow = np.zeros(shape)] *)
Definition new_flow (shp : shape) : flow :=
  match shp with
  | Shape1 n => Flow1 (zeros n)
  | Shape2 ny nx => Flow2 (replicate ny (zeros nx))
  end.

(** [np.zeros((len, shape[0]))] and [np.zeros((len, shape[0], shape[1]))] *)
Definition new_state (len : nat) (shp : shape) : state :=
  match shp with
  | Shape1 n => State2 len (replicate n (zeros len))
  | Shape2 ny nx => State3 len (replicate ny (replicate nx (zeros len)))
  end.

(** The block under [if i == 0]: with [return_state] the state array is
    sized by the first outlet's unit hydrograph and the state time is
    that outlet's time axis plus the time step. *)
Definition convolve_first (return_state : bool) (shp : shape) (d : point)
    (td : time_dict) : time_dict * res (option state) :=
  if return_state then
    match d_uh d with
    | None => (td, raise KeyError)
    | Some u =>
        match time_step td with
        | None => (td, raise KeyError)
        | Some ts =>
            match map2_bc add (d_time d) ts with
            | inl e => (td, inl e)
            | inr t =>
                (set_out_state_time td (Some t),
                 ret (Some (new_state (length u) shp)))
            end
        end
    end
  else (set_out_state_time td None, ret None).

(** [(flux[:, d['yi'], d['xi']] * d['uh']).sum(axis=1)] *)
Definition contribution (flux : list (list num)) (d : point)
  : res (list num) :=
  let* g := gather flux (d_yi d) (d_xi d) in
  let* u := match d_uh d with Some u => ret u | None => raise KeyError end in
  let* prod := map_res (map2_bc mul g) u in
  ret (map sum prod).

(** [out_flow[i] = v] or [out_flow[d['y'], d['x']] = v] *)
Definition store_flow (i : nat) (d : point) (v : num) (out : flow)
  : res flow :=
  match out with
  | Flow1 a =>
      if (i <? length a)%nat then ret (Flow1 (<[i := v]> a))
      else raise IndexError
  | Flow2 g =>
      let* g' := setitem2 g (d_y d) (d_x d) v in
      ret (Flow2 g')
  end.

(** A vector assigned to a column of length [len]: it has that length, or
    length 1 and is repeated. *)
Definition fit_column (len : nat) (r : list num) : res (list num) :=
  if (length r =? len)%nat then ret r
  else match r with
       | [v] => ret (replicate len v)
       | _ => raise ValueError
       end.

(** [out_state[:, i] = r] or [out_state[:, point[0], point[1]] = r] *)
Definition store_state (i : nat) (pt : key) (r : list num) (st : state)
  : res state :=
  match st with
  | State2 len cols =>
      if (i <? length cols)%nat then
        let* c := fit_column len r in
        ret (State2 len (<[i := c]> cols))
      else raise IndexError
  | State3 len g =>
      let* old := getitem2 g (fst pt) (snd pt) in
      let* c := fit_column len r in
      let* g' := setitem2 g (fst pt) (snd pt) c in
      ret (State3 len g')
  end.

(** The body of the loop for outlet number [i]: accumulate into the ring,
    emit slot 0, zero slot [now], rotate, copy the ring into the state.
    The dictionary [d] is updated in place, so the changes made before an
    exception are kept. *)
Definition convolve_point (flux : list (list num)) (i : nat) (pt : key)
    (d : point) (out : flow) (st : option state)
  : point * res (flow * option state) :=
  match d_ring d with
  | None => (d, raise KeyError)
  | Some r =>
  match contribution flux d with
  | inl e => (d, inl e)
  | inr c =>
  match iadd r c with
  | inl e => (d, inl e)
  | inr r1 =>
  let d1 := set_ring d r1 in
  match (let* v := getitem r1 0 in store_flow i d1 v out) with
  | inl e => (d1, inl e)
  | inr out' =>
  match setitem r1 (d_now d1) zero with
  | inl e => (d1, inl e)
  | inr r2 =>
  let d2 := set_ring d1 r2 in
  match shift r2 1 with
  | inl e => (d2, inl e)
  | inr r3 =>
  let d3 := set_ring d2 r3 in
  match st with
  | None => (d3, ret (out', None))
  | Some s =>
      match store_state i pt r3 s with
      | inl e => (d3, inl e)
      | inr s' => (d3, ret (out', Some s'))
      end
  end end end end end end end.

(** The loop over [enumerate(point_dict.iteritems())], from outlet number
    [i] on. *)
Fixpoint convolve_loop (flux : list (list num)) (i : nat) (pts : point_dict)
    (out : flow) (st : option state)
  : point_dict * res (flow * option state) :=
  match pts with
  | [] => ([], ret (out, st))
  | (pt, d) :: rest =>
      match convolve_point flux i pt d out st with
      | (d', inl e) => ((pt, d') :: rest, inl e)
      | (d', inr (out', st')) =>
          let '(rest', r) := convolve_loop flux (S i) rest out' st' in
          ((pt, d') :: rest', r)
      end
  end.

(** [convolve(point_dict, time_dict, flux, return_state, shape)].  The
    [i == 0] block runs once, before the body of the first outlet.  With
    no outlet at all [out_state] is never bound and the [return] raises. *)
Definition convolve (pd : point_dict) (td : time_dict)
    (flux : list (list num)) (return_state : bool) (shp : shape)
  : point_dict * time_dict * res (flow * option state) :=
  match pd with
  | [] => (pd, td, raise UnboundLocalError)
  | (_, d0) :: _ =>
      match convolve_first return_state shp d0 td with
      | (td', inl e) => (pd, td', inl e)
      | (td', inr st) =>
          let '(pd', r) := convolve_loop flux 0 pd (new_flow shp) st in
          (pd', td', r)
      end
  end.

(** [time_dict['time_step'] = t] *)
Definition set_time_step (td : time_dict) (t : list num) : time_dict :=
  {| time_step := Some t; time_units := time_units td;
     time_cal := time_cal td; time_long_name := time_long_name td;
     time_output_frequency := time_output_frequency td;
     out_state_time := out_state_time td |}.

(** Successive calls of [convolve] on one registry and one time
    dictionary, one call per time step: each step brings its time stamp,
    which is put into the time dictionary before the call (as [run] does
    when it opens a flux file), its flux, and whether the state is wanted.
    The results of the steps are collected in order. *)
Fixpoint convolve_seq (pd : point_dict) (td : time_dict)
    (steps : list (list num * list (list num) * bool)) (shp : shape)
  : point_dict * time_dict * res (list (flow * option state)) :=
  match steps with
  | [] => (pd, td, ret [])
  | (t, flux, return_state) :: steps' =>
      match convolve pd (set_time_step td t) flux return_state shp with
      | (pd', td', inl e) => (pd', td', inl e)
      | (pd', td', inr o) =>
          let '(pd'', td'', r) := convolve_seq pd' td' steps' shp in
          (pd'', td'', let* os := r in ret (o :: os))
      end
  end.

End Engine.

Arguments point : clear implicits.
Abbreviation point_dict num := (list (key * point num)).
Arguments time_dict : clear implicits.
Arguments flow : clear implicits.
Arguments state : clear implicits.

(** ** Files and bookkeeping *)

Section Files.
Context {num : Type} `{Scalar num}.

(** Module constants. *)
Definition earthRadius : num := of_Z 6371220.
Definition waterDensity : num := of_Z 1000.
Definition metersPerKm : num := of_Z 1000.
(** 1609.34 and 4046.856: the quotient of two integers is rounded once,
    like the decimal literal. *)
Definition metersPerMile : num := div (of_Z 160934) (of_Z 100).
Definition meters2PerAcre : num := div (of_Z 4046856) (of_Z 1000).
Definition hoursPerDay : num := of_Z 24.
Definition secsPerHour : num := of_Z 3600.
Definition secsPerDay : num := mul hoursPerDay secsPerHour.
Definition mmPerMeter : num := of_Z 1000.
Definition cmPerMeter : num := of_Z 100.

(** What [init] and [run] print to the console.  The progress messages
    under [options['verbose']] and the line of [make_point_dict] that names
    the initial state file are left out. *)
Inductive message : Type :=
  | Unknown_area_units (units : string)
  | Grid_file_problem
  | Making_statefile (flux_file : string)
  | Unexpected_frequency (frequency : string)
  | Unexpected_flux_units (units : string).

(** [counts] *)
Record counts : Type := Counts {
  timesteps : nat;
  out_files : nat;
  state_files : nat;
  restart_files : nat;
  points : nat
}.

(** [out_dict]; an absent key is [None].  [outlet_xs] and [outlet_ys]
    hold the integer outlet coordinates. *)
Record out_dict : Type := OutDict {
  units : option string;
  longitudes : option (list (list num));
  latitudes : option (list (list num));
  lats : list num;
  lons : list num;
  outlet_xs : list Z;
  outlet_ys : list Z
}.

(** A unit-hydrograph file. *)
Record uh_file : Type := UhFile {
  uh_time_units : string;
  uh_time : list num;
  uh_xi : list Z;
  uh_yi : list Z;
  outlet_x : Z;
  outlet_y : Z;
  outlet_lat : num;
  outlet_lon : num;
  unit_hydrograph : list (list num);
  fraction : list num
}.

(** A file written by [write_output].  Its variable [Streamflow] has a
    leading time axis: the L lags of [out_state] in a state file, a single
    entry holding [out_flow] in a streamflow file. *)
Record nc_file : Type := NcFile {
  nc_time : option (list num);
  nc_time_units : option string;
  nc_time_calendar : option string;
  nc_time_longname : option string;
  nc_xi : option (list Z);
  nc_yi : option (list Z);
  nc_lats : option (list num);
  nc_lons : option (list num);
  nc_latitude : option (list (list num));
  nc_longitude : option (list (list num));
  nc_flow_units : option string;
  nc_streamflow : state num
}.

(** ** [make_point_dict] *)

(** [m * v] for a 2-D [m] and a 1-D [v]: [v] is broadcast along the rows. *)
Definition mul_rows (m : list (list num)) (v : list num)
  : res (list (list num)) :=
  map_res (fun row => map2_bc mul row v) m.

Definition map_matrix (f : num → num) (m : list (list num))
  : list (list num) :=
  map (map f) m.

(** The unit hydrograph scaled by the contributing areas, and for mass
    units by the water density over the area of the outlet cell.  With
    other units ['uh'] is not set. *)
Definition scaled_uh (f : uh_file) (area : list (list num)) (units : string)
    (rho_h20 : num) : res (option (list (list num))) :=
  if String.eqb units "kg/m2*s" then
    let* m1 := mul_rows (unit_hydrograph f) (fraction f) in
    let* a := gather area (uh_yi f) (uh_xi f) in
    let* m2 := mul_rows m1 a in
    let m3 := map_matrix (fun v => mul v rho_h20) m2 in
    let* a0 := getitem2 area (outlet_y f) (outlet_x f) in
    ret (Some (map_matrix (fun v => div v a0) m3))
  else if String.eqb units "m3/s" then
    let* m1 := mul_rows (unit_hydrograph f) (fraction f) in
    let* a := gather area (uh_yi f) (uh_xi f) in
    let* m2 := mul_rows m1 a in
    ret (Some m2)
  else ret None.

(** The dictionary [d] built from one file.  Without an initial state the
    ring is a vector of zeros as long as the unit hydrograph; with one the
    ring is left unset here. *)
Definition read_point (f : uh_file) (area : list (list num))
    (od : out_dict) (rho_h20 : num) (cold : bool) : res (point num) :=
  let time :=
    if String.eqb (uh_time_units f) "seconds since 0-01-01 00:00:00"
    then map (fun t => div t (of_Z 86400)) (uh_time f)
    else uh_time f in
  let* u := match units od with Some u => ret u | None => raise KeyError end in
  let* m := scaled_uh f area u rho_h20 in
  let* r :=
    if cold then
      match m with
      | Some m' => ret (Some (zeros (length m')))
      | None => raise KeyError
      end
    else ret None in
  ret {| d_time := time; d_xi := uh_xi f; d_yi := uh_yi f;
         d_x := outlet_x f; d_y := outlet_y f;
         d_lat := outlet_lat f; d_lon := outlet_lon f;
         d_uh := m; d_now := 0; d_ring := r |}.

(** The loop over [uh_files]: each outlet is stored under [(y, x)]. *)
Fixpoint read_points (fs : list uh_file) (area : list (list num))
    (od : out_dict) (rho_h20 : num) (cold : bool) (pd : point_dict num)
  : res (point_dict num) :=
  match fs with
  | [] => ret pd
  | f :: fs' =>
      let* d := read_point f area od rho_h20 cold in
      read_points fs' area od rho_h20 cold (od_set (d_y d, d_x d) d pd)
  end.

(** [point_dict[key]['ring'] = r] *)
Definition restore_ring (k : key) (r : list num) (pd : point_dict num)
  : res (point_dict num) :=
  let* d := od_get k pd in
  ret (od_set k (set_ring d r) pd).

(** Grid state: every registered outlet takes the column stored at its
    own cell. *)
Fixpoint restore_grid (g : list (list (list num))) (ks : list key)
    (pd : point_dict num) : res (point_dict num) :=
  match ks with
  | [] => ret pd
  | k :: ks' =>
      let* r := getitem2 g (fst k) (snd k) in
      let* pd' := restore_ring k r pd in
      restore_grid g ks' pd'
  end.

(** Array state: column [i] goes to the outlet registered under
    [(yi[i], xi[i])] of the state file, for every column in turn. *)
Fixpoint restore_array (i : nat) (cols : list (list num))
    (x_outlets y_outlets : list Z) (pd : point_dict num) : res (point_dict num) :=
  match cols with
  | [] => ret pd
  | r :: cols' =>
      let* yo := getitem y_outlets (Z.of_nat i) in
      let* xo := getitem x_outlets (Z.of_nat i) in
      let* pd' := restore_ring (yo, xo) r pd in
      restore_array (S i) cols' x_outlets y_outlets pd'
  end.

(** The block under [if initial_state] of [make_point_dict]. *)
Definition restore (f : nc_file) (pd : point_dict num) : res (point_dict num) :=
  match nc_streamflow f with
  | State3 _ g => restore_grid g (map fst pd) pd
  | State2 _ cols =>
      match cols with
      | [] => ret pd
      | _ =>
          let* xs := match nc_xi f with Some v => ret v | None => raise KeyError end in
          let* ys := match nc_yi f with Some v => ret v | None => raise KeyError end in
          restore_array 0 cols xs ys pd
      end
  end.

Definition set_outlets (od : out_dict) (pd : point_dict num) : out_dict :=
  {| units := units od; longitudes := longitudes od;
     latitudes := latitudes od;
     lats := map (fun kd => d_lat (snd kd)) pd;
     lons := map (fun kd => d_lon (snd kd)) pd;
     outlet_xs := map (fun kd => d_x (snd kd)) pd;
     outlet_ys := map (fun kd => d_y (snd kd)) pd |}.

Definition set_points (c : counts) (n : nat) : counts :=
  {| timesteps := timesteps c; out_files := out_files c;
     state_files := state_files c; restart_files := restart_files c;
     points := n |}.

(** [make_point_dict(uh_files, area, out_dict, counts, rho_h20,
    initial_state)] *)
Definition make_point_dict (uh_files : list uh_file)
    (area : list (list num)) (od : out_dict) (c : counts) (rho_h20 : num)
    (initial_state : option nc_file)
  : res (point_dict num * out_dict * counts) :=
  let cold := match initial_state with None => true | Some _ => false end in
  let* pd := read_points uh_files area od rho_h20 cold [] in
  let* pd' := match initial_state with
              | None => ret pd
              | Some f => restore f pd
              end in
  ret (pd', set_outlets od pd', set_points c (length uh_files)).

End Files.

Arguments out_dict : clear implicits.
Arguments uh_file : clear implicits.
Arguments nc_file : clear implicits.

(** ** [init], [write_output] and [run] *)

Section Run.
Context {num : Type} `{Scalar num}.

(** The grid file: the variable [area] with its [units] attribute, and the
    cell-centre coordinates [xc] and [yc]. *)
Record grid_file : Type := GridFile {
  area_units : string;
  grid_area : list (list num);
  xc : list (list num);
  yc : list (list num)
}.

(** [outputs]; [outputs['state']] is the list of dates of the state files,
    or [False] ([None]) when the configuration has none. *)
Record outputs : Type := Outputs {
  out_type : string;
  out_units : string;
  outputs_state : option (list string)
}.

Definition one_of (s : string) (l : list string) : bool :=
  existsb (String.eqb s) l.

(** The cell areas in square meters.  [None] is the local variable [area]
    left unbound: the last branch only prints. *)
Definition area_m2 (g : grid_file)
  : option (list (list num)) * list message :=
  let u := area_units g in
  let a := grid_area g in
  if one_of u ["rad2"; "radians2"; "radian2"; "rad^2"; "radians^2";
               "rads^2"; "radians squared"; "square-radians"] then
    (Some (map_matrix (fun v => mul (mul v earthRadius) earthRadius) a), [])
  else if one_of u ["m2"; "m^2"; "meters^2"; "meters2"; "square-meters";
                    "meters squared"] then
    (Some a, [])
  else if one_of u ["km2"; "km^2"; "kilometers^2"; "kilometers2";
                    "square-kilometers"; "kilometers squared"] then
    (Some (map_matrix (fun v => mul (mul v metersPerKm) metersPerKm) a), [])
  else if one_of u ["mi2"; "mi^2"; "miles^2"; "miles"; "square-miles";
                    "miles squared"] then
    (Some (map_matrix (fun v => mul (mul v metersPerMile) metersPerMile) a), [])
  else if one_of u ["acres"; "ac"; "ac."] then
    (Some (map_matrix (fun v => mul v meters2PerAcre) a), [])
  else (None, [Unknown_area_units u]).

(** [a.shape] of a 2-D array *)
Definition shape_of (a : list (list num)) : shape :=
  Shape2 (length a) (match a with [] => 0 | row :: _ => length row end).

Definition new_counts : counts :=
  {| timesteps := 0; out_files := 0; state_files := 0; restart_files := 0;
     points := 0 |}.

(** [init(uh_files, flux_files, grid_file, initial_state, outputs,
    options)]: the console output, and the result or the exception.  An
    exception inside the [try] block is reported and raised again. *)
Definition init (uh_files : list (uh_file num)) (g : grid_file)
    (initial_state : option (nc_file num)) (o : outputs)
  : list message *
    res (point_dict num * out_dict num * list (list num) * shape * counts) :=
  let '(area, w) := area_m2 g in
  let grid := String.eqb (out_type o) "grid" in
  let tried : res shape :=
    if grid then
      match area with
      | Some a => ret (shape_of a)
      | None => raise UnboundLocalError
      end
    else ret (Shape1 (length uh_files)) in
  match tried with
  | inl e => (w ++ [Grid_file_problem], inl e)
  | inr shp =>
      let od :=
        {| units := if String.eqb (out_units o) "mass" then Some "kg/m2*s"
                    else if String.eqb (out_units o) "volume" then Some "m3/s"
                    else None;
           longitudes := if grid then Some (xc g) else None;
           latitudes := if grid then Some (yc g) else None;
           lats := []; lons := []; outlet_xs := []; outlet_ys := [] |} in
      match area with
      | None => (w, raise UnboundLocalError)
      | Some a =>
          (w,
           let* r := make_point_dict uh_files a od new_counts waterDensity
                       initial_state in
           let '(pd, od', c) := r in
           ret (pd, od', a, shp, c))
      end
  end.

(** A flux file: one time step of [Runoff] and [Baseflow] with the
    attributes read by [run]. *)
Record flux_file : Type := FluxFile {
  ff_name : string;
  ff_time : list num;
  ff_time_units : string;
  ff_time_calendar : string;
  ff_time_long_name : string;
  output_frequency : string;
  output_mode : string;
  runoff_units : string;
  Runoff : list (list num);
  Baseflow : list (list num)
}.

(** The divisor [div] that turns a depth per output interval into
    meters per second, with what is printed while choosing it and the
    entry ['output_frequency'] set on the way. *)
Definition flux_div (frequency mode depth_units : string)
  : num * list message * option string :=
  let '(d, w1, fr) :=
    if String.eqb frequency "hourly" && String.eqb mode "instantaneous"
    then (of_Z 1200, [], None)
    else if String.eqb frequency "hourly" && String.eqb mode "averaged"
    then (secsPerHour, [], Some "hourly")
    else if String.eqb frequency "dailyy" && String.eqb mode "averaged"
    then (secsPerDay, [], None)
    else (secsPerHour, [Unexpected_frequency frequency], None) in
  let '(d', w2) :=
    if String.eqb depth_units "mm" then (mul d mmPerMeter, [])
    else if String.eqb depth_units "cm" then (mul d cmPerMeter, [])
    else (mul d mmPerMeter, [Unexpected_flux_units depth_units]) in
  (d', w1 ++ w2, fr).

(** [Runoff + Baseflow] *)
Definition add_fluxes (runoff baseflow : list (list num))
  : res (list (list num)) :=
  let* ps := broadcast ValueError runoff baseflow in
  map_res (fun p => map2_bc add (fst p) (snd p)) ps.

(** [(Runoff + Baseflow) / div] *)
Definition combine (runoff baseflow : list (list num)) (dv : num)
  : res (list (list num)) :=
  let* g := add_fluxes runoff baseflow in
  ret (map_matrix (fun v => div v dv) g).

(** What [write_output] is given: [out_flow] for a streamflow file,
    [out_state] for a state file. *)
Inductive out_data : Type :=
  | Data_flow (f : flow num)
  | Data_state (s : state num).

Definition need {A : Type} (o : option A) : res A :=
  match o with
  | Some a => ret a
  | None => raise KeyError
  end.

(** Assignment to a netCDF variable.  [var[:] = data] for a 1-D variable
    along a dimension of fixed size [n]: netCDF4 stores data of that size
    and refuses data of any other size with [IndexError] (size of data
    array does not conform to slice). *)
Definition nc_put1 {A : Type} (n : nat) (data : list A) : res (list A) :=
  if (length data =? n)%nat then ret data else raise IndexError.

Definition width {A : Type} (g : list (list A)) : nat :=
  match g with
  | [] => 0
  | row :: _ => length row
  end.

(** The [ny] rows of [nx] elements of an array whose elements are [l] in
    row-major order. *)
Fixpoint rows_of {A : Type} (ny nx : nat) (l : list A) : list (list A) :=
  match ny with
  | O => []
  | S ny' => take nx l :: rows_of ny' nx (drop nx l)
  end.

(** Broadcasting along one axis: an axis of length 1 is repeated. *)
Definition stretch {A : Type} (n : nat) (l : list A) : list A :=
  match l with
  | [a] => replicate n a
  | _ => l
  end.

(** [var[:, :] = data] for a variable of [ny] by [nx] elements and 2-D
    data: netCDF4 stores data of that shape; data of another shape is
    reshaped when it has as many elements, and is otherwise broadcast with
    numpy's [broadcast_to], which raises [ValueError] when an axis is
    neither of length 1 nor of the length wanted. *)
Definition nc_put2 {A : Type} (ny nx : nat) (g : list (list A))
  : res (list (list A)) :=
  let a := length g in
  let b := width g in
  if (a =? ny)%nat && forallb (fun row => (length row =? nx)%nat) g
  then ret g
  else if (a * b =? ny * nx)%nat then ret (rows_of ny nx (concat g))
  else if ((a =? 1)%nat || (a =? ny)%nat) && ((b =? 1)%nat || (b =? nx)%nat)
  then ret (stretch ny (map (stretch nx) g))
  else raise ValueError.

(** The assignment to the variable [Streamflow], whose dimensions are
    ['time'], which is unlimited and takes the number of lags of a state,
    and those made from [shape].  [out_flow] is stored as the single time
    entry.  The data [convolve] makes for this [shape] have the shape of
    the variable; data of the same layout and another shape go by the rules
    of [nc_put1] and [nc_put2], a state without lags having no element
    and being reshaped; data of the other layout, which [convolve] does not
    make for this [shape], are refused. *)
Definition put_streamflow (data : out_data) (shp : shape)
  : res (state num) :=
  match shp, data with
  | Shape1 n, Data_flow (Flow1 v) =>
      let* v' := nc_put1 n v in
      ret (State2 1 (map (fun a => [a]) v'))
  | Shape1 n, Data_state (State2 len cols) =>
      if (length cols =? n)%nat then ret (State2 len cols)
      else if (len =? 0)%nat then ret (State2 0 (replicate n []))
      else match cols with
           | [c] => ret (State2 len (replicate n c))
           | _ => raise ValueError
           end
  | Shape2 ny nx, Data_flow (Flow2 g) =>
      let* g' := nc_put2 ny nx g in
      ret (State3 1 (map (map (fun a => [a])) g'))
  | Shape2 ny nx, Data_state (State3 len g) =>
      match nc_put2 ny nx g with
      | inr g' => ret (State3 len g')
      | inl e =>
          if (len =? 0)%nat then ret (State3 0 (replicate ny (replicate nx [])))
          else inl e
      end
  | _, _ => raise ValueError
  end.

(** [write_output]: the file it creates.  The time attributes and the time
    are written first, then the dimensions are made from [shape] and the
    variables are assigned in the order of the source; the first
    assignment that is refused ends the call. *)
Definition write_output (data : out_data) (od : out_dict num)
    (td : time_dict num) (shp : shape) : res (nc_file num) :=
  let* tu := need (time_units td) in
  let* tc := need (time_cal td) in
  let* tl := need (time_long_name td) in
  let* t := match data with
            | Data_state _ => need (out_state_time td)
            | Data_flow _ => need (time_step td)
            end in
  match shp with
  | Shape1 n =>
      let* xs := nc_put1 n (outlet_xs od) in
      let* ys := nc_put1 n (outlet_ys od) in
      let* las := nc_put1 n (lats od) in
      let* los := nc_put1 n (lons od) in
      let* u := need (units od) in
      let* sf := put_streamflow data shp in
      ret {| nc_time := Some t; nc_time_units := Some tu;
             nc_time_calendar := Some tc; nc_time_longname := Some tl;
             nc_xi := Some xs; nc_yi := Some ys;
             nc_lats := Some las; nc_lons := Some los;
             nc_latitude := None; nc_longitude := None;
             nc_flow_units := Some u; nc_streamflow := sf |}
  | Shape2 ny nx =>
      let* la0 := need (latitudes od) in
      let* la := nc_put2 ny nx la0 in
      let* lo0 := need (longitudes od) in
      let* lo := nc_put2 ny nx lo0 in
      let* u := need (units od) in
      let* sf := put_streamflow data shp in
      ret {| nc_time := Some t; nc_time_units := Some tu;
             nc_time_calendar := Some tc; nc_time_longname := Some tl;
             nc_xi := None; nc_yi := None; nc_lats := None; nc_lons := None;
             nc_latitude := Some la; nc_longitude := Some lo;
             nc_flow_units := Some u; nc_streamflow := sf |}
  end.

(** ** [run] *)

(** [sub in s] for strings *)
Fixpoint contains (sub s : string) : bool :=
  if String.prefix sub s then true
  else match s with
       | EmptyString => false
       | String _ s' => contains sub s'
       end.

(** The variables of [run] that live across iterations ([time_dict] and
    [div]; [run_div] is [None] while [div] is unbound), the counts, which
    [run] updates in the dictionary of its caller, and what has been
    printed so far. *)
Record run_state : Type := RunState {
  run_time_dict : time_dict num;
  run_counts : counts;
  run_div : option num;
  run_log : list message
}.

(** The block under [if i == 1]: the time attributes and the divisor are
    taken from this file. *)
Definition first_file (ff : flux_file) (td : time_dict num)
  : time_dict num * num * list message :=
  let '(dv, w, fr) :=
    flux_div (output_frequency ff) (output_mode ff) (runoff_units ff) in
  ({| time_step := time_step td;
      time_units := Some (ff_time_units ff);
      time_cal := Some (ff_time_calendar ff);
      time_long_name := Some (ff_time_long_name ff);
      time_output_frequency :=
        match fr with Some _ => fr | None => time_output_frequency td end;
      out_state_time := out_state_time td |},
   dv, w).

Definition count_timestep (c : counts) : counts :=
  {| timesteps := S (timesteps c); out_files := out_files c;
     state_files := state_files c; restart_files := restart_files c;
     points := points c |}.

(** The first part of an iteration of [while flux_files], from
    [flux_files.popleft()] to [f.close()], [i] files having been processed
    before: whether a state file is due, the time step, on the first file
    the time attributes and the divisor, and the combined flux, in which
    runoff and baseflow are added before [div] is read. *)
Definition read_flux (o : outputs) (i : nat) (ff : flux_file)
    (st : run_state) : run_state * res (bool * list (list num)) :=
  let c := count_timestep (run_counts st) in
  match outputs_state o with
  | None =>
      ({| run_time_dict := run_time_dict st; run_counts := c;
          run_div := run_div st; run_log := run_log st |}, raise TypeError)
  | Some dates =>
      let return_state :=
        existsb (fun date => contains date (ff_name ff)) dates in
      let log0 :=
        if return_state
        then run_log st ++ [Making_statefile (ff_name ff)]
        else run_log st in
      let td1 := set_time_step (run_time_dict st) (ff_time ff) in
      let '(td2, dv, log) :=
        if (S i =? 1)%nat then
          let '(td', dv, w) := first_file ff td1 in
          (td', Some dv, log0 ++ w)
        else (td1, run_div st, log0) in
      ({| run_time_dict := td2; run_counts := c; run_div := dv;
          run_log := log |},
       let* g := add_fluxes (Runoff ff) (Baseflow ff) in
       let* d := match dv with
                 | Some d => ret d
                 | None => raise UnboundLocalError
                 end in
       ret (return_state, map_matrix (fun v => div v d) g))
  end.

(** One iteration of [while flux_files].  After the flux has been read the
    call of [convolve] is written over two lines,
    [point_dict, out_flow,] and
    [out_state, time_dict = convolve(point_dict, time_dict, flux, ...)],
    with no bracket or backslash to join them.  The first line is a
    statement of its own, a tuple expression, and evaluating it reads the
    name [out_flow], which [run] never assigns and the module does not
    define: the iteration stops there with [NameError].  The call itself,
    [write_output] and [write_restart] are never reached. *)
Definition run_step (o : outputs) (i : nat) (ff : flux_file)
    (st : run_state) : run_state * res unit :=
  match read_flux o i ff st with
  | (st', inl e) => (st', inl e)
  | (st', inr _) => (st', raise NameError)
  end.

Fixpoint run_loop (o : outputs) (i : nat) (flux_files : list flux_file)
    (st : run_state) : run_state * res unit :=
  match flux_files with
  | [] => (st, ret tt)
  | ff :: rest =>
      match run_step o i ff st with
      | (st', inl e) => (st', inl e)
      | (st', inr _) => run_loop o (S i) rest st'
      end
  end.

(** [run(Config, flux_files, out_path, outputs, options, point_dict,
    out_dict, area, shape, counts)]: the variables at the point where the
    function returns or raises.  The arguments left out are not used
    before the loop stops; on a normal return the three file names of the
    result are [None]. *)
Definition run (flux_files : list flux_file) (o : outputs) (c : counts)
  : run_state * res unit :=
  run_loop o 0 flux_files
    {| run_time_dict :=
         {| time_step := None; time_units := None; time_cal := None;
            time_long_name := None; time_output_frequency := None;
            out_state_time := None |};
       run_counts := c; run_div := None; run_log := [] |}.

End Run.

Arguments grid_file : clear implicits.
Arguments flux_file : clear implicits.
Arguments out_data : clear implicits.
Arguments run_state : clear implicits.

(** ** Notions used to state the properties *)

Section Notions.
Context {num : Type} `{Scalar num}.

(** The value emitted for outlet number [i] in the array layout:
    [out_flow[i]]. *)
Definition emitted (i : nat) (o : flow num * option (state num)) : option num :=
  match fst o with
  | Flow1 v => v !! i
  | Flow2 _ => None
  end.

(** An outlet without its ring, and a registry without its rings. *)
Definition clear_ring (d : point num) : point num :=
  {| d_time := d_time d; d_xi := d_xi d; d_yi := d_yi d; d_x := d_x d;
     d_y := d_y d; d_lat := d_lat d; d_lon := d_lon d; d_uh := d_uh d;
     d_now := d_now d; d_ring := None |}.

Definition skeleton (pd : point_dict num) : point_dict num :=
  map (fun kd => (fst kd, clear_ring (snd kd))) pd.

(** Every outlet has a unit hydrograph of [L] lags and a ring of length [L]. *)
Definition ring_ok (L : nat) (pd : point_dict num) : Prop :=
  Forall (fun kd => ∃ u r, d_uh (snd kd) = Some u ∧ length u = L ∧
                           d_ring (snd kd) = Some r ∧ length r = L) pd.

(** Two 2-D arrays of the same shape. *)
Definition same_shape (a b : list (list num)) : Prop :=
  Forall2 (fun r1 r2 => length r1 = length r2) a b.

(** The column of a state array that belongs to outlet number [i] with key
    [k]: [out_state[:, i]] or [out_state[:, k[0], k[1]]]. *)
Definition state_column (s : state num) (i : nat) (k : key) : res (list num) :=
  match s with
  | State2 _ cols => getitem cols (Z.of_nat i)
  | State3 _ g => getitem2 g (fst k) (snd k)
  end.

Definition state_len (s : state num) : nat :=
  match s with
  | State2 len _ => len
  | State3 len _ => len
  end.

(** A state array of the shape [shp]: one column per entry of the array
    layout, a grid of [ny] rows of [nx] columns for the grid layout. *)
Definition fits (shp : shape) (s : state num) : Prop :=
  match shp, s with
  | Shape1 n, State2 _ cols => length cols = n
  | Shape2 ny nx, State3 _ g =>
      length g = ny ∧ Forall (fun row => length row = nx) g
  | _, _ => False
  end.

(** Places of two outlets in a state array that cannot coincide: different
    outlet numbers in the array layout, different cells with non-negative
    coordinates in the grid layout. *)
Definition apart (shp : shape) (i : nat) (k : key) (i' : nat) (k' : key)
  : Prop :=
  match shp with
  | Shape1 _ => i ≠ i'
  | Shape2 _ _ =>
      k ≠ k' ∧ 0 ≤ fst k ∧ 0 ≤ snd k ∧ 0 ≤ fst k' ∧ 0 ≤ snd k'
  end.

(** In the grid layout the outlets sit in distinct cells with non-negative
    coordinates. *)
Definition placed (shp : shape) (pd : point_dict num) : Prop :=
  match shp with
  | Shape1 _ => True
  | Shape2 _ _ =>
      NoDup (map fst pd) ∧
      Forall (fun kd => 0 ≤ fst (fst kd) ∧ 0 ≤ snd (fst kd)) pd
  end.

(** The registry suits the layout: the array layout has one entry per
    outlet; in the grid layout the outlet coordinates are not negative. *)
Definition layout_ok (shp : shape) (pd : point_dict num) : Prop :=
  match shp with
  | Shape1 n => length pd = n
  | Shape2 _ _ => Forall (fun kd => 0 ≤ fst (fst kd) ∧ 0 ≤ snd (fst kd)) pd
  end.

(** The outlet with the coefficients [C] (one column: K = 1), the single
    contributing cell [(y, x)] and the ring [r]. *)
Definition single_cell (C tm : list num) (y x oy ox : Z) (la lo : num)
    (r : list num) : point num :=
  {| d_time := tm; d_xi := [x]; d_yi := [y]; d_x := ox; d_y := oy;
     d_lat := la; d_lon := lo; d_uh := Some (map (fun c => [c]) C);
     d_now := 0; d_ring := Some r |}.

(** The arithmetic takes the coefficients [C] in as the values [E]: a
    unit flux puts each coefficient into an empty slot as the value of [E]
    at its place, and a zero flux leaves a slot that holds a value of [E]
    or nothing as it is. *)
Definition absorbs (C E : list num) : Prop :=
  Forall2 (fun c e => add zero (mul (of_Z 1) c) = e) C E ∧
  (∀ r c, r ∈ E ∨ r = zero → c ∈ C → add r (mul zero c) = r).

(** The steps of a run that never asks for the state. *)
Definition plain_steps (fluxes : list (list num * list (list num)))
  : list (list num * list (list num) * bool) :=
  map (fun tf => (fst tf, snd tf, false)) fluxes.

(** The invariant of a registry under construction: distinct keys, every
    outlet stored under its own cell, rings and unit hydrographs of [L]
    lags. *)
Definition registry_ok (L : nat) (pd : point_dict num) : Prop :=
  NoDup (map fst pd) ∧
  Forall (fun kd => fst kd = (d_y (snd kd), d_x (snd kd))) pd ∧
  ring_ok L pd.

(** The arrays of a unit-hydrograph file agree in shape, and its
    contributing cells and its outlet cell lie inside the area grid.
    Nothing is asked of the number of rows L of the unit hydrograph, of the
    number K of contributing cells, or of the values. *)
Definition well_shaped (area : list (list num)) (uf : uh_file num) : Prop :=
  length (fraction uf) = length (uh_xi uf) ∧
  length (uh_yi uf) = length (uh_xi uf) ∧
  Forall (fun row => length row = length (uh_xi uf)) (unit_hydrograph uf) ∧
  (∃ a, gather area (uh_yi uf) (uh_xi uf) = inr a) ∧
  (∃ a0, getitem2 area (outlet_y uf) (outlet_x uf) = inr a0).

(** An entry of the registry that comes from one of the files [fs]: it is
    stored under the outlet cell of the file, its unit hydrograph has as
    many rows as that of the file, and its ring is that many zeros. *)
Definition registered (fs : list (uh_file num)) (kd : key * point num)
  : Prop :=
  ∃ uf m, uf ∈ fs ∧ fst kd = (outlet_y uf, outlet_x uf) ∧
          d_uh (snd kd) = Some m ∧
          length m = length (unit_hydrograph uf) ∧
          d_ring (snd kd) = Some (zeros (length (unit_hydrograph uf))).

(** The ring a list of snapshot entries gives to the key [k]: the column
    of the last entry under that key. *)
Fixpoint last_entry (k : key) (entries : list (key * list num))
  : option (list num) :=
  match entries with
  | [] => None
  | (k', r) :: es =>
      match last_entry k es with
      | Some r' => Some r'
      | None => if decide (k = k') then Some r else None
      end
  end.

(** The registry in which every outlet named by a snapshot entry has taken
    the ring of its last entry, and the other outlets are as before. *)
Definition restored (entries : list (key * list num)) (pd : point_dict num)
  : point_dict num :=
  map (fun kd => (fst kd,
                  match last_entry (fst kd) entries with
                  | Some r => set_ring (snd kd) r
                  | None => snd kd
                  end)) pd.

(** The registry in which every outlet has taken the column of the grid
    state at its own cell. *)
Definition grid_restored (g : list (list (list num))) (pd : point_dict num)
  : res (point_dict num) :=
  map_res (fun kd => let* r := getitem2 g (fst (fst kd)) (snd (fst kd)) in
                     ret (fst kd, set_ring (snd kd) r)) pd.

(** The area units that [init] knows. *)
Definition known_area_units : list string :=
  ["rad2"; "radians2"; "radian2"; "rad^2"; "radians^2"; "rads^2";
   "radians squared"; "square-radians";
   "m2"; "m^2"; "meters^2"; "meters2"; "square-meters"; "meters squared";
   "km2"; "km^2"; "kilometers^2"; "kilometers2"; "square-kilometers";
   "kilometers squared";
   "mi2"; "mi^2"; "miles^2"; "miles"; "square-miles"; "miles squared";
   "acres"; "ac"; "ac."].

End Notions.

(** The depth-unit factor of the flux divisor and the warning that goes
    with it, as the routing specification tabulates them, in binary64. *)
Definition depth_factor (depth_units : string) : float :=
  if String.eqb depth_units "cm" then 100%float else 1000%float.

Definition depth_warning (depth_units : string) : list message :=
  if String.eqb depth_units "mm" || String.eqb depth_units "cm" then []
  else [Unexpected_flux_units depth_units].


(** The record of a mantissa that has lost no bit in a shift. *)
Definition exact_record (m : positive) : shr_record :=
  {| shr_m := Z.pos m; shr_r := false; shr_s := false |}.

(** ** Sample data, in binary64 *)

Module Sample.
#[local] Set Warnings "-inexact-float".
Local Open Scope float_scope.

(** A 2 x 2 grid of unit areas, volume units, a time dictionary as [run]
    has it after the first flux file. *)
Definition area : list (list float) := [[1; 1]; [1; 1]].

Definition od : out_dict float :=
  {| units := Some "m3/s"; longitudes := None; latitudes := None;
     lats := []; lons := []; outlet_xs := []; outlet_ys := [] |}.

Definition td : time_dict float :=
  {| time_step := None; time_units := Some "days since 0001-01-01";
     time_cal := Some "noleap"; time_long_name := Some "time";
     time_output_frequency := None; out_state_time := None |}.

(** A flux grid with [v] in cell (0, 0) and nothing elsewhere. *)
Definition flux_of (v : float) : list (list float) := [[v; 0]; [0; 0]].

(** L = 3, K = 1: the outlet of the concrete scenario, at cell (0, 0), fed
    by cell (0, 0). *)
Definition coefficients : list float := [0.5; 0.3; 0.2].

Definition outlet : point float :=
  single_cell coefficients [0; 1; 2] 0 0 0 0 0 0 (zeros 3).

Definition advance (pd : point_dict float) (v : float) :=
  convolve pd (set_time_step td [100]) (flux_of v) false (Shape1 1).

Definition rings (pd : point_dict float) : list (option (list float)) :=
  map (fun kd => d_ring (snd kd)) pd.

(** Unit-hydrograph files.  [file_a] and [file_b] have three lags each;
    [file_p] has two lags and [file_q] one. *)
Definition file_a : uh_file float :=
  {| uh_time_units := "days since 0-01-01 00:00:00"; uh_time := [0; 1; 2];
     uh_xi := [0%Z]; uh_yi := [0%Z]; outlet_x := 0; outlet_y := 0;
     outlet_lat := 45; outlet_lon := 10;
     unit_hydrograph := [[0.5]; [0.3]; [0.2]]; fraction := [1] |}.

Definition file_b : uh_file float :=
  {| uh_time_units := "days since 0-01-01 00:00:00"; uh_time := [5; 6; 7];
     uh_xi := [1%Z; 1%Z]; uh_yi := [0%Z; 1%Z]; outlet_x := 1; outlet_y := 1;
     outlet_lat := 46; outlet_lon := 11;
     unit_hydrograph := [[0.25; 0.5]; [0.5; 0.25]; [0.25; 0.25]];
     fraction := [1; 1] |}.

Definition file_p : uh_file float :=
  {| uh_time_units := "days since 0-01-01 00:00:00"; uh_time := [0; 1];
     uh_xi := [0%Z]; uh_yi := [0%Z]; outlet_x := 0; outlet_y := 0;
     outlet_lat := 45; outlet_lon := 10;
     unit_hydrograph := [[1]; [1]]; fraction := [1] |}.

Definition file_q : uh_file float :=
  {| uh_time_units := "days since 0-01-01 00:00:00"; uh_time := [0];
     uh_xi := [0%Z]; uh_yi := [0%Z]; outlet_x := 1; outlet_y := 0;
     outlet_lat := 45; outlet_lon := 11;
     unit_hydrograph := [[1]]; fraction := [1] |}.

(** Degenerate unit hydrographs: no lag at all, no contributing cell at
    all, a coefficient that is not a number, an infinite coefficient. *)
Definition file_no_lags : uh_file float :=
  {| uh_time_units := "days since 0-01-01 00:00:00"; uh_time := [];
     uh_xi := [0%Z]; uh_yi := [0%Z]; outlet_x := 0; outlet_y := 0;
     outlet_lat := 45; outlet_lon := 10;
     unit_hydrograph := []; fraction := [1] |}.

Definition file_no_cells : uh_file float :=
  {| uh_time_units := "days since 0-01-01 00:00:00"; uh_time := [0; 1];
     uh_xi := []; uh_yi := []; outlet_x := 1; outlet_y := 0;
     outlet_lat := 45; outlet_lon := 11;
     unit_hydrograph := [[]; []]; fraction := [] |}.

Definition file_nan : uh_file float :=
  {| uh_time_units := "days since 0-01-01 00:00:00"; uh_time := [0; 1];
     uh_xi := [0%Z]; uh_yi := [0%Z]; outlet_x := 0; outlet_y := 1;
     outlet_lat := 46; outlet_lon := 10;
     unit_hydrograph := [[nan]; [infinity]]; fraction := [1] |}.

(** The registry of [file_a] and [file_b] after a cold start, after one
    time step, and after a second one that returns the state; the state
    file of that step. *)
Definition registry (fs : list (uh_file float))
    (initial_state : option (nc_file float)) : point_dict float :=
  match make_point_dict fs area od new_counts 1000 initial_state with
  | inr (pd, _, _) => pd
  | inl _ => []
  end.

Definition od_ab : out_dict float :=
  Eval vm_compute in set_outlets od (registry [file_a; file_b] None).

Definition pd_ab0 : point_dict float :=
  Eval vm_compute in registry [file_a; file_b] None.

Definition step1 : list float * list (list float) * bool :=
  ([100], [[10; 4]; [0; 2]], false).

Definition pd_ab1 : point_dict float :=
  Eval vm_compute in fst (fst (convolve_seq pd_ab0 td [step1] (Shape1 2))).

Definition td_ab1 : time_dict float :=
  Eval vm_compute in snd (fst (convolve_seq pd_ab0 td [step1] (Shape1 2))).

Definition outs_ab1 : list (flow float * option (state float)) :=
  Eval vm_compute in
    match snd (convolve_seq pd_ab0 td [step1] (Shape1 2)) with
    | inr os => os
    | inl _ => []
    end.

Definition flux2 : list (list float) := [[1; 2]; [3; 4]].

Definition pd_ab2 : point_dict float :=
  Eval vm_compute in
    fst (fst (convolve pd_ab1 (set_time_step td_ab1 [101]) flux2 true (Shape1 2))).

Definition td_ab2 : time_dict float :=
  Eval vm_compute in
    snd (fst (convolve pd_ab1 (set_time_step td_ab1 [101]) flux2 true (Shape1 2))).

Definition out_ab2 : flow float :=
  Eval vm_compute in
    match snd (convolve pd_ab1 (set_time_step td_ab1 [101]) flux2 true (Shape1 2)) with
    | inr (out, _) => out
    | inl _ => Flow1 []
    end.

Definition st_ab2 : state float :=
  Eval vm_compute in
    match snd (convolve pd_ab1 (set_time_step td_ab1 [101]) flux2 true (Shape1 2)) with
    | inr (_, Some st) => st
    | _ => State2 0 []
    end.

Definition state_file_ab2 : nc_file float :=
  Eval vm_compute in
    match write_output (Data_state st_ab2) od_ab td_ab2 (Shape1 2) with
    | inr f => f
    | inl _ =>
        {| nc_time := None; nc_time_units := None; nc_time_calendar := None;
           nc_time_longname := None; nc_xi := None; nc_yi := None;
           nc_lats := None; nc_lons := None; nc_latitude := None;
           nc_longitude := None; nc_flow_units := None;
           nc_streamflow := State2 0 [] |}
    end.

(** A state file of the array layout with the given entries. *)
Definition state_file (xs ys : list Z) (cols : list (list float))
  : nc_file float :=
  {| nc_time := Some [100; 101; 102]; nc_time_units := Some "days";
     nc_time_calendar := Some "noleap"; nc_time_longname := Some "time";
     nc_xi := Some xs; nc_yi := Some ys; nc_lats := None; nc_lons := None;
     nc_latitude := None; nc_longitude := None; nc_flow_units := Some "m3/s";
     nc_streamflow := State2 3 cols |}.

(** An outlet whose only contributing cell, (5, 5), is outside the 2 x 2
    flux grid. *)
Definition outlet_outside : point float :=
  single_cell coefficients [0; 1; 2] 5 5 1 1 0 0 (zeros 3).

(** A second outlet with three lags, at cell (1, 1), fed by cell (0, 0);
    its time axis starts at [t]. *)
Definition outlet_b (t : float) : point float :=
  single_cell [0.5; 0.25; 0.25] [t; t + 1; t + 2] 0 0 1 1 0 0 (zeros 3).

(** A grid file whose areas are in hectares. *)
Definition hectares : grid_file float :=
  {| area_units := "hectares"; grid_area := area; xc := area; yc := area |}.

End Sample.

(** Two flux files and the outputs of a configuration, for examples. *)
Module RunSample.
#[local] Set Warnings "-inexact-float".
Local Open Scope float_scope.

Definition ff : flux_file float :=
  {| ff_name := "flux/flux.1990-01-01.nc"; ff_time := [100];
     ff_time_units := "days since 0001-01-01"; ff_time_calendar := "noleap";
     ff_time_long_name := "time"; output_frequency := "hourly";
     output_mode := "averaged"; runoff_units := "mm";
     Runoff := [[3600000; 0]; [0; 0]]; Baseflow := [[0; 7200000]; [0; 0]] |}.

(** A second flux file, daily and in centimeters. *)
Definition ff2 : flux_file float :=
  {| ff_name := "flux/flux.1990-01-02.nc"; ff_time := [101];
     ff_time_units := "days since 0001-01-01"; ff_time_calendar := "noleap";
     ff_time_long_name := "time"; output_frequency := "dailyy";
     output_mode := "averaged"; runoff_units := "cm";
     Runoff := [[8640000; 0]; [0; 0]]; Baseflow := [[0; 0]; [0; 0]] |}.

Definition o : outputs :=
  {| out_type := "array"; out_units := "volume";
     outputs_state := Some ["1990-01-01"] |}.

End RunSample.

(** ** Further notions: the ring over several time steps *)

Section RingNotions.
Context {num : Type} `{Scalar num}.

(** An outlet as [make_point_dict] builds it and [convolve] keeps it:
    [now] is 0 and the ring has one slot per lag of the unit hydrograph,
    and at least one. *)
Definition steady (d : point num) : Prop :=
  d_now d = 0 ∧
  ∃ u r, d_uh d = Some u ∧ d_ring d = Some r ∧ length r = length u ∧ r ≠ [].

(** The ring of an outlet, empty when it has none. *)
Definition ring_of (d : point num) : list num :=
  match d_ring d with
  | Some r => r
  | None => []
  end.

(** One time step on a ring [r] that receives the contribution [c]: slot 0
    of the sum is emitted, the other slots move down by one and a zero
    comes in behind them. *)
Definition emit (r c : list num) : num :=
  match zip_with add r c with
  | a :: _ => a
  | [] => zero
  end.

Definition next_ring (r c : list num) : list num :=
  tail (zip_with add r c) ++ [zero].

(** The contribution of a flux to the ring of the outlet [d], empty where
    it cannot be computed, and the contributions of a sequence of fluxes.
    They do not depend on the ring. *)
Definition contribution_of (flux : list (list num)) (d : point num)
  : list num :=
  match contribution flux d with
  | inr c => c
  | inl _ => []
  end.

Definition contributions (fluxes : list (list num * list (list num)))
    (d : point num) : list (list num) :=
  map (fun tf => contribution_of (snd tf) d) fluxes.

(** One time step on the outlet [d]: the value it emits and the outlet
    with its new ring. *)
Definition step_emit (flux : list (list num)) (d : point num) : num :=
  emit (ring_of d) (contribution_of flux d).

Definition step_point (flux : list (list num)) (d : point num) : point num :=
  set_ring d (next_ring (ring_of d) (contribution_of flux d)).

(** The flux can be gathered and weighted for every outlet of the
    registry. *)
Definition feeds (flux : list (list num)) (pd : point_dict num) : Prop :=
  Forall (fun kd => ∃ c, contribution flux (snd kd) = inr c) pd.

(** The convolution sum for time step [t]: what slot [t] of the initial
    ring [r0] holds (nothing once the initial ring has been emitted), to
    which the contributions [cs] of the steps [s = 0, ..., t] are added in
    the order of the steps, each at lag [t - s], as far as the unit
    hydrograph has that lag. *)
Definition lagged (r0 : list num) (cs : list (list num)) (t : nat) : num :=
  fold_left add
    (omap (fun s => cs !! s ≫= (fun c => c !! (t - s)%nat)) (seq 0 (S t)))
    (match r0 !! t with Some a => a | None => zero end).

(** The convolution in the words of the specification.  The cell number
    [k] of an outlet, the flux in a cell, the weight the unit hydrograph
    gives cell [k] at lag [l], and the number of lags. *)
Definition cell_y (d : point num) (k : nat) : Z :=
  match d_yi d !! k with Some y => y | None => 0 end.

Definition cell_x (d : point num) (k : nat) : Z :=
  match d_xi d !! k with Some x => x | None => 0 end.

Definition flux_at (flux : list (list num)) (y x : Z) : num :=
  match getitem2 flux y x with inr v => v | inl _ => zero end.

Definition weight (d : point num) (l k : nat) : num :=
  match d_uh d with
  | Some u =>
      match u !! l with
      | Some row => match row !! k with Some w => w | None => zero end
      | None => zero
      end
  | None => zero
  end.

Definition lags (d : point num) : nat :=
  match d_uh d with Some u => length u | None => O end.

(** What the flux of one time step sends to the outlet at lag [l]: the
    flux of each contributing cell times the weight of that cell at that
    lag, summed over the contributing cells. *)
Definition routed (flux : list (list num)) (d : point num) (l : nat) : num :=
  sum (map (fun k => mul (flux_at flux (cell_y d k) (cell_x d k))
                       (weight d l k))
         (seq 0 (length (d_xi d)))).

(** The same for every time step and every lag. *)
Definition routing (fluxes : list (list num * list (list num)))
    (d : point num) : list (list num) :=
  map (fun tf => map (routed (snd tf) d) (seq 0 (lags d))) fluxes.

(** The arrays of an outlet agree: as many row indices as column indices
    of contributing cells, and a weight for each of them at every lag. *)
Definition aligned (d : point num) : Prop :=
  length (d_yi d) = length (d_xi d) ∧
  ∀ u, d_uh d = Some u → Forall (fun row => length row = length (d_xi d)) u.

(** The lengths of the rings of a registry, outlet by outlet. *)
Definition ring_lengths (pd : point_dict num) : list (option nat) :=
  map (fun kd => length <$> d_ring (snd kd)) pd.

End RingNotions.

(** ** Further notions: the keys of the registry *)

Section RegistryNotions.
Context {num : Type} `{Scalar num}.

(** The cell under which the outlet of a unit-hydrograph file is
    registered. *)
Definition outlet_cell (f : uh_file num) : key := (outlet_y f, outlet_x f).

(** The keys of an ordered dictionary that holds the keys [acc] after
    assignments to the keys [ks] in turn: a key takes its place at its
    first assignment. *)
Fixpoint keys_after (acc ks : list key) : list key :=
  match ks with
  | [] => acc
  | k :: ks' =>
      keys_after (if decide (k ∈ acc) then acc else acc ++ [k]) ks'
  end.

(** Every outlet is stored under its own cell. *)
Definition keyed (pd : point_dict num) : Prop :=
  Forall (fun kd => fst kd = (d_y (snd kd), d_x (snd kd))) pd.

End RegistryNotions.

(** ** The configuration: [process_config_file] and [write_restart] *)

(** [sep.join(l)] *)
Fixpoint join (sep : string) (l : list string) : string :=
  match l with
  | [] => ""
  | s :: l' =>
      match l' with
      | [] => s
      | _ :: _ => String.append s (String.append sep (join sep l'))
      end
  end.

(** The scan of [s.split(sep)] from the left: [piece] is the piece read so
    far and [skip] counts the characters of an occurrence of [sep] that are
    still to be passed over. *)
Fixpoint split_from (sep : string) (skip : nat) (piece s : string)
  : list string :=
  match s with
  | EmptyString => [piece]
  | String ch s' =>
      match skip with
      | S n => split_from sep n piece s'
      | O =>
          if String.prefix sep s
          then piece :: split_from sep (String.length sep - 1) "" s'
          else split_from sep 0 (String.append piece (String ch "")) s'
      end
  end.

(** [s.split(sep)]: the pieces between the occurrences of [sep]; an empty
    separator raises. *)
Definition split (sep s : string) : res (list string) :=
  if String.eqb sep "" then raise ValueError
  else ret (split_from sep 0 "" s).

(** What [process_config_file] takes from the Python library: the options
    as [ConfigParser] returns them once the configuration file is read
    ([None] when [Config.get] or [Config.getboolean] raises), and the file
    system ([os.path.exists]; whether [os.makedirs] succeeds; the sorted
    result of [glob.glob]). *)
Record config_env : Type := ConfigEnv {
  cfg_get : string → string → option string;
  cfg_getboolean : string → string → option bool;
  os_path_exists : string → bool;
  os_makedirs : string → bool;
  sorted_glob : string → list string
}.

(** An exception of [ConfigParser] (no such section, no such option), or
    one of the exceptions of the engine. *)
Inductive config_exn : Type :=
  | ConfigParser_Error
  | Raised (e : exn).

(** The warnings of [process_config_file]. *)
Inductive config_message : Type :=
  | Out_type_not_found
  | Out_units_not_found.

(** The result of [process_config_file], [Config] itself apart. *)
Record settings : Type := Settings {
  set_uh_files : list string;
  set_flux_files : list string;
  set_grid_file : string;
  set_out_path : string;
  set_initial_state : option string;
  set_outputs : outputs;
  set_case_name : option string;
  set_verbose : bool
}.

(** [process_config_file(config_file)]: what is printed, and the result or
    the exception.  The name [IOerror] that the code raises for a missing
    grid file or output path is not defined, so that what is raised there
    is [NameError]; inside the [try] block of the initial state the same
    happens and is caught. *)
Definition process_config_file (env : config_env)
  : list config_message * (config_exn + settings) :=
  let verbose :=
    match cfg_getboolean env "Options" "verbose" with
    | Some b => b
    | None => false
    end in
  let '(otype, w1) :=
    match cfg_get env "Outputs" "out_type" with
    | Some t => (t, [])
    | None => ("array", [Out_type_not_found])
    end in
  let '(ounits, w2) :=
    match cfg_get env "Outputs" "out_units" with
    | Some u => (u, [])
    | None => ("volume", [Out_units_not_found])
    end in
  let state :=
    match cfg_get env "Outputs" "state" with
    | Some s =>
        match split ", " s with
        | inr dates => Some dates
        | inl _ => None
        end
    | None => None
    end in
  let case_name := cfg_get env "Outputs" "case_name" in
  let w := w1 ++ w2 in
  match cfg_get env "Paths" "uh_files" with
  | None => (w, inl ConfigParser_Error)
  | Some uh_pattern =>
  let uh_files := sorted_glob env uh_pattern in
  match cfg_get env "Paths" "flux_files" with
  | None => (w, inl ConfigParser_Error)
  | Some fl =>
  match split ", " fl with
  | inl e => (w, inl (Raised e))
  | inr f =>
  match (if (1 <? length f)%nat then ret f
         else match f with
              | f0 :: _ => ret (sorted_glob env f0)
              | [] => raise IndexError
              end) with
  | inl e => (w, inl (Raised e))
  | inr flux_files =>
  match cfg_get env "Paths" "grid_file" with
  | None => (w, inl (Raised NameError))
  | Some grid_file =>
  match cfg_get env "Paths" "out_path" with
  | None => (w, inl (Raised NameError))
  | Some out_path =>
  if negb (os_path_exists env out_path) && negb (os_makedirs env out_path)
  then (w, inl (Raised NameError))
  else
    let initial_state :=
      match cfg_get env "Paths" "initial_state" with
      | Some f => if os_path_exists env f then Some f else None
      | None => None
      end in
    (w, inr {| set_uh_files := uh_files; set_flux_files := flux_files;
               set_grid_file := grid_file; set_out_path := out_path;
               set_initial_state := initial_state;
               set_outputs := {| out_type := otype; out_units := ounits;
                                 outputs_state := state |};
               set_case_name := case_name; set_verbose := verbose |})
  end end end end end end.

(** [Config.set(section, option, value)], seen through [Config.get]. *)
Definition cfg_set (section name value : string)
    (get : string → string → option string) : string → string → option string :=
  fun s o =>
    if String.eqb s section && String.eqb o name then Some value
    else get s o.

(** [write_restart(Config, state_name, restart_name, flux_files)]: the
    options of the configuration it returns and writes to [restart_name].
    The section [Paths] exists, as [Config] has been read from. *)
Definition write_restart (get : string → string → option string)
    (state_name : string) (flux_files : list string)
  : string → string → option string :=
  cfg_set "Paths" "initial_state" state_name
    (cfg_set "Paths" "flux_files" (join ", " flux_files) get).

(** The environment of a run that is started from the restart
    configuration: the options are those written by [write_restart]. *)
Definition restart_env (env : config_env) (state_name : string)
    (flux_files : list string) : config_env :=
  {| cfg_get := write_restart (cfg_get env) state_name flux_files;
     cfg_getboolean := cfg_getboolean env;
     os_path_exists := os_path_exists env;
     os_makedirs := os_makedirs env;
     sorted_glob := sorted_glob env |}.

(** A configuration as a list of (section, option, value), and a file
    system, for examples. *)
Module ConfigSample.

Definition get_of (opts : list (string * string * string))
    (section name : string) : option string :=
  match filter (fun e => String.eqb (fst (fst e)) section
                         && String.eqb (snd (fst e)) name) opts with
  | e :: _ => Some (snd e)
  | [] => None
  end.

(** No option for the state dates or the initial state, flux files given
    by a pattern, an output directory to be made. *)
Definition env : config_env :=
  {| cfg_get :=
       get_of [("Outputs", "out_type", "array");
               ("Paths", "uh_files", "uh/*.nc");
               ("Paths", "flux_files", "flux/*.nc");
               ("Paths", "grid_file", "grid.nc");
               ("Paths", "out_path", "out")];
     cfg_getboolean := fun _ _ => None;
     os_path_exists := fun p => String.eqb p "out/state_2.nc";
     os_makedirs := fun _ => true;
     sorted_glob :=
       fun p => if String.eqb p "uh/*.nc" then ["uh/a.nc"; "uh/b.nc"]
                else if String.eqb p "flux/*.nc"
                     then ["flux/1.nc"; "flux/2.nc"; "flux/3.nc"; "flux/4.nc"]
                     else [] |}.

Definition settings_of (e : config_env) : option settings :=
  match snd (process_config_file e) with
  | inr s => Some s
  | inl _ => None
  end.

End ConfigSample.

(** * Pour points: [tools/find_pour_points.py] *)

(** Coordinates are compared and subtracted. *)
Class Ordered (num : Type) : Type := {
  num_ltb : num → num → bool;
  num_sub : num → num → num
}.

#[export] Instance float_ordered : Ordered float := {|
  num_ltb := PrimFloat.ltb;
  num_sub := PrimFloat.sub
|}.

Section PourPoints.
Context {num : Type} `{Scalar num} `{Ordered num}.

(** numpy's conversions on assignment into the result arrays (Python
    library): to the 32-bit integers of dtype ['i'], which may refuse a
    value, and to the single precision of dtype ['f']. *)
Variable to_int32 : Z → res Z.
Variable to_float32 : num → num.

(** The input file: the rasters [Basin_ID] and [Source_Area], as arrays
    of integers, and the coordinate axes [lon] and [lat]. *)
Record rasters : Type := Rasters {
  Basin_ID : list (list Z);
  Source_Area : list (list Z);
  raster_lon : list num;
  raster_lat : list num
}.

(** A row of the result: entry [i] of each of the eight arrays. *)
Record pour_point : Type := PourPoint {
  basin : Z;
  x_outlet : num;
  y_outlet : num;
  max_area : Z;
  min_x : num;
  min_y : num;
  max_x : num;
  max_y : num
}.

(** [np.min] and [np.max] of a 2-D array of integers. *)
Definition np_min (g : list (list Z)) : res Z :=
  match concat g with
  | [] => raise ValueError
  | a :: l => ret (fold_left Z.min l a)
  end.

Definition np_max (g : list (list Z)) : res Z :=
  match concat g with
  | [] => raise ValueError
  | a :: l => ret (fold_left Z.max l a)
  end.

(** [np.arange(a, b)] for integers *)
Definition arange (a b : Z) : list Z := seqZ a (b - a).

(** [np.meshgrid(lons, lats)] *)
Definition meshgrid_x (lons lats : list num) : list (list num) :=
  replicate (length lats) lons.

Definition meshgrid_y (lons lats : list num) : list (list num) :=
  map (fun la => replicate (length lons) la) lats.

(** [np.nonzero(g == j)]: the cells that hold [j], row by row. *)
Fixpoint row_hits (j : Z) (r c : nat) (row : list Z) : list (nat * nat) :=
  match row with
  | [] => []
  | v :: row' =>
      if v =? j then (r, c) :: row_hits j r (S c) row'
      else row_hits j r (S c) row'
  end.

Fixpoint hits (j : Z) (r : nat) (g : list (list Z)) : list (nat * nat) :=
  match g with
  | [] => []
  | row :: g' => row_hits j r 0 row ++ hits j (S r) g'
  end.

(** The value of a raster in the cell (row, column), if the raster has
    it. *)
Definition at_cell {A : Type} (g : list (list A)) (rc : nat * nat)
  : option A :=
  match g !! fst rc with
  | Some row => row !! snd rc
  | None => None
  end.

(** The order in which [np.nonzero] lists the cells: row by row, and
    within a row by column. *)
Definition before (a b : nat * nat) : Prop :=
  (fst a < fst b)%nat ∨ (fst a = fst b ∧ (snd a < snd b)%nat).

Definition increasing (l : list (nat * nat)) : Prop :=
  ∀ k' k a b, (k' < k)%nat → l !! k' = Some a → l !! k = Some b → before a b.

(** [g[inds]] for the index arrays of [np.nonzero] *)
Definition take_cells {A : Type} (g : list (list A)) (inds : list (nat * nat))
  : res (list A) :=
  map_res (fun rc => getitem2 g (Z.of_nat (fst rc)) (Z.of_nat (snd rc))) inds.

(** Python's [max] and [min] of a sequence: the first item is kept until
    an item compares greater (smaller); an empty sequence raises. *)
Definition py_max {A : Type} (lt : A → A → bool) (l : list A) : res A :=
  match l with
  | [] => raise ValueError
  | a :: l' => ret (fold_left (fun m x => if lt m x then x else m) l' a)
  end.

Definition py_min {A : Type} (lt : A → A → bool) (l : list A) : res A :=
  match l with
  | [] => raise ValueError
  | a :: l' => ret (fold_left (fun m x => if lt x m then x else m) l' a)
  end.

(** [np.argmax] of a 1-D array of integers: the first place of the
    maximum. *)
Fixpoint argmax_from (best : Z) (at_ : nat) (i : nat) (l : list Z) : nat :=
  match l with
  | [] => at_
  | a :: l' =>
      if best <? a then argmax_from a i (S i) l'
      else argmax_from best at_ (S i) l'
  end.

Definition argmax (l : list Z) : res nat :=
  match l with
  | [] => raise ValueError
  | a :: l' => ret (argmax_from a 0 1 l')
  end.

(** The body of the loop over the basin ids. *)
Definition pour_point_of (rs : rasters) (x y : list (list num)) (res : num)
    (j : Z) : exn + pour_point :=
  let* b := to_int32 j in
  let inds := hits j 0 (Basin_ID rs) in
  let* x_basin := take_cells x inds in
  let* y_basin := take_cells y inds in
  let* areas := take_cells (Source_Area rs) inds in
  let* a := py_max Z.ltb areas in
  let* ma := to_int32 a in
  let* max_ind := argmax areas in
  let* xo := getitem x_basin (Z.of_nat max_ind) in
  let* yo := getitem y_basin (Z.of_nat max_ind) in
  let* x0 := py_min num_ltb x_basin in
  let* x1 := py_max num_ltb x_basin in
  let* y0 := py_min num_ltb y_basin in
  let* y1 := py_max num_ltb y_basin in
  ret {| basin := b; x_outlet := to_float32 xo; y_outlet := to_float32 yo;
         max_area := ma; min_x := to_float32 x0; min_y := to_float32 y0;
         max_x := to_float32 (add x1 res); max_y := to_float32 (add y1 res) |}.

(** [main] up to the call of the writer: the rows of the arrays [basin],
    [x_outlet], [y_outlet], [max_area], [min_x], [min_y], [max_x],
    [max_y], one row per basin id searched. *)
Definition find_pour_points (rs : rasters) : exn + list pour_point :=
  let lons := raster_lon rs in
  let lats := raster_lat rs in
  let* l1 := getitem lons 1 in
  let* l0 := getitem lons 0 in
  let res := num_sub l1 l0 in
  let x := meshgrid_x lons lats in
  let y := meshgrid_y lons lats in
  let* lo := np_min (Basin_ID rs) in
  let* hi := np_max (Basin_ID rs) in
  map_res (pour_point_of rs x y res) (arange lo hi).

End PourPoints.

Arguments rasters : clear implicits.
Arguments pour_point : clear implicits.

(** A raster of three basins for examples: basin 2 has its largest source
    area, 7, in the cells (1, 1) and (2, 2).  The conversions are taken as
    exact. *)
Module PourSample.
#[local] Set Warnings "-inexact-float".
Local Open Scope float_scope.

Definition rs : rasters float :=
  {| Basin_ID := [[1; 1; 2]; [1; 2; 2]; [3; 3; 2]]%Z;
     Source_Area := [[1; 5; 1]; [2; 7; 3]; [1; 2; 7]]%Z;
     raster_lon := [10; 10.5; 11];
     raster_lat := [45; 44.5; 44] |}.

Definition search : exn + list (pour_point float) :=
  find_pour_points (fun z => ret z) (fun v => v) rs.

End PourSample.

Section PourNotions.
Context {num : Type}.

(** The rasters fit the grid of the coordinate axes: at least two
    longitudes, every cell of [Basin_ID] inside the grid and present in
    [Source_Area]. *)
Definition fits_grid (rs : rasters num) : Prop :=
  (2 ≤ length (raster_lon rs))%nat ∧
  ∀ rc j, at_cell (Basin_ID rs) rc = Some j →
          (fst rc < length (raster_lat rs))%nat ∧
          (snd rc < length (raster_lon rs))%nat ∧
          ∃ a, at_cell (Source_Area rs) rc = Some a.

(** The basin ids are consecutive: every integer between two ids of the
    raster is the id of some cell. *)
Definition ids_consecutive (rs : rasters num) : Prop :=
  ∀ j1 j2 j, j1 ∈ concat (Basin_ID rs) → j2 ∈ concat (Basin_ID rs) →
             j1 ≤ j ≤ j2 → ∃ rc, at_cell (Basin_ID rs) rc = Some j.

End PourNotions.

(** * Properties *)

(** ** The numpy primitives on well-shaped operands *)

Section NumpyFacts.
Context {num : Type} `{Scalar num}.

Lemma bind_inr {A B : Type} (m : res A) (k : A → res B) (b : B) :
  bind m k = inr b ↔ ∃ a, m = inr a ∧ k a = inr b.
Proof.
  destruct m as [e|a]; cbn; split.
  - discriminate.
  - intros (a & Ha & _). discriminate.
  - eauto.
  - intros (a' & Ha & Hk). congruence.
Qed.

Lemma map_res_inr {A B : Type} (f : A → res B) (g : A → B) (l : list A) :
  Forall (fun a => f a = inr (g a)) l → map_res f l = inr (map g l).
Proof.
  induction 1 as [|a l Ha _ IH]; cbn; [reflexivity|].
  rewrite Ha, IH. reflexivity.
Qed.

Lemma map_res_length {A B : Type} (f : A → res B) (l : list A) (l' : list B) :
  map_res f l = inr l' → length l' = length l.
Proof.
  revert l'. induction l as [|a l IH]; cbn; intros l' E.
  - injection E as <-. reflexivity.
  - destruct (f a) as [e|b]; [discriminate|]. cbn in E.
    destruct (map_res f l) as [e|bs]; [discriminate|]. cbn in E.
    injection E as <-. cbn. f_equal. apply IH. reflexivity.
Qed.

Lemma map_res_Forall2 {A B : Type} (f : A → res B) (l : list A) :
  ∀ l' : list B,
    map_res f l = inr l' → Forall2 (fun a b => f a = inr b) l l'.
Proof.
  induction l as [|a l IH]; intros l' E.
  - cbn in E. injection E as <-. constructor.
  - cbn [map_res] in E. destruct (f a) as [e|b] eqn:Ea; [discriminate|].
    cbn [bind] in E. destruct (map_res f l) as [e|bs]; [discriminate|].
    cbn [bind ret] in E. injection E as <-. constructor; [exact Ea|].
    apply IH. reflexivity.
Qed.

Lemma broadcast_same {A B : Type} (e : exn) (l1 : list A) (l2 : list B) :
  length l1 = length l2 → broadcast e l1 l2 = inr (zip l1 l2).
Proof.
  intros E. unfold broadcast.
  rewrite (proj2 (Nat.eqb_eq _ _) E). reflexivity.
Qed.

Lemma map2_bc_same {A B C : Type} (f : A → B → C) (l1 : list A) (l2 : list B) :
  length l1 = length l2 → map2_bc f l1 l2 = inr (zip_with f l1 l2).
Proof.
  intros E. unfold map2_bc. rewrite broadcast_same by exact E. cbn.
  unfold ret. f_equal. clear E. revert l2.
  induction l1 as [|a l1 IH]; intros [|b l2]; cbn; try reflexivity.
  f_equal. apply IH.
Qed.

Lemma iadd_same (a b : list num) :
  length b = length a → iadd a b = inr (zip_with add a b).
Proof.
  intros E. unfold iadd. rewrite (proj2 (Nat.eqb_eq _ _) E). reflexivity.
Qed.

Lemma np_index_nat (n i : nat) :
  (i < n)%nat → np_index n (Z.of_nat i) = inr i.
Proof.
  intros Hi. unfold np_index.
  destruct (Z.leb_spec 0 (Z.of_nat i)); [|lia].
  destruct (Z.ltb_spec (Z.of_nat i) (Z.of_nat n)); [|lia].
  cbn. unfold ret. f_equal. lia.
Qed.

Lemma getitem_nat {A : Type} (l : list A) (i : nat) (a : A) :
  l !! i = Some a → getitem l (Z.of_nat i) = inr a.
Proof.
  intros Hl. unfold getitem.
  rewrite np_index_nat by (eapply lookup_lt_Some; eauto).
  cbn. rewrite Hl. reflexivity.
Qed.

Lemma getitem_nat_ge {A : Type} (l : list A) (i : nat) :
  (length l ≤ i)%nat → getitem l (Z.of_nat i) = inl IndexError.
Proof.
  intros Hi. unfold getitem, np_index.
  destruct (Z.leb_spec 0 (Z.of_nat i)); [|lia].
  destruct (Z.ltb_spec (Z.of_nat i) (Z.of_nat (length l))); [lia|].
  cbn. destruct (Z.ltb_spec (Z.of_nat i) 0); [lia|].
  rewrite andb_false_r. reflexivity.
Qed.

Lemma getitem_head {A : Type} (a : A) (l : list A) :
  getitem (a :: l) 0 = inr a.
Proof. apply (getitem_nat (a :: l) 0%nat). reflexivity. Qed.

Lemma setitem_head {A : Type} (a v : A) (l : list A) :
  setitem (a :: l) 0 v = inr (v :: l).
Proof.
  unfold setitem.
  change 0 with (Z.of_nat 0).
  rewrite (np_index_nat (length (a :: l)) 0%nat) by (cbn; lia).
  reflexivity.
Qed.

Lemma shift_length {A : Type} (l l' : list A) (k : Z) :
  shift l k = inr l' → length l' = length l.
Proof.
  unfold shift. destruct (length l =? 0)%nat; [discriminate|].
  intros E. injection E as <-.
  rewrite length_app, length_drop, length_take. lia.
Qed.

(** Rotation by one of a non-empty vector: the head moves to the end. *)
Lemma shift_one {A : Type} (a : A) (l : list A) :
  shift (a :: l) 1 = inr (l ++ [a]).
Proof.
  unfold shift. cbn [length Nat.eqb].
  destruct l as [|b l]; [reflexivity|].
  rewrite Z.mod_small by (cbn [length]; lia).
  reflexivity.
Qed.

End NumpyFacts.
(** ** Conservation of a unit impulse *)

Section Conservation.
Context {num : Type} `{Scalar num}.

Lemma absorb_impulse (l e : list num) :
  Forall2 (fun c v => add zero (mul (of_Z 1) c) = v) l e →
  zip_with add (zeros (length l)) (map (mul (of_Z 1)) l) = e.
Proof.
  induction 1 as [|c v l e Hcv _ IH]; cbn; [reflexivity|].
  rewrite Hcv. f_equal. exact IH.
Qed.

Lemma absorb_nothing (l : list num) :
  ∀ r : list num,
    length r = length l →
    (∀ a c, a ∈ r → c ∈ l → add a (mul zero c) = a) →
    zip_with add r (map (mul zero) l) = r.
Proof.
  induction l as [|c l IH]; intros [|a r] Hlen Hr; cbn; try reflexivity;
    try discriminate.
  rewrite (Hr a c) by apply list_elem_of_here. f_equal. apply IH.
  - cbn in Hlen. lia.
  - intros a' c' Ha' Hc'. apply Hr; apply list_elem_of_further; assumption.
Qed.

Variables (C E tm : list num) (k : key) (y x oy ox : Z) (la lo : num).
Hypothesis HC : absorbs C E.

Local Abbreviation cell r := (single_cell C tm y x oy ox la lo r).

Lemma absorbs_length : length E = length C.
Proof. symmetry. apply (Forall2_length _ _ _ (proj1 HC)). Qed.

Lemma contribution_single_cell (flux : list (list num)) (v : num) (r : list num) :
  getitem2 flux y x = inr v →
  contribution flux (cell r) = inr (map (mul v) C).
Proof.
  intros Hv. unfold contribution, gather. cbn.
  rewrite Hv. cbn.
  rewrite (map_res_inr _ (fun row => map (mul v) row)).
  - cbn. unfold ret. f_equal. rewrite !map_map. reflexivity.
  - apply Forall_forall. intros row Hrow.
    apply list_elem_of_fmap in Hrow as (c & -> & _). reflexivity.
Qed.

(** One time step on that outlet alone, in the array layout: slot 0 of
    the accumulated ring is emitted and the rest moves up by one. *)
Lemma convolve_single_cell (td : time_dict num) (flux : list (list num))
    (v a : num) (r r' : list num) :
  getitem2 flux y x = inr v →
  length r = length C →
  zip_with add r (map (mul v) C) = a :: r' →
  convolve [(k, cell r)] td flux false (Shape1 1)
  = ([(k, cell (r' ++ [zero]))], set_out_state_time td None,
     inr (Flow1 [a], None)).
Proof.
  intros Hv Hlen Hz. unfold convolve. cbn [convolve_first convolve_loop].
  unfold convolve_point. cbn [d_ring single_cell].
  rewrite (contribution_single_cell _ _ _ Hv).
  rewrite iadd_same by (rewrite length_map; congruence).
  rewrite Hz, getitem_head. cbn [bind store_flow zeros replicate length Nat.ltb Nat.leb].
  cbn [d_now set_ring single_cell]. rewrite setitem_head, shift_one.
  reflexivity.
Qed.

Lemma ring_after (t : nat) :
  (t < length E)%nat →
  ∃ a, E !! t = Some a ∧
       drop t E ++ zeros t = a :: (drop (S t) E ++ zeros t).
Proof.
  intros Ht. destruct (lookup_lt_is_Some_2 E t Ht) as [a Ha].
  exists a. split; [exact Ha|].
  rewrite (drop_S _ _ _ Ha). reflexivity.
Qed.

(** After the impulse has entered the ring, every further step with no
    flux emits the next value of the ring. *)
Lemma drain (fluxes : list (list num * list (list num))) (t : nat)
    (td : time_dict num) :
  (t + length fluxes = length C)%nat →
  Forall (fun tf => getitem2 (snd tf) y x = inr zero) fluxes →
  ∃ pd' td',
    convolve_seq [(k, cell (drop t E ++ zeros t))] td
      (plain_steps fluxes) (Shape1 1)
    = (pd', td', inr (map (fun c => (Flow1 [c], None)) (drop t E))).
Proof.
  pose proof absorbs_length as HEl.
  revert t td. induction fluxes as [|[ts f] fluxes IH]; intros t td Hlen Hf.
  - cbn in *. rewrite drop_ge by lia. eauto.
  - cbn [length] in Hlen. apply Forall_cons in Hf as [Hf0 Hf]. cbn [snd] in Hf0.
    destruct (ring_after t ltac:(lia)) as (a & Ha & Hr).
    cbn [plain_steps map convolve_seq fst snd].
    rewrite (convolve_single_cell _ f zero a _ (drop (S t) E ++ zeros t) Hf0).
    + destruct (IH (S t) (set_out_state_time (set_time_step td ts) None)
                  ltac:(lia) Hf) as (pd' & td' & E1).
      replace ((drop (S t) E ++ zeros t) ++ [zero])
        with (drop (S t) E ++ zeros (S t)).
      * unfold plain_steps in E1. rewrite E1. exists pd', td'. cbn.
        rewrite (drop_S _ _ _ Ha). reflexivity.
      * rewrite <- app_assoc. f_equal. unfold zeros.
        rewrite replicate_S_end. reflexivity.
    + rewrite length_app, length_drop. unfold zeros.
      rewrite length_replicate. lia.
    + rewrite absorb_nothing, Hr; [reflexivity| |].
      * rewrite length_app, length_drop. unfold zeros.
        rewrite length_replicate. lia.
      * intros v c Hv Hc. apply (proj2 HC); [|exact Hc].
        apply elem_of_app in Hv as [Hv|Hv].
        -- left. apply (subseteq_drop t E), Hv.
        -- right. unfold zeros in Hv. apply elem_of_replicate in Hv. tauto.
Qed.

(** The emitted sequence of the impulse is the sequence [E]. *)
Lemma impulse_response (fluxes : list (list num * list (list num)))
    (td : time_dict num) :
  length fluxes = length C →
  (∀ t tf, fluxes !! t = Some tf →
           getitem2 (snd tf) y x
           = inr (match t with O => of_Z 1 | S _ => zero end)) →
  ∃ pd' td',
    convolve_seq [(k, cell (zeros (length C)))] td
      (plain_steps fluxes) (Shape1 1)
    = (pd', td', inr (map (fun c => (Flow1 [c], None)) E)).
Proof.
  pose proof absorbs_length as HEl.
  intros Hlen Hf. destruct fluxes as [|[ts f] fluxes].
  - assert (EC : E = []) by (destruct E; [reflexivity|cbn in *; lia]).
    assert (CC : C = []) by (destruct C; [reflexivity|discriminate]).
    rewrite EC, CC. cbn. eauto.
  - cbn [length] in Hlen.
    assert (Hone : getitem2 f y x = inr (of_Z 1))
      by (apply (Hf 0%nat (ts, f)); reflexivity).
    assert (Hz : Forall (fun tf => getitem2 (snd tf) y x = inr zero) fluxes).
    { apply Forall_forall. intros g Hg.
      apply list_elem_of_lookup in Hg as [i Hi]. apply (Hf (S i)). exact Hi. }
    destruct (ring_after 0 ltac:(lia)) as (a & Ha & Hr).
    rewrite drop_0 in Hr.
    cbn [plain_steps map convolve_seq fst snd].
    rewrite (convolve_single_cell _ f (of_Z 1) a _ (drop 1 E ++ zeros 0) Hone).
    + destruct (drain fluxes 1 (set_out_state_time (set_time_step td ts) None))
        as (pd' & td' & E1).
      * lia.
      * exact Hz.
      * change ((drop 1 E ++ zeros 0) ++ [zero])
          with ((drop 1 E ++ []) ++ zeros 1).
        rewrite app_nil_r. unfold plain_steps in E1. rewrite E1.
        exists pd', td'. cbn [bind ret].
        assert (EC : E = a :: drop 1 E) by exact (drop_S E a 0 Ha).
        f_equal. f_equal. symmetry. rewrite EC at 1. reflexivity.
    + unfold zeros. rewrite length_replicate. reflexivity.
    + rewrite (absorb_impulse C E) by apply (proj1 HC).
      change (zeros 0) with (@nil num) in Hr. rewrite app_nil_r in Hr.
      exact Hr.
Qed.

End Conservation.

(** ** Binary64: what a coefficient becomes in the ring *)

Section Binary64.

Lemma bounded_canonical (m : positive) (e : Z) :
  bounded prec emax m e = true →
  fexp prec emax (Z.pos (digits2_pos m) + e) = e ∧ e <= emax - prec.
Proof.
  unfold bounded, canonical_mantissa. intros B.
  apply andb_prop in B as [B1 B2].
  split; [apply Z.eqb_eq, B1|apply Z.leb_le, B2].
Qed.

Lemma shr_fexp_canonical (m : positive) (e : Z) :
  bounded prec emax m e = true →
  shr_fexp prec emax (Z.pos m) e loc_Exact = (exact_record m, e).
Proof.
  intros B. apply bounded_canonical in B as [B _].
  unfold shr_fexp. cbn [Zdigits2]. rewrite B, Z.sub_diag. reflexivity.
Qed.

Lemma shr_fexp_times_one (m : positive) (e : Z) :
  bounded prec emax m e = true →
  shr_fexp prec emax (Z.pos (4503599627370496 * m)) (-52 + e) loc_Exact
  = (exact_record m, e).
Proof.
  intros B. apply bounded_canonical in B as [B _].
  unfold shr_fexp. cbn [Zdigits2].
  assert (Hd : Z.pos (digits2_pos (4503599627370496 * m)) + (-52 + e)
               = Z.pos (digits2_pos m) + e).
  { change (4503599627370496 * m)%positive with (Pos.iter xO m 52).
    cbn [Pos.iter digits2_pos]. lia. }
  rewrite Hd, B. replace (e - (-52 + e)) with 52 by lia.
  unfold shr. replace (-52 + e + 52) with e by lia. reflexivity.
Qed.

(** The product of one and a binary64 value is that value. *)
Lemma mul_one_l (c : float) : (1 * c)%float = c.
Proof.
  apply Prim2SF_inj. rewrite mul_spec.
  pose proof (Prim2SF_valid c) as V.
  change (Prim2SF 1) with (S754_finite false 4503599627370496 (-52)).
  destruct (Prim2SF c) as [s|s| |s m e]; try reflexivity.
  cbn [SpecFloat.valid_binary] in V.
  unfold SF64mul, SFmul, binary_round_aux.
  rewrite (shr_fexp_times_one m e V).
  change (round_nearest_even (shr_m (exact_record m)) (loc_of_shr_record (exact_record m)))
    with (Z.pos m).
  rewrite (shr_fexp_canonical m e V). cbn [shr_m exact_record xorb].
  apply bounded_canonical in V as [_ V].
  apply Z.leb_le in V. rewrite V. reflexivity.
Qed.

(** A finite value is a zero or has a mantissa. *)
Lemma is_finite_spec (c : float) :
  PrimFloat.is_finite c = true →
  (∃ s, Prim2SF c = S754_zero s) ∨ (∃ s m e, Prim2SF c = S754_finite s m e).
Proof.
  unfold PrimFloat.is_finite, PrimFloat.is_nan, PrimFloat.is_infinity.
  rewrite !FloatAxioms.eqb_spec, FloatAxioms.abs_spec.
  change (Prim2SF infinity) with (S754_infinity false).
  destruct (Prim2SF c) as [s|s| |s m e]; eauto.
  - destruct s; discriminate.
  - discriminate.
Qed.

(** Zero plus a value is never a negative zero. *)
Lemma zero_add_not_neg_zero (c : float) :
  Prim2SF (0 + c)%float ≠ S754_zero true.
Proof.
  rewrite add_spec. change (Prim2SF 0) with (S754_zero false).
  pose proof (Prim2SF_valid c) as V.
  destruct (Prim2SF c) as [s|s| |s m e]; cbn; try discriminate.
  destruct s; discriminate.
Qed.

(** Zero plus a value is that value, unless it is the negative zero. *)
Lemma zero_add (c : float) : c ≠ neg_zero → (0 + c)%float = c.
Proof.
  intros Hc. apply Prim2SF_inj. rewrite add_spec.
  change (Prim2SF 0) with (S754_zero false).
  destruct (Prim2SF c) as [s|s| |s m e] eqn:Ec; try reflexivity.
  destruct s; [|reflexivity]. exfalso. apply Hc. apply Prim2SF_inj.
  rewrite Ec. reflexivity.
Qed.

(** A value other than the negative zero stays as it is when the product
    of zero and a finite value is added to it. *)
Lemma add_zero_product (r c : float) :
  Prim2SF r ≠ S754_zero true → PrimFloat.is_finite c = true →
  (r + 0 * c)%float = r.
Proof.
  intros Hr Hc. apply Prim2SF_inj. rewrite add_spec, mul_spec.
  change (Prim2SF 0) with (S754_zero false).
  destruct (is_finite_spec c Hc) as [[s ->]|(s & m & e & ->)];
    cbn [SF64mul SFmul xorb];
    (destruct (Prim2SF r) as [sr|sr| |sr mr er]; try reflexivity;
     destruct sr; [exfalso; apply Hr; reflexivity|];
     destruct s; reflexivity).
Qed.

(** Binary64 takes finite coefficients in as themselves, a negative zero
    as the positive zero. *)
Lemma binary64_absorbs (C : list float) :
  Forall (fun c => PrimFloat.is_finite c = true) C →
  absorbs C (map (PrimFloat.add 0) C).
Proof.
  intros HC. split.
  - apply Forall2_fmap_r, Forall_Forall2_diag.
    apply Forall_forall. intros c _.
    change (add zero (mul (of_Z 1) c)) with (0 + 1 * c)%float.
    rewrite mul_one_l. reflexivity.
  - intros r c Hr Hc.
    change (add r (mul zero c)) with (r + 0 * c)%float.
    apply add_zero_product.
    + destruct Hr as [Hr| ->].
      * apply list_elem_of_fmap in Hr as (c' & -> & _).
        apply zero_add_not_neg_zero.
      * discriminate.
    + rewrite Forall_forall in HC. apply HC, Hc.
Qed.

End Binary64.

(** ** What [convolve] changes and what it keeps *)

Section ConvolveFacts.
Context {num : Type} `{Scalar num}.

Lemma set_ring_set_ring (d : point num) (r r' : list num) :
  set_ring (set_ring d r) r' = set_ring d r'.
Proof. reflexivity. Qed.

Lemma clear_ring_set_ring (d : point num) (r : list num) :
  clear_ring (set_ring d r) = clear_ring d.
Proof. reflexivity. Qed.

Lemma set_ring_clear_ring (d d' : point num) (r : list num) :
  clear_ring d' = clear_ring d → d_ring d' = Some r →
  set_ring (clear_ring d) r = d'.
Proof.
  destruct d, d'. unfold clear_ring, set_ring. cbn.
  intros E ->. injection E as -> -> -> -> -> -> -> -> ->. reflexivity.
Qed.

Lemma iadd_length (a b r : list num) :
  iadd a b = inr r → length r = length a.
Proof.
  unfold iadd. destruct (length b =? length a)%nat eqn:E.
  - apply Nat.eqb_eq in E. intros E'. injection E' as <-.
    rewrite length_zip_with. lia.
  - destruct b as [|v [|]]; try discriminate.
    intros E'. injection E' as <-. apply length_map.
Qed.

Lemma setitem_length {A : Type} (l l' : list A) (i : Z) (v : A) :
  setitem l i v = inr l' → length l' = length l.
Proof.
  unfold setitem. destruct (np_index (length l) i); [discriminate|].
  cbn. intros E. injection E as <-. apply length_insert.
Qed.

(** A successful pass over one outlet replaces its ring by one of the same
    length, changes nothing else of the outlet, and stores the new ring in
    the state when there is one. *)
Lemma convolve_point_inr (flux : list (list num)) (i : nat) (pt : key)
    (d d' : point num) (out out' : flow num) (st st' : option (state num)) :
  convolve_point flux i pt d out st = (d', inr (out', st')) →
  ∃ r r', d_ring d = Some r ∧ d' = set_ring d r' ∧ length r' = length r ∧
          match st with
          | None => st' = None
          | Some s => ∃ s', st' = Some s' ∧ store_state i pt r' s = inr s'
          end.
Proof.
  unfold convolve_point.
  destruct (d_ring d) as [r|] eqn:Er; [|discriminate].
  destruct (contribution flux d) as [|c]; [discriminate|].
  destruct (iadd r c) as [|r1] eqn:E1; [discriminate|].
  destruct (let* v := getitem r1 0 in store_flow i (set_ring d r1) v out)
    as [|o1]; [discriminate|].
  destruct (setitem r1 (d_now (set_ring d r1)) zero) as [|r2] eqn:E2;
    [discriminate|].
  destruct (shift r2 1) as [|r3] eqn:E3; [discriminate|].
  assert (Hlen : length r3 = length r).
  { rewrite (shift_length _ _ _ E3), (setitem_length _ _ _ _ E2).
    apply (iadd_length _ _ _ E1). }
  destruct st as [s|].
  - destruct (store_state i pt r3 s) as [|s'] eqn:E4; [discriminate|].
    intros E. injection E as <- <- <-. exists r, r3. eauto 6.
  - intros E. injection E as <- <- <-. exists r, r3. eauto.
Qed.

Lemma skeleton_cons (k : key) (d : point num) (pd : point_dict num) :
  skeleton ((k, d) :: pd) = (k, clear_ring d) :: skeleton pd.
Proof. reflexivity. Qed.

Lemma skeleton_length (pd : point_dict num) : length (skeleton pd) = length pd.
Proof. apply length_map. Qed.

Lemma skeleton_keys (pd : point_dict num) : map fst (skeleton pd) = map fst pd.
Proof. unfold skeleton. rewrite map_map. reflexivity. Qed.

(** The loop keeps the keys and everything of the outlets but the rings,
    and the lengths of the rings. *)
Lemma convolve_loop_skeleton (flux : list (list num)) (pts pts' : point_dict num)
    (i : nat) (out out' : flow num) (st st' : option (state num)) (L : nat) :
  convolve_loop flux i pts out st = (pts', inr (out', st')) →
  skeleton pts' = skeleton pts ∧ (ring_ok L pts → ring_ok L pts').
Proof.
  revert pts' i out st. induction pts as [|[k d] pts IH]; intros pts' i out st.
  - cbn. intros E. injection E as <- <- <-. auto.
  - cbn [convolve_loop].
    destruct (convolve_point flux i k d out st) as [d1 [e|[o1 s1]]] eqn:Ep;
      [discriminate|].
    destruct (convolve_loop flux (S i) pts o1 s1) as [rest r] eqn:El.
    intros E. injection E as <- ->.
    destruct (IH _ _ _ _ El) as [Hs Hr].
    apply convolve_point_inr in Ep as (r0 & r1 & Hr0 & -> & Hlen & _).
    split.
    + rewrite !skeleton_cons, Hs. reflexivity.
    + intros Hok. apply Forall_cons in Hok as [(u & r2 & Hu & HuL & Hr2 & Hr2L) Hok].
      apply Forall_cons. split; [|apply Hr, Hok].
      exists u, r1. cbn in *.
      assert (r2 = r0) as -> by congruence.
      split; [exact Hu|]. split; [exact HuL|]. split; [reflexivity|lia].
Qed.

End ConvolveFacts.

(** ** Reading back what was stored in a state array *)

Section StateFacts.
Context {num : Type} `{Scalar num}.

Lemma np_index_inr (n : nat) (i : Z) (j : nat) :
  np_index n i = inr j → (j < n)%nat ∧ (0 ≤ i → j = Z.to_nat i).
Proof.
  unfold np_index.
  destruct (Z.leb_spec 0 i); destruct (Z.ltb_spec i (Z.of_nat n)); cbn;
    try (intros E; injection E as <-; split; [lia|reflexivity]).
  - destruct (Z.leb_spec (- Z.of_nat n) i); destruct (Z.ltb_spec i 0); cbn;
      try discriminate. lia.
  - destruct (Z.leb_spec (- Z.of_nat n) i); destruct (Z.ltb_spec i 0); cbn;
      try discriminate.
    intros E; injection E as <-. split; lia.
  - destruct (Z.leb_spec (- Z.of_nat n) i); destruct (Z.ltb_spec i 0); cbn;
      try discriminate. lia.
Qed.

Lemma getitem_inr {A : Type} (l : list A) (i : Z) (a : A) :
  getitem l i = inr a →
  ∃ j, np_index (length l) i = inr j ∧ l !! j = Some a.
Proof.
  unfold getitem. destruct (np_index (length l) i) as [|j]; [discriminate|].
  cbn. destruct (l !! j) as [a'|] eqn:E; [|discriminate].
  intros E'. injection E' as <-. eauto.
Qed.

Lemma getitem_index {A : Type} (l : list A) (i : Z) (j : nat) (a : A) :
  np_index (length l) i = inr j → l !! j = Some a → getitem l i = inr a.
Proof. intros Hi Hl. unfold getitem. rewrite Hi. cbn. rewrite Hl. reflexivity. Qed.

Lemma setitem_inr {A : Type} (l l' : list A) (i : Z) (v : A) :
  setitem l i v = inr l' →
  ∃ j, np_index (length l) i = inr j ∧ l' = <[j := v]> l.
Proof.
  unfold setitem. destruct (np_index (length l) i) as [|j]; [discriminate|].
  cbn. intros E. injection E as <-. eauto.
Qed.

Lemma setitem2_inr {A : Type} (g g' : list (list A)) (y x : Z) (v : A) :
  setitem2 g y x v = inr g' →
  ∃ jy jx row, np_index (length g) y = inr jy ∧ g !! jy = Some row ∧
               np_index (length row) x = inr jx ∧
               g' = <[jy := <[jx := v]> row]> g.
Proof.
  unfold setitem2. intros E.
  apply bind_inr in E as (row & Hrow & E).
  apply bind_inr in E as (row' & Hrow' & E).
  apply getitem_inr in Hrow as (jy & Hjy & Hg).
  apply setitem_inr in Hrow' as (jx & Hjx & ->).
  apply setitem_inr in E as (jy' & Hjy' & ->).
  assert (jy' = jy) as -> by congruence.
  exists jy, jx, row. auto.
Qed.

(** What was written to a cell is read back from it. *)
Lemma getitem2_setitem2 {A : Type} (g g' : list (list A)) (y x : Z) (v : A) :
  setitem2 g y x v = inr g' → getitem2 g' y x = inr v.
Proof.
  intros E. apply setitem2_inr in E as (jy & jx & row & Hjy & Hg & Hjx & ->).
  unfold getitem2.
  rewrite (getitem_index _ y jy (<[jx := v]> row)).
  - cbn. apply (getitem_index _ x jx).
    + rewrite length_insert. exact Hjx.
    + apply list_lookup_insert_eq. apply np_index_inr in Hjx. tauto.
  - rewrite length_insert. exact Hjy.
  - apply list_lookup_insert_eq. apply np_index_inr in Hjy. tauto.
Qed.

(** A write to a cell leaves the other cells as they were; the cells are
    told apart by their non-negative coordinates. *)
Lemma getitem2_setitem2_ne {A : Type} (g g' : list (list A)) (y x y' x' : Z)
    (v : A) :
  setitem2 g y x v = inr g' →
  0 ≤ y → 0 ≤ x → 0 ≤ y' → 0 ≤ x' → (y, x) ≠ (y', x') →
  getitem2 g' y' x' = getitem2 g y' x'.
Proof.
  intros E Hy Hx Hy' Hx' Hne.
  apply setitem2_inr in E as (jy & jx & row & Hjy & Hg & Hjx & ->).
  apply np_index_inr in Hjy as [Hjy1 Hjy2].
  apply np_index_inr in Hjx as [Hjx1 Hjx2].
  specialize (Hjy2 Hy). specialize (Hjx2 Hx). subst jy jx.
  unfold getitem2, getitem. rewrite length_insert.
  destruct (np_index (length g) y') as [|jy'] eqn:Ejy'; [reflexivity|].
  apply np_index_inr in Ejy' as [_ Ejy']. specialize (Ejy' Hy'). subst jy'.
  cbn [bind].
  destruct (decide (Z.to_nat y = Z.to_nat y')) as [Ey|Ey].
  - rewrite <- Ey, list_lookup_insert_eq, Hg by exact Hjy1. cbn [bind ret].
    rewrite length_insert.
    destruct (np_index (length row) x') as [|jx'] eqn:Ejx'; [reflexivity|].
    apply np_index_inr in Ejx' as [_ Ejx']. specialize (Ejx' Hx'). subst jx'.
    cbn [bind]. rewrite list_lookup_insert_ne; [reflexivity|].
    intros Ex. apply Hne. f_equal; lia.
  - rewrite list_lookup_insert_ne by exact Ey. reflexivity.
Qed.

Lemma fit_column_same (len : nat) (r : list num) :
  length r = len → fit_column len r = inr r.
Proof.
  intros E. unfold fit_column. rewrite (proj2 (Nat.eqb_eq _ _) E). reflexivity.
Qed.

Lemma setitem2_shape {A : Type} (g g' : list (list A)) (y x : Z) (v : A) :
  setitem2 g y x v = inr g' →
  length g' = length g ∧
  ∀ n, Forall (fun row => length row = n) g →
       Forall (fun row => length row = n) g'.
Proof.
  unfold setitem2. intros E.
  apply bind_inr in E as (row & Hrow & E).
  apply bind_inr in E as (row' & Hrow' & E).
  pose proof (setitem_length _ _ _ _ Hrow') as Hl'.
  pose proof (setitem_length _ _ _ _ E) as Hl.
  split; [exact Hl|]. intros n Hn.
  unfold setitem in E. apply bind_inr in E as (j & _ & E). injection E as <-.
  apply Forall_insert; [exact Hn|].
  unfold getitem in Hrow. apply bind_inr in Hrow as (i & _ & Hrow).
  destruct (g !! i) as [r0|] eqn:Ei; [|discriminate]. injection Hrow as ->.
  rewrite Forall_forall in Hn. rewrite Hl'. apply Hn.
  apply list_elem_of_lookup. eauto.
Qed.

(** The column stored for an outlet is found again at that outlet's place;
    the shape of the state array does not change. *)
Lemma store_state_column (shp : shape) (i : nat) (k : key) (r : list num)
    (s s' : state num) :
  store_state i k r s = inr s' →
  length r = state_len s → fits shp s →
  state_column s' i k = inr r ∧ state_len s' = state_len s ∧ fits shp s'.
Proof.
  destruct s as [len cols|len g]; cbn [store_state state_len];
    intros E Hlen Hfit.
  - destruct (i <? length cols)%nat eqn:Ei; [|discriminate].
    apply Nat.ltb_lt in Ei.
    rewrite fit_column_same in E by exact Hlen. cbn in E.
    injection E as <-. cbn [state_column state_len].
    split; [|split; [reflexivity|]].
    + apply getitem_nat. apply list_lookup_insert_eq. exact Ei.
    + destruct shp; cbn in *; [|exact Hfit]. rewrite length_insert. exact Hfit.
  - apply bind_inr in E as (old & _ & E).
    rewrite fit_column_same in E by exact Hlen. cbn [bind] in E.
    apply bind_inr in E as (g' & Hg' & E). injection E as <-.
    cbn [state_column state_len]. split; [|split; [reflexivity|]].
    + apply (getitem2_setitem2 _ _ _ _ _ Hg').
    + destruct shp as [n|ny nx]; [exact Hfit|]. cbn [fits] in Hfit |- *.
      destruct Hfit as [Hny Hnx].
      destruct (setitem2_shape _ _ _ _ _ Hg') as [Hl Hrows].
      split; [congruence|]. apply Hrows, Hnx.
Qed.

Lemma store_state_other (shp : shape) (i i' : nat) (k k' : key)
    (r : list num) (s s' : state num) :
  store_state i k r s = inr s' → fits shp s → apart shp i k i' k' →
  state_column s' i' k' = state_column s i' k'.
Proof.
  destruct s as [len cols|len g], shp as [n|ny nx];
    cbn [store_state apart fits]; intros E Hfit Hap; try contradiction.
  - destruct (i <? length cols)%nat eqn:Ei; [|discriminate].
    apply bind_inr in E as (c & _ & E). injection E as <-.
    cbn [state_column]. unfold getitem. rewrite length_insert.
    destruct (np_index (length cols) (Z.of_nat i')) as [|j] eqn:Ej; [reflexivity|].
    apply np_index_inr in Ej as [_ Ej]. rewrite Ej by lia. cbn [bind].
    rewrite Nat2Z.id, list_lookup_insert_ne by exact Hap. reflexivity.
  - apply bind_inr in E as (old & _ & E).
    apply bind_inr in E as (c & _ & E).
    apply bind_inr in E as (g' & Hg' & E). injection E as <-.
    cbn [state_column]. destruct k as [y x], k' as [y' x']. cbn in *.
    apply (getitem2_setitem2_ne _ _ _ _ _ _ _ Hg'); tauto.
Qed.

Lemma fits_new_state (len : nat) (shp : shape) : fits shp (new_state len shp).
Proof.
  destruct shp as [n|ny nx]; cbn; [apply length_replicate|].
  split; [apply length_replicate|].
  apply Forall_forall. intros row Hrow.
  apply elem_of_replicate in Hrow as [-> _]. apply length_replicate.
Qed.

Lemma state_len_new_state (len : nat) (shp : shape) :
  state_len (new_state len shp) = len.
Proof. destruct shp; reflexivity. Qed.

(** With rings of the length of the state array and outlets at distinct
    places, the loop leaves in the state array the final ring of every
    outlet it went through, and does not touch the other places. *)
Lemma convolve_loop_state (flux : list (list num)) (shp : shape)
    (pts : point_dict num) :
  ∀ (i : nat) (out : flow num) (s : state num) (pts' : point_dict num)
    (out' : flow num) (st' : option (state num)),
    convolve_loop flux i pts out (Some s) = (pts', inr (out', st')) →
    ring_ok (state_len s) pts → fits shp s → placed shp pts →
    ∃ s', st' = Some s' ∧ state_len s' = state_len s ∧ fits shp s' ∧
      (∀ j kd, pts' !! j = Some kd →
         ∃ r, d_ring (snd kd) = Some r ∧
              state_column s' (i + j) (fst kd) = inr r) ∧
      (∀ i' k',
         (∀ j kd, pts !! j = Some kd → apart shp (i + j) (fst kd) i' k') →
         state_column s' i' k' = state_column s i' k').
Proof.
  induction pts as [|[k d] pts IH]; intros i out s pts' out' st' E Hok Hfit Hpl.
  - cbn in E. injection E as <- <- <-. exists s.
    split; [reflexivity|]. split; [reflexivity|]. split; [exact Hfit|].
    split; [|reflexivity]. intros j kd Hj. destruct j; discriminate Hj.
  - cbn [convolve_loop] in E.
    destruct (convolve_point flux i k d out (Some s)) as [d1 [e|[o1 s1]]] eqn:Ep;
      [discriminate|].
    destruct (convolve_loop flux (S i) pts o1 s1) as [rest r] eqn:El.
    injection E as <- ->.
    apply convolve_point_inr in Ep as (r0 & r1 & Hr0 & -> & Hlen & (s1' & -> & Hst)).
    apply Forall_cons in Hok as [(u & r2 & Hu & HuL & Hr2 & Hr2L) Hok].
    cbn [snd] in *. assert (r2 = r0) as -> by congruence.
    destruct (store_state_column shp _ _ _ _ _ Hst ltac:(lia) Hfit)
      as (Hcol & Hl1 & Hfit1).
    assert (Hpl' : placed shp pts).
    { destruct shp; [exact I|]. cbn in Hpl |- *. destruct Hpl as [Hnd Hnn].
      apply NoDup_cons in Hnd as [_ Hnd]. apply Forall_cons in Hnn as [_ Hnn].
      auto. }
    assert (Hhead : ∀ j kd, pts !! j = Some kd →
                      apart shp (S i + j) (fst kd) i k).
    { intros j kd Hj. destruct shp; cbn in Hpl |- *; [lia|].
      destruct Hpl as [Hnd Hnn].
      apply NoDup_cons in Hnd as [Hk _]. apply Forall_cons in Hnn as [Hk0 Hnn].
      rewrite Forall_forall in Hnn.
      assert (Hin : kd ∈ pts) by (apply list_elem_of_lookup; eauto).
      specialize (Hnn _ Hin). cbn in *.
      split; [|tauto]. intros Ek. apply Hk. rewrite <- Ek.
      apply list_elem_of_fmap. exists kd. auto. }
    rewrite <- Hl1 in Hok.
    destruct (IH _ _ _ _ _ _ El Hok Hfit1 Hpl')
      as (s' & -> & Hl' & Hfit' & Hcols & Hkeep).
    exists s'. split; [reflexivity|]. split; [congruence|]. split; [exact Hfit'|].
    split.
    + intros [|j] kd Hj; cbn in Hj.
      * injection Hj as <-. cbn [fst snd]. exists r1. split; [reflexivity|].
        rewrite Nat.add_0_r, <- Hcol. apply Hkeep.
        intros j kd Hkd. apply Hhead. exact Hkd.
      * replace (i + S j)%nat with (S i + j)%nat by lia. apply Hcols, Hj.
    + intros i' k' Hap. rewrite Hkeep.
      * apply (store_state_other shp _ _ _ _ _ _ _ Hst Hfit).
        specialize (Hap 0%nat (k, d) eq_refl). rewrite Nat.add_0_r in Hap.
        exact Hap.
      * intros j kd Hj. specialize (Hap (S j) kd Hj).
        replace (i + S j)%nat with (S i + j)%nat in Hap by lia. exact Hap.
Qed.

End StateFacts.

(** ** Ordered dictionaries and the restore of the rings *)

Section RestoreFacts.
Context {num : Type} `{Scalar num}.

Lemma od_get_app {V : Type} (k : key) (v : V) (m1 m2 : list (key * V)) :
  k ∉ map fst m1 → od_get k (m1 ++ (k, v) :: m2) = inr v.
Proof.
  induction m1 as [|[k' v'] m1 IH]; cbn; intros Hk.
  - rewrite decide_True by reflexivity. reflexivity.
  - apply not_elem_of_cons in Hk as [Hne Hk].
    rewrite decide_False by exact Hne. apply IH, Hk.
Qed.

Lemma od_set_app {V : Type} (k : key) (v v' : V) (m1 m2 : list (key * V)) :
  k ∉ map fst m1 →
  od_set k v' (m1 ++ (k, v) :: m2) = m1 ++ (k, v') :: m2.
Proof.
  induction m1 as [|[k1 v1] m1 IH]; cbn; intros Hk.
  - rewrite decide_True by reflexivity. reflexivity.
  - apply not_elem_of_cons in Hk as [Hne Hk].
    rewrite decide_False by exact Hne. f_equal. apply IH, Hk.
Qed.

Lemma od_set_keys {V : Type} (k : key) (v : V) (m : list (key * V)) :
  map fst (od_set k v m)
  = if decide (k ∈ map fst m) then map fst m else map fst m ++ [k].
Proof.
  induction m as [|[k' v'] m IH]; cbn.
  - rewrite decide_False by apply not_elem_of_nil. reflexivity.
  - destruct (decide (k = k')) as [->|Hne].
    + rewrite decide_True by apply list_elem_of_here. reflexivity.
    + cbn. rewrite IH. destruct (decide (k ∈ map fst m)) as [Hin|Hnin].
      * rewrite decide_True by (apply list_elem_of_further, Hin). reflexivity.
      * rewrite decide_False; [reflexivity|].
        intros Hin. apply elem_of_cons in Hin as [?|?]; contradiction.
Qed.

Lemma od_set_NoDup {V : Type} (k : key) (v : V) (m : list (key * V)) :
  NoDup (map fst m) → NoDup (map fst (od_set k v m)).
Proof.
  intros Hnd. rewrite od_set_keys. destruct (decide (k ∈ map fst m)); [exact Hnd|].
  apply NoDup_app. split; [exact Hnd|]. split.
  - intros k' Hk' Hin. apply list_elem_of_singleton in Hin. congruence.
  - apply NoDup_singleton.
Qed.

Lemma od_set_Forall {V : Type} (P : key * V → Prop) (k : key) (v : V)
    (m : list (key * V)) :
  P (k, v) → Forall P m → Forall P (od_set k v m).
Proof.
  intros Hkv. induction 1 as [|[k' v'] m Hp Hm IH]; cbn.
  - apply Forall_cons. auto.
  - destruct (decide (k = k')); apply Forall_cons; auto.
Qed.

Lemma skeleton_od_set (k : key) (d : point num) (pd : point_dict num) :
  skeleton (od_set k d pd) = od_set k (clear_ring d) (skeleton pd).
Proof.
  induction pd as [|[k' d'] pd IH]; cbn; [reflexivity|].
  destruct (decide (k = k')); cbn; [reflexivity|]. f_equal. exact IH.
Qed.

Lemma restore_ring_app (k : key) (d : point num) (r : list num)
    (done rest : point_dict num) :
  k ∉ map fst done →
  restore_ring k r (done ++ (k, d) :: rest)
  = inr (done ++ (k, set_ring d r) :: rest).
Proof.
  intros Hk. unfold restore_ring.
  rewrite od_get_app by exact Hk. cbn [bind].
  rewrite od_set_app by exact Hk. reflexivity.
Qed.

Lemma restore_step (k : key) (d : point num) (r : list num)
    (done todo : point_dict num) :
  NoDup (map fst (done ++ (k, d) :: todo)) → d_ring d = Some r →
  restore_ring k r (done ++ skeleton ((k, d) :: todo))
  = inr ((done ++ [(k, d)]) ++ skeleton todo).
Proof.
  intros Hnd Hr. rewrite skeleton_cons, restore_ring_app.
  - rewrite (set_ring_clear_ring d d r) by auto.
    rewrite <- app_assoc. reflexivity.
  - rewrite map_app in Hnd. apply NoDup_app in Hnd as (_ & Hnd & _).
    intros Hin. apply (Hnd _ Hin). cbn. apply list_elem_of_here.
Qed.

(** Grid state: when the column at the cell of each outlet is that
    outlet's ring, the restore rebuilds the registry. *)
Lemma restore_grid_spec (g : list (list (list num))) (todo : point_dict num) :
  ∀ done : point_dict num,
    NoDup (map fst (done ++ todo)) →
    Forall (fun kd => ∃ r, d_ring (snd kd) = Some r ∧
                           getitem2 g (fst (fst kd)) (snd (fst kd)) = inr r) todo →
    restore_grid g (map fst todo) (done ++ skeleton todo) = inr (done ++ todo).
Proof.
  induction todo as [|[k d] todo IH]; intros done Hnd Hcols.
  - cbn. reflexivity.
  - apply Forall_cons in Hcols as [(r & Hr & Hg) Hcols]. cbn in Hr, Hg.
    cbn [map fst restore_grid]. rewrite Hg. cbn [bind].
    rewrite (restore_step _ _ _ _ _ Hnd Hr). cbn [bind].
    rewrite IH.
    + rewrite <- app_assoc. reflexivity.
    + rewrite <- app_assoc. exact Hnd.
    + exact Hcols.
Qed.

(** Array state: when column number j is the ring of outlet number j and
    the file lists the outlets in registry order, the restore rebuilds the
    registry. *)
Lemma restore_array_spec (xs ys : list Z) (todo : point_dict num) :
  ∀ (done : point_dict num) (cols : list (list num)),
    NoDup (map fst (done ++ todo)) →
    length cols = length todo →
    (∀ j kd, todo !! j = Some kd →
       d_ring (snd kd) = cols !! j ∧
       ys !! (length done + j)%nat = Some (fst (fst kd)) ∧
       xs !! (length done + j)%nat = Some (snd (fst kd))) →
    restore_array (length done) cols xs ys (done ++ skeleton todo)
    = inr (done ++ todo).
Proof.
  induction todo as [|[k d] todo IH]; intros done cols Hnd Hlen Hcols.
  - destruct cols; [|discriminate]. cbn. reflexivity.
  - destruct cols as [|r cols]; [discriminate|].
    destruct (Hcols 0%nat (k, d) eq_refl) as (Hr & Hy & Hx).
    rewrite Nat.add_0_r in Hy, Hx. cbn in Hr, Hy, Hx.
    cbn [restore_array].
    rewrite (getitem_nat _ _ _ Hy), (getitem_nat _ _ _ Hx). cbn [bind].
    replace (k.1, k.2) with k by (destruct k; reflexivity).
    rewrite (restore_step _ _ _ _ _ Hnd Hr). cbn [bind].
    replace (S (length done)) with (length (done ++ [(k, d)]))
      by (rewrite length_app; cbn; lia).
    rewrite IH.
    + rewrite <- app_assoc. reflexivity.
    + rewrite <- app_assoc. exact Hnd.
    + cbn in Hlen. lia.
    + intros j kd Hj. specialize (Hcols (S j) kd Hj).
      rewrite length_app. cbn [length].
      replace (length done + 1 + j)%nat with (length done + S j)%nat by lia.
      exact Hcols.
Qed.

End RestoreFacts.

(** ** Registration *)

Section RegistrationFacts.
Context {num : Type} `{Scalar num}.

Lemma mul_rows_length (m m' : list (list num)) (v : list num) :
  mul_rows m v = inr m' → length m' = length m.
Proof. apply map_res_length. Qed.

Lemma scaled_uh_length (f : uh_file num) (area : list (list num))
    (u : string) (rho : num) (m : list (list num)) :
  scaled_uh f area u rho = inr (Some m) →
  length m = length (unit_hydrograph f).
Proof.
  unfold scaled_uh. destruct (String.eqb u "kg/m2*s").
  - intros E. apply bind_inr in E as (m1 & H1 & E).
    apply bind_inr in E as (a & _ & E).
    apply bind_inr in E as (m2 & H2 & E).
    apply bind_inr in E as (a0 & _ & E). injection E as <-.
    unfold map_matrix. rewrite !length_map.
    rewrite (mul_rows_length _ _ _ H2). apply (mul_rows_length _ _ _ H1).
  - destruct (String.eqb u "m3/s"); [|discriminate].
    intros E. apply bind_inr in E as (m1 & H1 & E).
    apply bind_inr in E as (a & _ & E).
    apply bind_inr in E as (m2 & H2 & E). injection E as <-.
    rewrite (mul_rows_length _ _ _ H2). apply (mul_rows_length _ _ _ H1).
Qed.

(** A cold registration gives the outlet a ring of zeros as long as its
    unit hydrograph; the warm registration of the same file gives the same
    outlet without a ring. *)
Lemma read_point_cold (f : uh_file num) (area : list (list num))
    (od : out_dict num) (rho : num) (d : point num) :
  read_point f area od rho true = inr d →
  (∃ m, d_uh d = Some m ∧ length m = length (unit_hydrograph f) ∧
        d_ring d = Some (zeros (length m))) ∧
  d_y d = outlet_y f ∧ d_x d = outlet_x f ∧
  read_point f area od rho false = inr (clear_ring d).
Proof.
  unfold read_point. intros E.
  apply bind_inr in E as (u & Hu & E). rewrite Hu. cbn [bind].
  apply bind_inr in E as (m & Hm & E). rewrite Hm. cbn [bind].
  destruct m as [m|]; [|discriminate]. cbn [bind ret] in E |- *.
  injection E as <-. cbn.
  split; [|auto]. exists m. split; [reflexivity|].
  split; [|reflexivity]. apply (scaled_uh_length _ _ _ _ _ Hm).
Qed.

Lemma read_points_cold (area : list (list num)) (od : out_dict num)
    (rho : num) (L : nat) (fs : list (uh_file num)) :
  Forall (fun f => length (unit_hydrograph f) = L) fs →
  ∀ acc pd : point_dict num,
    read_points fs area od rho true acc = inr pd →
    registry_ok L acc →
    registry_ok L pd ∧
    read_points fs area od rho false (skeleton acc) = inr (skeleton pd).
Proof.
  induction 1 as [|f fs Hf _ IH]; intros acc pd E Hacc.
  - cbn in E |- *. injection E as <-. auto.
  - cbn [read_points] in E |- *.
    apply bind_inr in E as (d & Hd & E).
    apply read_point_cold in Hd as ((m & Hm & HmL & Hr) & Hy & Hx & Hw).
    rewrite Hw. cbn [bind].
    change (d_y (clear_ring d)) with (d_y d).
    change (d_x (clear_ring d)) with (d_x d).
    rewrite <- skeleton_od_set. apply (IH _ _ E).
    destruct Hacc as (Hnd & Hk & Hro). split; [|split].
    + apply od_set_NoDup, Hnd.
    + apply od_set_Forall; [reflexivity|exact Hk].
    + apply od_set_Forall; [|exact Hro]. cbn.
      exists m, (zeros (length m)).
      split; [exact Hm|]. split; [lia|]. split; [exact Hr|].
      unfold zeros. rewrite length_replicate. lia.
Qed.

Lemma set_outlets_skeleton (od : out_dict num) (pd pd' : point_dict num) :
  skeleton pd' = skeleton pd → set_outlets od pd' = set_outlets od pd.
Proof.
  intros E. unfold set_outlets.
  assert (Hm : ∀ (A : Type) (g : point num → A),
             (∀ d, g (clear_ring d) = g d) →
             map (fun kd => g (snd kd)) pd' = map (fun kd => g (snd kd)) pd).
  { intros A g Hg.
    transitivity (map (fun kd => g (snd kd)) (skeleton pd')).
    - unfold skeleton. rewrite map_map. apply map_ext. intros [k d]. cbn. auto.
    - rewrite E. unfold skeleton. rewrite map_map. apply map_ext.
      intros [k d]. cbn. auto. }
  rewrite (Hm _ d_lat), (Hm _ d_lon), (Hm _ d_x), (Hm _ d_y) by reflexivity.
  reflexivity.
Qed.

End RegistrationFacts.

(** ** Restart *)

Section Restart.
Context {num : Type} `{Scalar num}.

Lemma convolve_skeleton (pd pd' : point_dict num) (td td' : time_dict num)
    (flux : list (list num)) (rs : bool) (shp : shape)
    (o : flow num * option (state num)) (L : nat) :
  convolve pd td flux rs shp = (pd', td', inr o) →
  skeleton pd' = skeleton pd ∧ (ring_ok L pd → ring_ok L pd').
Proof.
  unfold convolve. destruct pd as [|[k0 d0] pd]; [discriminate|].
  destruct (convolve_first rs shp d0 td) as [td1 [e|st]]; [discriminate|].
  destruct (convolve_loop flux 0 ((k0, d0) :: pd) (new_flow shp) st)
    as [pd1 r] eqn:El.
  intros E. injection E as <- <- ->. destruct o as [out st'].
  apply (convolve_loop_skeleton _ _ _ _ _ _ _ _ L El).
Qed.

Lemma convolve_seq_skeleton (shp : shape) (L : nat)
    (steps : list (list num * list (list num) * bool)) :
  ∀ (pd pd' : point_dict num) (td td' : time_dict num)
    (outs : list (flow num * option (state num))),
    convolve_seq pd td steps shp = (pd', td', inr outs) →
    skeleton pd' = skeleton pd ∧ (ring_ok L pd → ring_ok L pd').
Proof.
  induction steps as [|[[ts flux] rs] steps IH]; intros pd pd' td td' outs E.
  - cbn in E. injection E as <- <- <-. auto.
  - cbn [convolve_seq] in E.
    destruct (convolve pd (set_time_step td ts) flux rs shp)
      as [[pd1 td1] [e|o]] eqn:Ec;
      [discriminate|].
    destruct (convolve_seq pd1 td1 steps shp) as [[pd2 td2] [e|os]] eqn:Es;
      [discriminate|].
    cbn in E. injection E as <- <- <-.
    destruct (convolve_skeleton _ _ _ _ _ _ _ _ L Ec) as [Hs1 Hr1].
    destruct (IH _ _ _ _ _ Es) as [Hs2 Hr2].
    split; [congruence|auto].
Qed.

(** A run over [s1 ++ s2] is the run over [s1] followed by the run over
    [s2] from where the first one stopped. *)
Lemma convolve_seq_app (shp : shape)
    (s1 s2 : list (list num * list (list num) * bool)) :
  ∀ (pd : point_dict num) (td : time_dict num),
    convolve_seq pd td (s1 ++ s2) shp
    = match convolve_seq pd td s1 shp with
      | (pd1, td1, inl e) => (pd1, td1, inl e)
      | (pd1, td1, inr o1) =>
          let '(pd2, td2, r) := convolve_seq pd1 td1 s2 shp in
          (pd2, td2, let* os := r in ret (o1 ++ os))
      end.
Proof.
  induction s1 as [|[[ts flux] rs] s1 IH]; intros pd td.
  - cbn. destruct (convolve_seq pd td s2 shp) as [[pd2 td2] [e|os]]; reflexivity.
  - cbn [app convolve_seq].
    destruct (convolve pd (set_time_step td ts) flux rs shp)
      as [[pd1 td1] [e|o]]; [reflexivity|].
    rewrite IH.
    destruct (convolve_seq pd1 td1 s1 shp) as [[pd2 td2] [e|o1]]; [reflexivity|].
    destruct (convolve_seq pd2 td2 s2 shp) as [[pd3 td3] [e|os]]; reflexivity.
Qed.

(** A time step that returns the state: the state array holds, at the
    place of every outlet, the ring that outlet has after the step. *)
Lemma convolve_capture (pd pd' : point_dict num) (td td' : time_dict num)
    (flux : list (list num)) (shp : shape) (out : flow num)
    (ost : option (state num)) (L : nat) :
  convolve pd td flux true shp = (pd', td', inr (out, ost)) →
  ring_ok L pd → placed shp pd →
  ∃ st, ost = Some st ∧ fits shp st ∧
    ∀ j kd, pd' !! j = Some kd →
      ∃ r, d_ring (snd kd) = Some r ∧ state_column st j (fst kd) = inr r.
Proof.
  unfold convolve. destruct pd as [|[k0 d0] pd]; [discriminate|].
  intros E Hok Hpl.
  assert (Hok0 := Hok). apply Forall_cons in Hok0 as [(u & r & Hu & HuL & _) _].
  cbn [snd] in Hu. unfold convolve_first in E. rewrite Hu in E.
  destruct (time_step td) as [ts|]; [|discriminate].
  destruct (map2_bc add (d_time d0) ts) as [e|t]; [discriminate|].
  cbn [ret] in E.
  destruct (convolve_loop flux 0 ((k0, d0) :: pd) (new_flow shp)
              (Some (new_state (length u) shp))) as [pd1 r1] eqn:El.
  injection E as <- <- ->.
  apply (convolve_loop_state flux shp) in El
    as (s' & -> & _ & Hfit & Hcols & _).
  - exists s'. auto.
  - rewrite state_len_new_state, HuL. exact Hok.
  - apply fits_new_state.
  - exact Hpl.
Qed.

Lemma nc_put1_inr {A : Type} (n : nat) (l l' : list A) :
  nc_put1 n l = inr l' → l' = l ∧ length l = n.
Proof.
  unfold nc_put1. destruct (length l =? n)%nat eqn:E; [|discriminate].
  intros [= <-]. split; [reflexivity|]. apply Nat.eqb_eq, E.
Qed.

Lemma nc_put2_fits {A : Type} (ny nx : nat) (g : list (list A)) :
  length g = ny → Forall (fun row => length row = nx) g →
  nc_put2 ny nx g = inr g.
Proof.
  intros Hny Hnx. unfold nc_put2.
  rewrite (proj2 (Nat.eqb_eq _ _) Hny). cbn [andb].
  replace (forallb (fun row => (length row =? nx)%nat) g) with true;
    [reflexivity|].
  symmetry. apply forallb_forall. intros row Hrow. apply Nat.eqb_eq.
  rewrite Forall_forall in Hnx. apply Hnx. apply list_elem_of_In, Hrow.
Qed.

Lemma put_streamflow_fits (st : state num) (shp : shape) :
  fits shp st → put_streamflow (Data_state st) shp = inr st.
Proof.
  destruct shp as [n|ny nx], st as [len cols|len g]; cbn [fits];
    try contradiction.
  - intros E. cbn [put_streamflow]. rewrite (proj2 (Nat.eqb_eq _ _) E).
    reflexivity.
  - intros [Hny Hnx]. cbn [put_streamflow].
    rewrite (nc_put2_fits _ _ _ Hny Hnx). reflexivity.
Qed.

(** A state of the shape of the file is written as it is. *)
Lemma write_output_state (st : state num) (od : out_dict num)
    (td : time_dict num) (shp : shape) (f : nc_file num) :
  write_output (Data_state st) od td shp = inr f →
  fits shp st →
  nc_streamflow f = st ∧
  match shp with
  | Shape1 _ => nc_xi f = Some (outlet_xs od) ∧ nc_yi f = Some (outlet_ys od)
  | Shape2 _ _ => True
  end.
Proof.
  unfold write_output. intros E Hfit.
  rewrite (put_streamflow_fits _ _ Hfit) in E.
  apply bind_inr in E as (tu & _ & E).
  apply bind_inr in E as (tc & _ & E).
  apply bind_inr in E as (tl & _ & E).
  apply bind_inr in E as (t & _ & E).
  destruct shp.
  - apply bind_inr in E as (xs & Hxs & E).
    apply bind_inr in E as (ys & Hys & E).
    apply bind_inr in E as (las & _ & E).
    apply bind_inr in E as (los & _ & E).
    apply bind_inr in E as (u & _ & E). cbn [bind ret] in E.
    injection E as <-. cbn.
    apply nc_put1_inr in Hxs as [-> _]. apply nc_put1_inr in Hys as [-> _].
    auto.
  - apply bind_inr in E as (la0 & _ & E).
    apply bind_inr in E as (la & _ & E).
    apply bind_inr in E as (lo0 & _ & E).
    apply bind_inr in E as (lo & _ & E).
    apply bind_inr in E as (u & _ & E). cbn [bind ret] in E.
    injection E as <-. cbn. auto.
Qed.

(** The restore of a state file written from a registry gives that
    registry back. *)
Lemma restore_captured (pd : point_dict num) (od : out_dict num)
    (shp : shape) (st : state num) (f : nc_file num) :
  NoDup (map fst pd) →
  Forall (fun kd => fst kd = (d_y (snd kd), d_x (snd kd))) pd →
  layout_ok shp pd → fits shp st →
  (∀ j kd, pd !! j = Some kd →
     ∃ r, d_ring (snd kd) = Some r ∧ state_column st j (fst kd) = inr r) →
  nc_streamflow f = st →
  match shp with
  | Shape1 _ =>
      nc_xi f = Some (outlet_xs (set_outlets od pd)) ∧
      nc_yi f = Some (outlet_ys (set_outlets od pd))
  | Shape2 _ _ => True
  end →
  restore f (skeleton pd) = inr pd.
Proof.
  intros Hnd Hkeys Hlay Hfit Hcols Hsf Hxy. unfold restore. rewrite Hsf.
  destruct shp as [n|ny nx], st as [len cols|len g]; cbn in Hfit;
    try contradiction.
  - destruct Hxy as [Hx Hy]. cbn in Hlay.
    assert (Hspec : restore_array (length (@nil (key * point num))) cols
                      (outlet_xs (set_outlets od pd))
                      (outlet_ys (set_outlets od pd)) ([] ++ skeleton pd)
                    = inr ([] ++ pd)).
    { apply restore_array_spec.
      - exact Hnd.
      - lia.
      - intros j [k d] Hj. destruct (Hcols _ _ Hj) as (r & Hr & Hc).
        cbn [state_column fst snd] in Hc, Hr |- *.
        apply getitem_inr in Hc as (j' & Hj' & Hc).
        apply np_index_inr in Hj' as [_ Hj']. rewrite Hj', Nat2Z.id in Hc by lia.
        split; [congruence|]. cbn [length Nat.add set_outlets outlet_xs outlet_ys].
        rewrite !list_lookup_fmap, Hj. cbn.
        rewrite Forall_forall in Hkeys.
        assert (Hin : (k, d) ∈ pd) by (apply list_elem_of_lookup; eauto).
        specialize (Hkeys _ Hin). cbn in Hkeys. subst k. auto. }
    cbn [length app] in Hspec.
    destruct cols as [|c cols].
    + cbn in Hfit. destruct pd; [reflexivity|]. cbn in Hlay. lia.
    + rewrite Hx, Hy. cbn [bind ret]. exact Hspec.
  - rewrite skeleton_keys.
    apply (restore_grid_spec g pd []); [exact Hnd|].
    apply Forall_forall. intros [k d] Hin.
    apply list_elem_of_lookup in Hin as [j Hj].
    destruct (Hcols _ _ Hj) as (r & Hr & Hc). exists r. auto.
Qed.

Lemma keys_ok_skeleton (pd pd' : point_dict num) :
  skeleton pd' = skeleton pd →
  Forall (fun kd => fst kd = (d_y (snd kd), d_x (snd kd))) pd →
  Forall (fun kd => fst kd = (d_y (snd kd), d_x (snd kd))) pd'.
Proof.
  intros E Hk.
  assert (Hs : ∀ p : point_dict num,
             Forall (fun kd => fst kd = (d_y (snd kd), d_x (snd kd))) p
             ↔ Forall (fun kd => fst kd = (d_y (snd kd), d_x (snd kd)))
                 (skeleton p)).
  { intros p. unfold skeleton. rewrite Forall_fmap. apply Forall_proper; [|reflexivity].
    intros [k d]. reflexivity. }
  apply (proj2 (Hs pd')). rewrite E. apply (proj1 (Hs pd)), Hk.
Qed.

Lemma layout_ok_skeleton (shp : shape) (pd pd' : point_dict num) :
  skeleton pd' = skeleton pd → layout_ok shp pd → layout_ok shp pd'.
Proof.
  intros E. assert (Ek : map fst pd' = map fst pd)
    by (rewrite <- (skeleton_keys pd'), E; apply skeleton_keys).
  destruct shp; cbn.
  - intros <-. rewrite <- (length_map fst pd'), Ek. apply length_map.
  - assert (Hm : ∀ p : point_dict num,
               Forall (fun kd => 0 ≤ fst (fst kd) ∧ 0 ≤ snd (fst kd)) p
               ↔ Forall (fun k : key => 0 ≤ fst k ∧ 0 ≤ snd k) (map fst p)).
    { induction p as [|kd p IH]; cbn.
      - split; intros _; apply Forall_nil_2.
      - rewrite !Forall_cons, IH. reflexivity. }
    intros Hp. apply (proj2 (Hm pd')). rewrite Ek. apply (proj1 (Hm pd)), Hp.
Qed.

Lemma convolve_time_dict (pd : point_dict num) (td td' : time_dict num)
    (flux : list (list num)) (rs : bool) (shp : shape) :
  time_step td = time_step td' →
  fst (fst (convolve pd td flux rs shp)) = fst (fst (convolve pd td' flux rs shp)) ∧
  snd (convolve pd td flux rs shp) = snd (convolve pd td' flux rs shp).
Proof.
  intros Et. unfold convolve. destruct pd as [|[k0 d0] pd]; [auto|].
  unfold convolve_first. rewrite <- Et.
  destruct rs.
  - destruct (d_uh d0) as [u|]; [|auto].
    destruct (time_step td) as [ts|]; [|auto].
    destruct (map2_bc add (d_time d0) ts) as [e|t]; [auto|].
    cbn [ret].
    destruct (convolve_loop flux 0 ((k0, d0) :: pd) (new_flow shp)
                (Some (new_state (length u) shp))) as [pd1 r1]. auto.
  - cbn [ret].
    destruct (convolve_loop flux 0 ((k0, d0) :: pd) (new_flow shp) None)
      as [pd1 r1]. auto.
Qed.

(** The registry and the results of a run do not depend on the time
    dictionary it starts from: every step brings its own time stamp. *)
Lemma convolve_seq_time_dict (shp : shape)
    (steps : list (list num * list (list num) * bool)) :
  ∀ (pd : point_dict num) (td td' : time_dict num),
    fst (fst (convolve_seq pd td steps shp))
    = fst (fst (convolve_seq pd td' steps shp)) ∧
    snd (convolve_seq pd td steps shp) = snd (convolve_seq pd td' steps shp).
Proof.
  induction steps as [|[[ts flux] rs] steps IH]; intros pd td td'.
  - cbn. auto.
  - cbn [convolve_seq].
    destruct (convolve_time_dict pd (set_time_step td ts) (set_time_step td' ts)
                flux rs shp eq_refl) as [Hp Hr].
    destruct (convolve pd (set_time_step td ts) flux rs shp)
      as [[pd1 td1] r1].
    destruct (convolve pd (set_time_step td' ts) flux rs shp)
      as [[pd2 td2] r2].
    cbn in Hp, Hr. subst pd2 r2. destruct r1 as [e|o]; [auto|].
    specialize (IH pd1 td1 td2).
    destruct (convolve_seq pd1 td1 steps shp) as [[pd3 td3] r3].
    destruct (convolve_seq pd1 td2 steps shp) as [[pd4 td4] r4].
    cbn in IH |- *. destruct IH as [-> ->]. auto.
Qed.

(** Asking for the state changes neither the rings nor the emitted
    values of a time step. *)
Lemma convolve_point_no_state (flux : list (list num)) (i : nat) (pt : key)
    (d d' : point num) (out out' : flow num) (st st' : option (state num)) :
  convolve_point flux i pt d out st = (d', inr (out', st')) →
  convolve_point flux i pt d out None = (d', inr (out', None)).
Proof.
  unfold convolve_point.
  destruct (d_ring d) as [r|]; [|discriminate].
  destruct (contribution flux d) as [|c]; [discriminate|].
  destruct (iadd r c) as [|r1]; [discriminate|].
  destruct (let* v := getitem r1 0 in store_flow i (set_ring d r1) v out)
    as [|o1]; [discriminate|].
  destruct (setitem r1 (d_now (set_ring d r1)) zero) as [|r2]; [discriminate|].
  destruct (shift r2 1) as [|r3]; [discriminate|].
  destruct st as [s|].
  - destruct (store_state i pt r3 s) as [|s']; [discriminate|].
    intros E. injection E as <- <- _. reflexivity.
  - intros E. injection E as <- <- _. reflexivity.
Qed.

Lemma convolve_loop_no_state (flux : list (list num)) (pts : point_dict num) :
  ∀ (i : nat) (out : flow num) (st : option (state num))
    (pts' : point_dict num) (out' : flow num) (st' : option (state num)),
    convolve_loop flux i pts out st = (pts', inr (out', st')) →
    convolve_loop flux i pts out None = (pts', inr (out', None)).
Proof.
  induction pts as [|[k d] pts IH]; intros i out st pts' out' st' E.
  - cbn in E |- *. injection E as <- <- _. reflexivity.
  - cbn [convolve_loop] in E |- *.
    destruct (convolve_point flux i k d out st) as [d1 [e|[o1 s1]]] eqn:Ep;
      [discriminate|].
    rewrite (convolve_point_no_state _ _ _ _ _ _ _ _ _ Ep).
    destruct (convolve_loop flux (S i) pts o1 s1) as [rest r] eqn:El.
    injection E as <- ->. rewrite (IH _ _ _ _ _ _ El). reflexivity.
Qed.

Lemma convolve_no_state (pd pd' : point_dict num) (td td' : time_dict num)
    (flux : list (list num)) (rs : bool) (shp : shape) (out : flow num)
    (ost : option (state num)) :
  convolve pd td flux rs shp = (pd', td', inr (out, ost)) →
  ∃ td'', convolve pd td flux false shp = (pd', td'', inr (out, None)).
Proof.
  unfold convolve. destruct pd as [|[k0 d0] pd]; [discriminate|].
  destruct (convolve_first rs shp d0 td) as [td1 [e|st]]; [discriminate|].
  destruct (convolve_loop flux 0 ((k0, d0) :: pd) (new_flow shp) st)
    as [pd1 r] eqn:El.
  intros E. injection E as <- <- ->.
  cbn [convolve_first ret].
  rewrite (convolve_loop_no_state _ _ _ _ _ _ _ _ El). eauto.
Qed.

(** A run that succeeds emits the same values, and ends with the same
    rings, when it is run again without ever asking for the state. *)
Lemma convolve_seq_no_state (shp : shape)
    (steps : list (list num * list (list num) * bool)) :
  ∀ (pd pd' : point_dict num) (td td' td2 : time_dict num)
    (outs : list (flow num * option (state num))),
    convolve_seq pd td steps shp = (pd', td', inr outs) →
    ∃ td'',
      convolve_seq pd td2 (plain_steps (map fst steps)) shp
      = (pd', td'', inr (map (fun o => (fst o, None)) outs)).
Proof.
  induction steps as [|[[ts flux] rs] steps IH];
    intros pd pd' td td' td2 outs E.
  - cbn in E |- *. injection E as <- _ <-. eauto.
  - cbn [convolve_seq map plain_steps fst snd] in E |- *.
    destruct (convolve pd (set_time_step td ts) flux rs shp)
      as [[pd1 td1] [e|[o os]]] eqn:Ec; [discriminate|].
    destruct (convolve_seq pd1 td1 steps shp) as [[pd3 td3] [e|outs']] eqn:Es;
      [discriminate|].
    cbn [bind ret] in E. injection E as <- _ <-.
    destruct (convolve_no_state _ _ _ _ _ _ _ _ _ Ec) as (td4 & Ec').
    destruct (convolve_time_dict pd (set_time_step td ts) (set_time_step td2 ts)
                flux false shp eq_refl) as [Hp Hr].
    rewrite Ec' in Hp, Hr.
    destruct (convolve pd (set_time_step td2 ts) flux false shp)
      as [[pd5 td5] r5].
    cbn in Hp, Hr. subst pd5 r5.
    destruct (IH _ _ _ _ td5 _ Es) as (td6 & E6).
    unfold plain_steps in E6. rewrite E6. cbn. eauto.
Qed.

End Restart.

(** C3, amended.  Take a registry built from unit hydrographs that all have
    the same number [L] of lags, in a layout that suits it (array layout:
    one entry per outlet; grid layout: outlet coordinates not negative).
    Run some time steps, run one more that returns the state, and write the
    state file.  A registry built afresh from the same unit hydrographs with
    that state file as initial state is the registry the interrupted run
    stopped with, and from it the remaining time steps give, whatever time
    dictionary the new run starts with, the results (emitted values and
    states of every outlet at every step, or the exception) that the
    uninterrupted run gives for them. *)
Theorem restart_equivalence {num : Type} `{Scalar num}
    (files : list (uh_file num)) (area : list (list num)) (od od0 : out_dict num)
    (c c0 : counts) (rho : num) (L : nat) (shp : shape)
    (pd0 pda pd1 : point_dict num) (td0 tda td1 : time_dict num)
    (steps1 : list (list num * list (list num) * bool))
    (outs1 : list (flow num * option (state num)))
    (ts : list num) (flux : list (list num)) (out : flow num)
    (st : state num) (f : nc_file num) :
  Forall (fun uf => length (unit_hydrograph uf) = L) files →
  make_point_dict files area od c rho None = inr (pd0, od0, c0) →
  layout_ok shp pd0 →
  convolve_seq pd0 td0 steps1 shp = (pda, tda, inr outs1) →
  convolve pda (set_time_step tda ts) flux true shp
    = (pd1, td1, inr (out, Some st)) →
  write_output (Data_state st) od0 td1 shp = inr f →
  make_point_dict files area od c rho (Some f) = inr (pd1, od0, c0) ∧
  ∀ (td' : time_dict num) (steps2 : list (list num * list (list num) * bool)),
    fst (fst (convolve_seq pd0 td0 (steps1 ++ (ts, flux, true) :: steps2) shp))
    = fst (fst (convolve_seq pd1 td' steps2 shp)) ∧
    snd (convolve_seq pd0 td0 (steps1 ++ (ts, flux, true) :: steps2) shp)
    = (let* os := snd (convolve_seq pd1 td' steps2 shp) in
       ret (outs1 ++ (out, Some st) :: os)) ∧
    ∀ outs2 : list (flow num * option (state num)),
      snd (convolve_seq pd1 td' steps2 shp) = inr outs2 →
      snd (convolve_seq pd0 td0
             (plain_steps (map fst (steps1 ++ (ts, flux, true) :: steps2))) shp)
      = inr (map (fun o => (fst o, None))
               (outs1 ++ (out, Some st) :: outs2)).
Proof.
  intros HL Hreg Hlay Hs1 Hc Hw.
  unfold make_point_dict in Hreg. cbn [bind] in Hreg.
  apply bind_inr in Hreg as (pd & Hpd & Hreg). cbn [bind ret] in Hreg.
  injection Hreg as -> <- <-.
  assert (Hinit : registry_ok L (@nil (key * point num))).
  { split; [apply NoDup_nil_2|]. split; apply Forall_nil_2. }
  destruct (read_points_cold area od rho L files HL [] pd0 Hpd Hinit)
    as ((Hnd & Hkeys & Hring) & Hwarm).
  destruct (convolve_seq_skeleton shp L steps1 _ _ _ _ _ Hs1) as [Hsa Hra].
  destruct (convolve_skeleton _ _ _ _ _ _ _ _ L Hc) as [Hs1' Hr1].
  assert (Hskel : skeleton pd1 = skeleton pd0) by congruence.
  assert (Hkeys_a : map fst pda = map fst pd0)
    by (rewrite <- (skeleton_keys pda), Hsa; apply skeleton_keys).
  assert (Hkeys_1 : map fst pd1 = map fst pd0)
    by (rewrite <- (skeleton_keys pd1), Hskel; apply skeleton_keys).
  assert (Hplaced : placed shp pda).
  { destruct shp; [exact I|]. split; [rewrite Hkeys_a; exact Hnd|].
    apply (layout_ok_skeleton (Shape2 ny nx) pd0 pda Hsa Hlay). }
  destruct (convolve_capture _ _ _ _ _ _ _ _ L Hc (Hra Hring) Hplaced)
    as (st' & Est & Hfit & Hcols).
  injection Est as <-.
  destruct (write_output_state _ _ _ _ _ Hw Hfit) as [Hsf Hxy].
  assert (Hrestore : restore f (skeleton pd0) = inr pd1).
  { rewrite <- Hskel. apply (restore_captured pd1 od shp st f).
    - rewrite Hkeys_1. exact Hnd.
    - apply (keys_ok_skeleton pd0 pd1 Hskel Hkeys).
    - apply (layout_ok_skeleton shp pd0 pd1 Hskel Hlay).
    - exact Hfit.
    - exact Hcols.
    - exact Hsf.
    - destruct shp; [|exact I].
      rewrite (set_outlets_skeleton od pd0 pd1 Hskel). exact Hxy. }
  split.
  - unfold make_point_dict. cbn [bind].
    change (@nil (key * point num)) with (skeleton (@nil (key * point num))) in Hwarm.
    cbn [skeleton map] in Hwarm. rewrite Hwarm. cbn [bind].
    rewrite Hrestore. cbn [bind ret].
    rewrite (set_outlets_skeleton od pd0 pd1 Hskel). reflexivity.
  - intros td' steps2.
    assert (Hfull : convolve_seq pd0 td0 (steps1 ++ (ts, flux, true) :: steps2) shp
                    = (let '(pd2, td2, r) := convolve_seq pd1 td1 steps2 shp in
                       (pd2, td2,
                        let* os := r in ret (outs1 ++ (out, Some st) :: os)))).
    { rewrite convolve_seq_app, Hs1. cbn [convolve_seq]. rewrite Hc.
      destruct (convolve_seq pd1 td1 steps2 shp) as [[pd2 td2] [e|os]];
        reflexivity. }
    destruct (convolve_seq_time_dict shp steps2 pd1 td1 td') as [Hp Hr].
    destruct (convolve_seq pd1 td1 steps2 shp) as [[pd2 td2] r2] eqn:E2.
    destruct (convolve_seq pd1 td' steps2 shp) as [[pd3 td3] r3].
    cbn in Hp, Hr. subst pd3 r3. rewrite Hfull. cbn [fst snd].
    split; [reflexivity|]. split; [reflexivity|].
    intros outs2 ->. cbn [bind ret] in Hfull.
    destruct (convolve_seq_no_state shp _ _ _ _ _ td0 _ Hfull) as (td'' & En).
    rewrite En. reflexivity.
Qed.


(** ** A time step that fails part-way *)

Section Failure.
Context {num : Type} `{Scalar num}.

Lemma convolve_loop_app (flux : list (list num)) (p1 p2 : point_dict num) :
  ∀ (i : nat) (out : flow num) (st : option (state num)),
    convolve_loop flux i (p1 ++ p2) out st
    = match convolve_loop flux i p1 out st with
      | (p1', inl e) => (p1' ++ p2, inl e)
      | (p1', inr (o, s)) =>
          let '(p2', r) := convolve_loop flux (i + length p1) p2 o s in
          (p1' ++ p2', r)
      end.
Proof.
  induction p1 as [|[k d] p1 IH]; intros i out st.
  - cbn. rewrite Nat.add_0_r.
    destruct (convolve_loop flux i p2 out st) as [p2' r]. reflexivity.
  - cbn [app convolve_loop].
    destruct (convolve_point flux i k d out st) as [d' [e|[o s]]]; [reflexivity|].
    rewrite IH.
    destruct (convolve_loop flux (S i) p1 o s) as [p1' [e|[o' s']]]; [reflexivity|].
    cbn [length]. replace (i + S (length p1))%nat with (S i + length p1)%nat by lia.
    destruct (convolve_loop flux (S i + length p1) p2 o' s') as [p2' r].
    reflexivity.
Qed.

(** An outlet whose contributing cells are not all inside the flux grid
    raises before its ring is touched. *)
Lemma convolve_point_gather_fails (flux : list (list num)) (i : nat) (k : key)
    (d : point num) (out : flow num) (st : option (state num))
    (r : list num) (e : exn) :
  d_ring d = Some r → gather flux (d_yi d) (d_xi d) = inl e →
  convolve_point flux i k d out st = (d, inl e).
Proof.
  intros Hr Hg. unfold convolve_point, contribution. rewrite Hr, Hg. reflexivity.
Qed.

End Failure.

(** C5, amended.  When the contributing cells of an outlet are not all
    inside the flux grid, [convolve] raises at that outlet.  The ring of
    that outlet and the rings of the outlets after it in registry order are
    left as they were; the outlets before it have already been taken through
    the whole step, exactly as in a step over them alone.  Only when the
    failing outlet is the first one is no ring changed. *)
Theorem failing_timestep_keeps_earlier_updates {num : Type} `{Scalar num}
    (flux : list (list num)) (shp : shape) (rs : bool) (td : time_dict num)
    (k : key) (d : point num) (r : list num) (e : exn)
    (after : point_dict num) :
  d_ring d = Some r →
  gather flux (d_yi d) (d_xi d) = inl e →
  fst (fst (convolve ((k, d) :: after) td flux rs shp)) = (k, d) :: after ∧
  (∃ e', snd (convolve ((k, d) :: after) td flux rs shp) = inl e') ∧
  ∀ (before before' : point_dict num) (td' : time_dict num)
    (o : flow num * option (state num)),
    convolve before td flux rs shp = (before', td', inr o) →
    convolve (before ++ (k, d) :: after) td flux rs shp
    = (before' ++ (k, d) :: after, td', inl e).
Proof.
  intros Hr Hg. split; [|split].
  - unfold convolve.
    destruct (convolve_first rs shp d td) as [td1 [e1|st]]; [reflexivity|].
    cbn [convolve_loop].
    rewrite (convolve_point_gather_fails _ _ _ _ _ _ _ _ Hr Hg). reflexivity.
  - unfold convolve.
    destruct (convolve_first rs shp d td) as [td1 [e1|st]]; [eauto|].
    cbn [convolve_loop].
    rewrite (convolve_point_gather_fails _ _ _ _ _ _ _ _ Hr Hg). eauto.
  - intros before before' td' o. unfold convolve.
    destruct before as [|[k0 d0] before]; [discriminate|].
    cbn [app].
    destruct (convolve_first rs shp d0 td) as [td1 [e1|st]]; [discriminate|].
    change ((k0, d0) :: before ++ (k, d) :: after)
      with (((k0, d0) :: before) ++ (k, d) :: after).
    rewrite convolve_loop_app.
    destruct (convolve_loop flux 0 ((k0, d0) :: before) (new_flow shp) st)
      as [p1' [e1|[o1 s1]]]; [discriminate|].
    intros E. injection E as -> -> _.
    cbn [convolve_loop].
    rewrite (convolve_point_gather_fails _ _ _ _ _ _ _ _ Hr Hg). reflexivity.
Qed.

(** C9, amended.  A time step that returns the state records one time
    axis for the whole snapshot: the time axis of the first outlet of the
    registry, shifted by the time stamp of the step.  The other outlets
    have no part in it.  The snapshot holds, at the place of every outlet,
    the ring that outlet has after the rotation (for rings of the length of
    the state array, in a layout where the outlets have places of their
    own). *)
Theorem state_time_of_first_outlet {num : Type} `{Scalar num}
    (k0 : key) (d0 : point num) (rest pd' : point_dict num)
    (td td' : time_dict num) (flux : list (list num)) (shp : shape)
    (out : flow num) (ost : option (state num)) (L : nat) :
  convolve ((k0, d0) :: rest) td flux true shp = (pd', td', inr (out, ost)) →
  (∃ ts t, time_step td = Some ts ∧ map2_bc add (d_time d0) ts = inr t ∧
           out_state_time td' = Some t) ∧
  (ring_ok L ((k0, d0) :: rest) → placed shp ((k0, d0) :: rest) →
   ∃ st, ost = Some st ∧
     ∀ j kd, pd' !! j = Some kd →
       ∃ r, d_ring (snd kd) = Some r ∧ state_column st j (fst kd) = inr r).
Proof.
  intros E. split.
  - unfold convolve, convolve_first in E.
    destruct (d_uh d0) as [u|]; [|discriminate].
    destruct (time_step td) as [ts|]; [|discriminate].
    destruct (map2_bc add (d_time d0) ts) as [e|t] eqn:Et; [discriminate|].
    cbn [ret] in E.
    destruct (convolve_loop flux 0 ((k0, d0) :: rest) (new_flow shp)
                (Some (new_state (length u) shp))) as [pd1 r1].
    injection E as _ <- _. exists ts, t. auto.
  - intros Hok Hpl.
    destruct (convolve_capture _ _ _ _ _ _ _ _ L E Hok Hpl)
      as (st & -> & _ & Hcols).
    exists st. auto.
Qed.

(** ** Registration does not validate *)

Section Registration.
Context {num : Type} `{Scalar num}.

Lemma mul_rows_same (m : list (list num)) (v : list num) :
  Forall (fun row => length row = length v) m →
  mul_rows m v = inr (map (fun row => zip_with mul row v) m).
Proof.
  intros Hm. unfold mul_rows. apply map_res_inr.
  eapply Forall_impl; [exact Hm|]. intros row Hrow. cbn in Hrow.
  apply map2_bc_same, Hrow.
Qed.

Lemma gather_length (g : list (list num)) (yi xi : list Z) (a : list num) :
  length yi = length xi → gather g yi xi = inr a → length a = length xi.
Proof.
  intros Hlen E. unfold gather in E. rewrite broadcast_same in E by exact Hlen.
  cbn [bind] in E. apply map_res_length in E.
  rewrite E, length_zip. lia.
Qed.

Lemma scaled_uh_well_shaped (uf : uh_file num) (area : list (list num))
    (u : string) (rho : num) :
  u = "kg/m2*s" ∨ u = "m3/s" → well_shaped area uf →
  ∃ m, scaled_uh uf area u rho = inr (Some m) ∧
       length m = length (unit_hydrograph uf).
Proof.
  intros Hu (Hfr & Hyi & Hrows & (a & Ha) & (a0 & Ha0)).
  assert (Hla : length a = length (uh_xi uf))
    by (apply (gather_length _ _ _ _ Hyi Ha)).
  assert (H1 : mul_rows (unit_hydrograph uf) (fraction uf)
               = inr (map (fun row => zip_with mul row (fraction uf))
                        (unit_hydrograph uf))).
  { apply mul_rows_same. eapply Forall_impl; [exact Hrows|].
    intros row Hrow. cbn in Hrow. lia. }
  assert (H2 : mul_rows (map (fun row => zip_with mul row (fraction uf))
                           (unit_hydrograph uf)) a
               = inr (map (fun row => zip_with mul row a)
                        (map (fun row => zip_with mul row (fraction uf))
                           (unit_hydrograph uf)))).
  { apply mul_rows_same. apply Forall_fmap.
    eapply Forall_impl; [exact Hrows|].
    intros row Hrow. cbn in Hrow |- *. rewrite length_zip_with. lia. }
  unfold scaled_uh. destruct Hu as [-> | ->]; cbn [String.eqb Ascii.eqb Bool.eqb].
  - rewrite H1. cbn [bind]. rewrite Ha. cbn [bind]. rewrite H2. cbn [bind].
    rewrite Ha0. cbn [bind ret]. eexists. split; [reflexivity|].
    unfold map_matrix. rewrite !length_map. reflexivity.
  - rewrite H1. cbn [bind]. rewrite Ha. cbn [bind]. rewrite H2. cbn [bind ret].
    eexists. split; [reflexivity|]. rewrite !length_map. reflexivity.
Qed.

Lemma read_point_well_shaped (uf : uh_file num) (area : list (list num))
    (od : out_dict num) (rho : num) :
  units od = Some "kg/m2*s" ∨ units od = Some "m3/s" →
  well_shaped area uf →
  ∃ d m, read_point uf area od rho true = inr d ∧
         (d_y d, d_x d) = (outlet_y uf, outlet_x uf) ∧
         d_uh d = Some m ∧ length m = length (unit_hydrograph uf) ∧
         d_ring d = Some (zeros (length (unit_hydrograph uf))).
Proof.
  intros Hu Hw. unfold read_point.
  assert (∃ u, units od = Some u ∧ (u = "kg/m2*s" ∨ u = "m3/s")) as (u & Eu & Hu')
    by (destruct Hu as [E|E]; rewrite E; eauto).
  rewrite Eu. cbn [bind ret].
  destruct (scaled_uh_well_shaped uf area u rho Hu' Hw) as (m & Hm & HmL).
  rewrite Hm. cbn [bind ret]. eexists _, m. split; [reflexivity|]. cbn.
  rewrite HmL. auto.
Qed.

Lemma read_points_well_shaped (area : list (list num)) (od : out_dict num)
    (rho : num) (all : list (uh_file num)) (fs : list (uh_file num)) :
  units od = Some "kg/m2*s" ∨ units od = Some "m3/s" →
  Forall (well_shaped area) fs → fs ⊆ all →
  ∀ acc : point_dict num,
    Forall (registered all) acc →
    ∃ pd, read_points fs area od rho true acc = inr pd ∧
          Forall (registered all) pd.
Proof.
  intros Hu. induction 1 as [|uf fs Huf _ IH]; intros Hsub acc Hacc.
  - cbn. eauto.
  - cbn [read_points].
    destruct (read_point_well_shaped uf area od rho Hu Huf)
      as (d & m & Hd & Hk & Hm & HmL & Hr).
    rewrite Hd. cbn [bind]. apply IH.
    + intros f Hf. apply Hsub. apply list_elem_of_further, Hf.
    + apply od_set_Forall; [|exact Hacc].
      exists uf, m. cbn. split; [apply Hsub, list_elem_of_here|]. auto.
Qed.

End Registration.

(** C6, amended.  Registration checks neither the number of lags L, nor
    the number K of contributing cells, nor the coefficients.  Whenever the
    arrays of a unit-hydrograph file agree in shape and its cells lie inside
    the area grid, with L = 0, K = 0 and non-finite coefficients included,
    registration succeeds, and without an initial state every registered
    outlet gets a ring of L zeros, L being the number of rows of its unit
    hydrograph. *)
Theorem registration_does_not_validate {num : Type} `{Scalar num}
    (files : list (uh_file num)) (area : list (list num)) (od : out_dict num)
    (c : counts) (rho : num) :
  units od = Some "kg/m2*s" ∨ units od = Some "m3/s" →
  Forall (well_shaped area) files →
  ∃ pd, make_point_dict files area od c rho None
        = inr (pd, set_outlets od pd, set_points c (length files)) ∧
        Forall (registered files) pd.
Proof.
  intros Hu Hw.
  destruct (read_points_well_shaped area od rho files files Hu Hw
              ltac:(intros f Hf; exact Hf) [] ltac:(apply Forall_nil_2))
    as (pd & Hpd & Hreg).
  exists pd. split; [|exact Hreg].
  unfold make_point_dict. rewrite Hpd. reflexivity.
Qed.

(** ** What the restore does with a snapshot *)

Section RestoreSpec.
Context {num : Type} `{Scalar num}.

Lemma map_id_notin (k : key) (r : list num) (pd : point_dict num) :
  k ∉ map fst pd →
  map (fun kd : key * point num =>
         if decide (fst kd = k) then (fst kd, set_ring (snd kd) r) else kd) pd
  = pd.
Proof.
  induction pd as [|[k' d'] pd IH]; cbn; intros Hk; [reflexivity|].
  apply not_elem_of_cons in Hk as [Hne Hk].
  rewrite decide_False by congruence. f_equal. apply IH, Hk.
Qed.

(** [point_dict[key]['ring'] = r] changes the one outlet stored under
    [key], and raises when there is none. *)
Lemma restore_ring_spec (k : key) (r : list num) (pd : point_dict num) :
  NoDup (map fst pd) →
  restore_ring k r pd
  = if decide (k ∈ map fst pd)
    then inr (map (fun kd : key * point num =>
                     if decide (fst kd = k)
                     then (fst kd, set_ring (snd kd) r) else kd) pd)
    else inl KeyError.
Proof.
  induction pd as [|[k' d'] pd IH]; intros Hnd.
  - cbn. rewrite decide_False by apply not_elem_of_nil. reflexivity.
  - cbn [map fst] in Hnd. apply NoDup_cons in Hnd as [Hk' Hnd].
    unfold restore_ring in *. cbn [od_get od_set map fst snd].
    destruct (decide (k = k')) as [->|Hne].
    + cbn [bind ret].
      rewrite (decide_True (P := k' ∈ k' :: map fst pd))
        by apply list_elem_of_here.
      rewrite !(decide_True (P := k' = k')) by reflexivity.
      rewrite map_id_notin by exact Hk'. reflexivity.
    + specialize (IH Hnd).
      rewrite (decide_False (P := k' = k)) by congruence.
      destruct (od_get k pd) as [e|d] eqn:Eg; cbn [bind ret] in IH |- *.
      * destruct (decide (k ∈ map fst pd)) as [Hin|Hnin]; [discriminate|].
        rewrite (decide_False (P := k ∈ k' :: map fst pd)); [congruence|].
        intros Hin. apply elem_of_cons in Hin as [?|?]; contradiction.
      * destruct (decide (k ∈ map fst pd)) as [Hin|Hnin]; [|discriminate].
        rewrite (decide_True (P := k ∈ k' :: map fst pd))
          by (apply list_elem_of_further, Hin).
        injection IH as ->. reflexivity.
Qed.

Lemma restored_keys (es : list (key * list num)) (pd : point_dict num) :
  map fst (restored es pd) = map fst pd.
Proof. unfold restored. rewrite map_map. reflexivity. Qed.

Lemma restored_step (k : key) (r : list num) (es : list (key * list num))
    (pd : point_dict num) :
  restored es
    (map (fun kd : key * point num =>
            if decide (fst kd = k) then (fst kd, set_ring (snd kd) r) else kd) pd)
  = restored ((k, r) :: es) pd.
Proof.
  unfold restored. rewrite map_map. apply map_ext. intros [k' d']. cbn.
  destruct (decide (k' = k)) as [->|Hne]; cbn.
  - destruct (last_entry k es); reflexivity.
  - destruct (last_entry k' es); reflexivity.
Qed.

(** Array state: the columns are taken in order, each one by the outlet
    the state file names for it. *)
Lemma restore_array_by_entries (xs ys : list Z) (cols : list (list num)) :
  ∀ (i : nat) (pd : point_dict num),
    length (drop i xs) = length cols → length (drop i ys) = length cols →
    NoDup (map fst pd) →
    restore_array i cols xs ys pd
    = if bool_decide (Forall (fun k => k ∈ map fst pd)
                        (zip (drop i ys) (drop i xs)))
      then inr (restored (zip (zip (drop i ys) (drop i xs)) cols) pd)
      else inl KeyError.
Proof.
  induction cols as [|r cols IH]; intros i pd Hx Hy Hnd.
  - destruct (drop i xs); [|discriminate]. destruct (drop i ys); [|discriminate].
    cbn [restore_array zip zip_with].
    rewrite bool_decide_true by apply Forall_nil_2.
    unfold restored, ret. f_equal. rewrite <- (map_id pd) at 1.
    apply map_ext. intros [k d]. reflexivity.
  - destruct (drop i xs) as [|x xs'] eqn:Ex; [discriminate|].
    destruct (drop i ys) as [|y ys'] eqn:Ey; [discriminate|].
    assert (Hxi : xs !! i = Some x)
      by (rewrite <- (Nat.add_0_r i), <- lookup_drop, Ex; reflexivity).
    assert (Hyi : ys !! i = Some y)
      by (rewrite <- (Nat.add_0_r i), <- lookup_drop, Ey; reflexivity).
    assert (Ex' : drop (S i) xs = xs').
    { change (S i) with (1 + i)%nat. rewrite Nat.add_comm, <- drop_drop, Ex.
      reflexivity. }
    assert (Ey' : drop (S i) ys = ys').
    { change (S i) with (1 + i)%nat. rewrite Nat.add_comm, <- drop_drop, Ey.
      reflexivity. }
    cbn [restore_array zip zip_with length] in *.
    rewrite (getitem_nat _ _ _ Hyi), (getitem_nat _ _ _ Hxi). cbn [bind].
    rewrite restore_ring_spec by exact Hnd.
    destruct (decide ((y, x) ∈ map fst pd)) as [Hin|Hnin].
    + cbn [bind]. rewrite IH.
      * rewrite Ex', Ey'. rewrite restored_step.
        assert (Hk : map fst
                       (map (fun kd : key * point num =>
                               if decide (fst kd = (y, x))
                               then (fst kd, set_ring (snd kd) r) else kd) pd)
                     = map fst pd).
        { rewrite map_map. apply map_ext. intros [k d]. cbn.
          destruct (decide (k = (y, x))); reflexivity. }
        rewrite Hk.
        destruct (bool_decide_reflect
                    (Forall (fun k => k ∈ map fst pd) (zip ys' xs')))
          as [Hall|Hnall].
        -- rewrite bool_decide_true by (apply Forall_cons; auto). reflexivity.
        -- rewrite bool_decide_false; [reflexivity|].
           intros Hall. apply Forall_cons in Hall as [_ Hall]. contradiction.
      * rewrite Ex'. lia.
      * rewrite Ey'. lia.
      * rewrite map_map. erewrite map_ext; [exact Hnd|].
        intros [k d]. cbn. destruct (decide (k = (y, x))); reflexivity.
    + cbn [bind]. rewrite bool_decide_false; [reflexivity|].
      intros Hall. apply Forall_cons in Hall as [Hin _]. contradiction.
Qed.

(** Grid state: every registered outlet takes the column at its own cell;
    the other cells of the state are not looked at. *)
Lemma restore_grid_by_cells (g : list (list (list num))) (todo : point_dict num) :
  ∀ done : point_dict num,
    NoDup (map fst (done ++ todo)) →
    restore_grid g (map fst todo) (done ++ todo)
    = (let* todo' := grid_restored g todo in ret (done ++ todo')).
Proof.
  induction todo as [|[k d] todo IH]; intros done Hnd.
  - cbn. rewrite app_nil_r. reflexivity.
  - cbn [map fst snd restore_grid grid_restored map_res].
    destruct (getitem2 g k.1 k.2) as [e|r]; [reflexivity|]. cbn [bind ret].
    rewrite restore_ring_app.
    + cbn [bind].
      change (done ++ (k, set_ring d r) :: todo)
        with (done ++ [(k, set_ring d r)] ++ todo).
      rewrite app_assoc, IH.
      * unfold grid_restored.
        destruct (map_res _ todo) as [e|todo']; [reflexivity|].
        cbn [bind ret]. rewrite <- app_assoc. reflexivity.
      * rewrite <- app_assoc. cbn [app].
        rewrite !map_app in Hnd |- *. exact Hnd.
    + rewrite map_app in Hnd. apply NoDup_app in Hnd as (_ & Hnd & _).
      intros Hin. apply (Hnd _ Hin). cbn. apply list_elem_of_here.
Qed.

End RestoreSpec.

(** C8, amended.  For a state of the array layout the restore goes through
    the entries of the snapshot, not through the outlets of the registry:
    each entry overwrites the ring of the outlet registered under its key.
    An entry whose key matches no registered outlet makes the restore fail
    with [KeyError]; an outlet that no entry names is no failure, it simply
    keeps what it had (no ring, in a registry built for a restart).  For a
    state of the grid layout the restore goes through the registry: every
    outlet takes the column at its own cell, the other cells are not looked
    at, and the only failure is a cell outside the grid. *)
Theorem restore_follows_the_snapshot {num : Type} `{Scalar num}
    (f : nc_file num) (pd : point_dict num) :
  NoDup (map fst pd) →
  match nc_streamflow f with
  | State2 _ cols =>
      ∀ xs ys, nc_xi f = Some xs → nc_yi f = Some ys →
        length xs = length cols → length ys = length cols →
        restore f pd
        = if bool_decide (Forall (fun k => k ∈ map fst pd) (zip ys xs))
          then inr (restored (zip (zip ys xs) cols) pd)
          else inl KeyError
  | State3 _ g => restore f pd = grid_restored g pd
  end.
Proof.
  intros Hnd. unfold restore.
  destruct (nc_streamflow f) as [len cols|len g].
  - intros xs ys Hx Hy Hlx Hly. rewrite Hx, Hy. cbn [bind ret].
    assert (H0 := restore_array_by_entries xs ys cols 0 pd).
    rewrite !drop_0 in H0. rewrite <- (H0 Hlx Hly Hnd).
    destruct cols; [|reflexivity].
    destruct xs; [|discriminate]. destruct ys; [|discriminate]. reflexivity.
  - assert (H0 := restore_grid_by_cells g pd [] Hnd). cbn [app] in H0.
    rewrite H0. destruct (grid_restored g pd); reflexivity.
Qed.
(** ** The run loop *)

Section RunFacts.
Context {num : Type} `{Scalar num}.

Lemma run_step_fst (o : outputs) (i : nat) (ff : flux_file num)
    (st : run_state num) :
  fst (run_step o i ff st) = fst (read_flux o i ff st).
Proof.
  unfold run_step. destruct (read_flux o i ff st) as [st' [e|r]]; reflexivity.
Qed.

(** As the loop is written, no iteration completes. *)
Lemma run_step_raises (o : outputs) (i : nat) (ff : flux_file num)
    (st : run_state num) :
  ∃ e, snd (run_step o i ff st) = inl e.
Proof.
  unfold run_step. destruct (read_flux o i ff st) as [st' [e|r]]; eauto.
Qed.

Lemma run_loop_cons (o : outputs) (i : nat) (ff : flux_file num)
    (rest : list (flux_file num)) (st : run_state num) :
  run_loop o i (ff :: rest) st = run_step o i ff st.
Proof.
  cbn [run_loop]. destruct (run_step_raises o i ff st) as [e He].
  destruct (run_step o i ff st) as [st' r]. cbn [snd] in He. subst r.
  reflexivity.
Qed.

(** With the divisor at hand the flux of an iteration is the combined
    flux. *)
Lemma read_flux_first (o : outputs) (ff : flux_file num)
    (st : run_state num) (dates : list string) :
  outputs_state o = Some dates →
  snd (read_flux o 0 ff st)
  = (let* flux := combine (Runoff ff) (Baseflow ff)
                    (fst (fst (flux_div (output_frequency ff) (output_mode ff)
                                 (runoff_units ff)))) in
     ret (existsb (fun date => contains date (ff_name ff)) dates, flux)).
Proof.
  intros Eo. unfold read_flux, first_file, combine. rewrite Eo.
  cbn [Nat.eqb].
  destruct (flux_div (output_frequency ff) (output_mode ff) (runoff_units ff))
    as [[dv w] fr].
  cbn [fst snd].
  destruct (add_fluxes (Runoff ff) (Baseflow ff)) as [e|g]; reflexivity.
Qed.

End RunFacts.

(** C10.  A run over two flux files, the second daily and in centimeters
    where the first is hourly and in millimeters.  The first file is
    counted, its time step and time attributes are taken and the divisor
    becomes 3600 * 1000 by the policy; then the statement that stands
    before the call of [convolve] raises [NameError].  The second file is
    never opened: no second time step is counted, and the run is the run
    over the first file alone. *)
Theorem run_ends_before_second_file :
  run [RunSample.ff; RunSample.ff2] RunSample.o new_counts
  = ({| run_time_dict :=
          {| time_step := Some [100%float];
             time_units := Some "days since 0001-01-01";
             time_cal := Some "noleap"; time_long_name := Some "time";
             time_output_frequency := Some "hourly";
             out_state_time := None |};
        run_counts :=
          {| timesteps := 1; out_files := 0; state_files := 0;
             restart_files := 0; points := 0 |};
        run_div := Some 3600000%float;
        run_log := [Making_statefile "flux/flux.1990-01-01.nc"] |},
     inl NameError) ∧
  run [RunSample.ff; RunSample.ff2] RunSample.o new_counts
  = run [RunSample.ff] RunSample.o new_counts.
Proof.
  split; vm_compute; reflexivity.
Qed.

(** ** The flux divisor and the area units *)

Lemma combine_same_shape {num : Type} `{Scalar num}
    (runoff baseflow : list (list num)) (dv : num) :
  same_shape runoff baseflow →
  combine runoff baseflow dv
  = inr (zip_with (zip_with (fun r b => div (add r b) dv)) runoff baseflow).
Proof.
  intros Hs. unfold combine, add_fluxes.
  rewrite broadcast_same by (apply (Forall2_length _ _ _ Hs)). cbn [bind].
  rewrite (map_res_inr _ (fun p => zip_with add (fst p) (snd p))).
  - cbn [bind ret]. f_equal. unfold map_matrix.
    induction Hs as [|r1 r2 a b Hr Hs IH]; cbn; [reflexivity|].
    f_equal; [|exact IH]. clear - Hr. revert r2 Hr.
    induction r1 as [|v r1 IH]; intros [|w r2] Hr; cbn; try reflexivity.
    f_equal. apply IH. cbn in Hr. lia.
  - induction Hs as [|r1 r2 a b Hr Hs IH]; cbn; [apply Forall_nil_2|].
    apply Forall_cons. split; [|exact IH]. cbn. apply map2_bc_same, Hr.
Qed.

(** C4, amended.  The divisor is 1200 for (hourly, instantaneous), 3600
    for (hourly, averaged) and 86400 for (dailyy, averaged), the spelling
    the code tests for; every other pair, (daily, averaged) among them,
    gets 3600 and a warning, never an error.  The divisor is then scaled by
    1000 for mm, by 100 for cm, and by 1000 with a warning for any other
    depth unit.  Each cell of the combined flux is (runoff + baseflow) / div.
    The numbers are those of binary64. *)
Theorem flux_divisor_table (depth_units : string) :
  let f := depth_factor depth_units in
  let w := depth_warning depth_units in
  flux_div "hourly" "instantaneous" depth_units
    = (PrimFloat.mul 1200 f, w, None) ∧
  flux_div "hourly" "averaged" depth_units
    = (PrimFloat.mul 3600 f, w, Some "hourly") ∧
  flux_div "dailyy" "averaged" depth_units
    = (PrimFloat.mul 86400 f, w, None) ∧
  (∀ frequency mode,
     ¬ (frequency = "hourly" ∧ mode = "instantaneous") →
     ¬ (frequency = "hourly" ∧ mode = "averaged") →
     ¬ (frequency = "dailyy" ∧ mode = "averaged") →
     flux_div frequency mode depth_units
     = (PrimFloat.mul 3600 f, Unexpected_frequency frequency :: w, None)) ∧
  ∀ (runoff baseflow : list (list float)) (dv : float),
    same_shape runoff baseflow →
    combine runoff baseflow dv
    = inr (zip_with (zip_with (fun r b => PrimFloat.div (PrimFloat.add r b) dv))
             runoff baseflow).
Proof.
  intros f w. subst f w. unfold depth_factor, depth_warning.
  split; [|split; [|split; [|split]]].
  - unfold flux_div. cbn [String.eqb Ascii.eqb Bool.eqb andb].
    destruct (String.eqb depth_units "mm") eqn:E5;
    destruct (String.eqb depth_units "cm") eqn:E6;
    rewrite ?String.eqb_eq in *; subst; try discriminate; reflexivity.
  - unfold flux_div. cbn [String.eqb Ascii.eqb Bool.eqb andb].
    destruct (String.eqb depth_units "mm") eqn:E5;
    destruct (String.eqb depth_units "cm") eqn:E6;
    rewrite ?String.eqb_eq in *; subst; try discriminate; reflexivity.
  - unfold flux_div. cbn [String.eqb Ascii.eqb Bool.eqb andb].
    destruct (String.eqb depth_units "mm") eqn:E5;
    destruct (String.eqb depth_units "cm") eqn:E6;
    rewrite ?String.eqb_eq in *; subst; try discriminate; reflexivity.
  - intros fr m H1 H2 H3. unfold flux_div.
    destruct (String.eqb fr "hourly") eqn:E1;
    destruct (String.eqb m "instantaneous") eqn:E2;
    destruct (String.eqb m "averaged") eqn:E3;
    destruct (String.eqb fr "dailyy") eqn:E4;
    rewrite ?String.eqb_eq in *; try (exfalso; tauto); cbn [andb];
    destruct (String.eqb depth_units "mm") eqn:E5;
    destruct (String.eqb depth_units "cm") eqn:E6;
    rewrite ?String.eqb_eq in *; subst; try discriminate; reflexivity.
  - intros runoff baseflow dv Hs.
    exact (combine_same_shape runoff baseflow dv Hs).
Qed.

(** C7.  With area units that [init] does not know, [init] prints that it
    takes the areas to be square meters, leaves [area] unbound and raises
    [UnboundLocalError] as soon as [area] is used: in the grid layout inside
    the [try] block, otherwise when [make_point_dict] is called. *)
Theorem unknown_area_units_abort {num : Type} `{Scalar num}
    (uh_files : list (uh_file num)) (g : grid_file num)
    (initial_state : option (nc_file num)) (o : outputs) :
  one_of (area_units g) known_area_units = false →
  area_m2 g = (None, [Unknown_area_units (area_units g)]) ∧
  snd (init uh_files g initial_state o) = inl UnboundLocalError ∧
  In (Unknown_area_units (area_units g))
     (fst (init uh_files g initial_state o)).
Proof.
  intros Hu. unfold known_area_units, one_of in Hu.
  assert (Ha : area_m2 g = (None, [Unknown_area_units (area_units g)])).
  { unfold area_m2, one_of. cbn [existsb] in Hu |- *.
    repeat (apply orb_false_elim in Hu as [E Hu]; rewrite E; clear E).
    reflexivity. }
  split; [exact Ha|]. unfold init. rewrite Ha.
  destruct (String.eqb (out_type o) "grid"); cbn; auto.
Qed.

(** ** Worked cases *)

(** C1.  One outlet with L = 3, K = 1 and the coefficients 0.5, 0.3, 0.2,
    fed the flux 10 at time step 0 and 0 afterwards, emits 5.0, 3.0, 2.0 and
    0.0 at time steps 0 to 3, and its ring after time step 0 is
    3.0, 2.0, 0.0 (each step accumulates, emits slot 0, zeroes it and
    rotates the ring left by one).  Computed in binary64. *)
Theorem concrete_scenario :
  let td' := set_time_step Sample.td [100%float] in
  ∃ pd1 pd2 pd3 pd4 : point_dict float,
    Sample.advance [((0, 0), Sample.outlet)] 10%float
      = (pd1, td', inr (Flow1 [5%float], None)) ∧
    Sample.rings pd1 = [Some [3%float; 2%float; 0%float]] ∧
    Sample.advance pd1 0%float = (pd2, td', inr (Flow1 [3%float], None)) ∧
    Sample.advance pd2 0%float = (pd3, td', inr (Flow1 [2%float], None)) ∧
    Sample.advance pd3 0%float = (pd4, td', inr (Flow1 [0%float], None)).
Proof.
  intros td'. eexists _, _, _, _.
  split; [vm_compute; reflexivity|].
  split; [vm_compute; reflexivity|].
  split; [vm_compute; reflexivity|].
  split; vm_compute; reflexivity.
Qed.

(** C2, amended.  One outlet with a single contributing cell (K = 1),
    finite coefficients [C] and a ring of zeros, fed the flux 1 at time
    step 0 and 0 at the later ones, in binary64: the values it emits over
    the L time steps are the coefficients themselves, in order, each as
    zero plus that coefficient, which is the coefficient unless that is
    the negative zero; so without a negative zero the emitted values are
    the list [C] and their total, added in any order, is that of [C]. *)
Theorem impulse_is_conserved
    (C tm : list float) (k : key) (y x oy ox : Z) (la lo : float)
    (td : time_dict float) (fluxes : list (list float * list (list float))) :
  Forall (fun c => PrimFloat.is_finite c = true) C →
  length fluxes = length C →
  (∀ t tf, fluxes !! t = Some tf →
           getitem2 (snd tf) y x
           = inr (match t with O => 1%float | S _ => 0%float end)) →
  ∃ pd' td' outs,
    convolve_seq [(k, single_cell C tm y x oy ox la lo (zeros (length C)))]
      td (plain_steps fluxes) (Shape1 1)
    = (pd', td', inr outs) ∧
    map (emitted 0) outs = map (fun c => Some (0 + c)%float) C ∧
    (Forall (fun c => c ≠ neg_zero) C → map (emitted 0) outs = map Some C).
Proof.
  intros HC Hlen Hf.
  destruct (impulse_response C (map (PrimFloat.add 0) C) tm k y x oy ox la lo
              (binary64_absorbs C HC) fluxes td Hlen Hf)
    as (pd' & td' & E).
  exists pd', td', (map (fun c => (Flow1 [c], None)) (map (PrimFloat.add 0) C)).
  split; [exact E|].
  assert (Hm : map (emitted 0)
                 (map (fun c => (Flow1 [c], @None (state float)))
                    (map (PrimFloat.add 0) C))
               = map (fun c => Some (0 + c)%float) C)
    by (rewrite !map_map; reflexivity).
  split; [exact Hm|].
  intros Hn. rewrite Hm. apply map_ext_Forall.
  eapply Forall_impl; [exact Hn|]. intros c Hc. cbn beta.
  rewrite (zero_add c Hc). reflexivity.
Qed.

Lemma impulse_is_conserved_witness :
  ∃ pd' td' outs,
    convolve_seq [((0, 0), Sample.outlet)] Sample.td
      (plain_steps
         [([100%float], Sample.flux_of 1); ([101%float], Sample.flux_of 0);
          ([102%float], Sample.flux_of 0)])
      (Shape1 1)
    = (pd', td', inr outs) ∧
    map (emitted 0) outs
    = map (fun c => Some (0 + c)%float) Sample.coefficients ∧
    (Forall (fun c => c ≠ neg_zero) Sample.coefficients →
     map (emitted 0) outs = map Some Sample.coefficients).
Proof.
  apply (impulse_is_conserved Sample.coefficients
           [0%float; 1%float; 2%float] (0, 0) 0 0 0 0 0%float 0%float
           Sample.td
           [([100%float], Sample.flux_of 1); ([101%float], Sample.flux_of 0);
            ([102%float], Sample.flux_of 0)]).
  - unfold Sample.coefficients.
    repeat (apply Forall_cons_2; [vm_compute; reflexivity|]).
    apply Forall_nil_2.
  - reflexivity.
  - intros [|[|[|t]]] tf Ht; cbn in Ht; try discriminate;
      injection Ht as <-; reflexivity.
Defined.

(** An infinite coefficient is not conserved.  With the coefficients
    infinity and 1 the impulse emits infinity and then, the ring having
    taken in zero times infinity, a value that is not a number; whatever
    the order of adding, the emitted values do not sum to the sum of the
    coefficients, which is infinity. *)
Lemma infinite_coefficient_is_not_conserved :
  ∃ pd' td' outs,
    convolve_seq
      [((0, 0), single_cell [infinity; 1%float] [0%float; 1%float]
                  0 0 0 0 0%float 0%float (zeros 2))]
      Sample.td
      (plain_steps
         [([100%float], Sample.flux_of 1); ([101%float], Sample.flux_of 0)])
      (Shape1 1)
    = (pd', td', inr outs) ∧
    map (emitted 0) outs = [Some infinity; Some nan] ∧
    sum [infinity; 1%float] = infinity ∧
    sum [infinity; nan] = nan ∧ (nan + infinity)%float = nan ∧
    sum [infinity; nan] ≠ sum [infinity; 1%float].
Proof.
  eexists _, _, _.
  split; [vm_compute; reflexivity|].
  split; [vm_compute; reflexivity|].
  split; [vm_compute; reflexivity|].
  split; [vm_compute; reflexivity|].
  split; [vm_compute; reflexivity|].
  intros E. apply (f_equal PrimFloat.is_nan) in E. vm_compute in E.
  discriminate E.
Qed.

(** A restart that changes the emitted values.  [file_p] has two lags and
    [file_q] one; the state array is sized by the first outlet, the
    one-slot ring of the second outlet is stretched to two slots, and after
    the restart that outlet emits 2 where the uninterrupted run emits 1. *)
Lemma restart_changes_emitted_values :
  ∃ pd0 od0 c0 pd1 td1 out st f pdr,
    make_point_dict [Sample.file_p; Sample.file_q] Sample.area Sample.od
      new_counts 1000%float None = inr (pd0, od0, c0) ∧
    convolve pd0 (set_time_step Sample.td [100%float]) (Sample.flux_of 1)
      true (Shape1 2) = (pd1, td1, inr (out, Some st)) ∧
    write_output (Data_state st) od0 td1 (Shape1 2) = inr f ∧
    make_point_dict [Sample.file_p; Sample.file_q] Sample.area Sample.od
      new_counts 1000%float (Some f) = inr (pdr, od0, c0) ∧
    snd (convolve_seq pd1 td1
           [([101%float], Sample.flux_of 1, false);
            ([102%float], Sample.flux_of 1, false)] (Shape1 2))
    = inr [(Flow1 [2%float; 1%float], None); (Flow1 [2%float; 1%float], None)] ∧
    snd (convolve_seq pdr td1
           [([101%float], Sample.flux_of 1, false);
            ([102%float], Sample.flux_of 1, false)] (Shape1 2))
    = inr [(Flow1 [2%float; 1%float], None); (Flow1 [2%float; 2%float], None)] ∧
    snd (convolve_seq pd1 td1
           [([101%float], Sample.flux_of 1, false);
            ([102%float], Sample.flux_of 1, false)] (Shape1 2))
    ≠ snd (convolve_seq pdr td1
             [([101%float], Sample.flux_of 1, false);
              ([102%float], Sample.flux_of 1, false)] (Shape1 2)).
Proof.
  eexists _, _, _, _, _, _, _, _, _.
  split; [vm_compute; reflexivity|].
  split; [vm_compute; reflexivity|].
  split; [vm_compute; reflexivity|].
  split; [vm_compute; reflexivity|].
  split; [vm_compute; reflexivity|].
  split; [vm_compute; reflexivity|].
  intros E.
  apply (f_equal
           (fun r : res (list (flow float * option (state float))) =>
              match r with
              | inr [_; (Flow1 [_; v], _)] => PrimFloat.ltb v 1.5%float
              | _ => false
              end)) in E.
  vm_compute in E. discriminate E.
Qed.

Lemma restart_equivalence_witness :
  make_point_dict [Sample.file_a; Sample.file_b] Sample.area Sample.od
    new_counts 1000%float (Some Sample.state_file_ab2)
  = inr (Sample.pd_ab2, Sample.od_ab, set_points new_counts 2) ∧
  ∀ (td' : time_dict float)
    (steps2 : list (list float * list (list float) * bool)),
    fst (fst (convolve_seq Sample.pd_ab0 Sample.td
                ([Sample.step1] ++ ([101%float], Sample.flux2, true) :: steps2)
                (Shape1 2)))
    = fst (fst (convolve_seq Sample.pd_ab2 td' steps2 (Shape1 2))) ∧
    snd (convolve_seq Sample.pd_ab0 Sample.td
           ([Sample.step1] ++ ([101%float], Sample.flux2, true) :: steps2)
           (Shape1 2))
    = (let* os := snd (convolve_seq Sample.pd_ab2 td' steps2 (Shape1 2)) in
       ret (Sample.outs_ab1 ++ (Sample.out_ab2, Some Sample.st_ab2) :: os)) ∧
    ∀ outs2 : list (flow float * option (state float)),
      snd (convolve_seq Sample.pd_ab2 td' steps2 (Shape1 2)) = inr outs2 →
      snd (convolve_seq Sample.pd_ab0 Sample.td
             (plain_steps
                (map fst ([Sample.step1]
                          ++ ([101%float], Sample.flux2, true) :: steps2)))
             (Shape1 2))
      = inr (map (fun o => (fst o, None))
               (Sample.outs_ab1
                ++ (Sample.out_ab2, Some Sample.st_ab2) :: outs2)).
Proof.
  apply (restart_equivalence [Sample.file_a; Sample.file_b] Sample.area
           Sample.od Sample.od_ab new_counts (set_points new_counts 2)
           1000%float 3 (Shape1 2) Sample.pd_ab0 Sample.pd_ab1 Sample.pd_ab2
           Sample.td Sample.td_ab1 Sample.td_ab2 [Sample.step1]
           Sample.outs_ab1 [101%float] Sample.flux2 Sample.out_ab2
           Sample.st_ab2 Sample.state_file_ab2).
  - repeat constructor.
  - vm_compute. reflexivity.
  - reflexivity.
  - vm_compute. reflexivity.
  - vm_compute. reflexivity.
  - vm_compute. reflexivity.
Defined.

(** The pair (daily, averaged) is not in the table of the code: it gets the
    default divisor 3600 (times 1000 for mm) with a warning, not 86400. *)
Lemma daily_averaged_gets_the_default :
  flux_div "daily" "averaged" "mm"
  = (3600000%float, [Unexpected_frequency "daily"], None) ∧
  fst (fst (flux_div (num := float) "daily" "averaged" "mm"))
  ≠ PrimFloat.mul 86400 1000.
Proof.
  split; [reflexivity|]. vm_compute. intros E.
  apply (f_equal (fun v => PrimFloat.ltb v 5000000%float)) in E.
  vm_compute in E. discriminate E.
Qed.

(** A time step that fails at the second outlet has already changed the
    ring of the first one. *)
Lemma failing_timestep_changes_a_ring :
  Sample.rings [((0, 0), Sample.outlet); ((1, 1), Sample.outlet_outside)]
  = [Some [0%float; 0%float; 0%float]; Some [0%float; 0%float; 0%float]] ∧
  ∃ pd' td',
    convolve [((0, 0), Sample.outlet); ((1, 1), Sample.outlet_outside)]
      (set_time_step Sample.td [100%float]) (Sample.flux_of 10) false
      (Shape1 2)
    = (pd', td', inl IndexError) ∧
    Sample.rings pd'
    = [Some [3%float; 2%float; 0%float]; Some [0%float; 0%float; 0%float]].
Proof.
  split; [reflexivity|]. eexists _, _.
  split; vm_compute; reflexivity.
Qed.

Lemma failing_timestep_keeps_earlier_updates_witness :
  fst (fst (convolve [((1, 1), Sample.outlet_outside)]
              (set_time_step Sample.td [100%float]) (Sample.flux_of 10)
              false (Shape1 2)))
  = [((1, 1), Sample.outlet_outside)] ∧
  (∃ e', snd (convolve [((1, 1), Sample.outlet_outside)]
                (set_time_step Sample.td [100%float]) (Sample.flux_of 10)
                false (Shape1 2)) = inl e') ∧
  ∀ (before before' : point_dict float) (td' : time_dict float)
    (o : flow float * option (state float)),
    convolve before (set_time_step Sample.td [100%float]) (Sample.flux_of 10)
      false (Shape1 2) = (before', td', inr o) →
    convolve (before ++ [((1, 1), Sample.outlet_outside)])
      (set_time_step Sample.td [100%float]) (Sample.flux_of 10) false
      (Shape1 2)
    = (before' ++ [((1, 1), Sample.outlet_outside)], td', inl IndexError).
Proof.
  apply (failing_timestep_keeps_earlier_updates (Sample.flux_of 10) (Shape1 2)
           false (set_time_step Sample.td [100%float]) (1, 1)
           Sample.outlet_outside (zeros 3) IndexError []).
  - reflexivity.
  - vm_compute. reflexivity.
Defined.

(** Registration accepts a unit hydrograph with no lag (L = 0), one with
    no contributing cell (K = 0), and one with coefficients that are not
    finite. *)
Lemma degenerate_unit_hydrographs_are_registered :
  ∃ pd od' c',
    make_point_dict
      [Sample.file_no_lags; Sample.file_no_cells; Sample.file_nan]
      Sample.area Sample.od new_counts 1000%float None
    = inr (pd, od', c') ∧
    map fst pd = [(0, 0); (0, 1); (1, 0)] ∧
    map (fun kd => d_uh (snd kd)) pd
    = [Some []; Some [[]; []]; Some [[nan]; [infinity]]] ∧
    Sample.rings pd = [Some []; Some [0%float; 0%float]; Some [0%float; 0%float]].
Proof.
  eexists _, _, _.
  split; [vm_compute; reflexivity|].
  split; [vm_compute; reflexivity|].
  split; vm_compute; reflexivity.
Qed.

Lemma registration_does_not_validate_witness :
  ∃ pd,
    make_point_dict
      [Sample.file_no_lags; Sample.file_no_cells; Sample.file_nan]
      Sample.area Sample.od new_counts 1000%float None
    = inr (pd, set_outlets Sample.od pd, set_points new_counts 3) ∧
    Forall (registered
              [Sample.file_no_lags; Sample.file_no_cells; Sample.file_nan])
      pd.
Proof.
  apply (registration_does_not_validate
           [Sample.file_no_lags; Sample.file_no_cells; Sample.file_nan]
           Sample.area Sample.od new_counts 1000%float).
  - right. reflexivity.
  - repeat apply Forall_cons_2; try apply Forall_nil_2;
      (split; [reflexivity|]; split; [reflexivity|];
       split; [repeat constructor|];
       split; eexists; vm_compute; reflexivity).
Defined.

Lemma unknown_area_units_abort_witness :
  area_m2 Sample.hectares = (None, [Unknown_area_units "hectares"]) ∧
  snd (init [Sample.file_a] Sample.hectares None
         {| out_type := "array"; out_units := "volume";
            outputs_state := Some [] |})
  = inl UnboundLocalError ∧
  In (Unknown_area_units "hectares")
     (fst (init [Sample.file_a] Sample.hectares None
             {| out_type := "array"; out_units := "volume";
                outputs_state := Some [] |})).
Proof.
  apply (unknown_area_units_abort [Sample.file_a] Sample.hectares None
           {| out_type := "array"; out_units := "volume";
              outputs_state := Some [] |}).
  reflexivity.
Defined.

(** The restore of an array state does not fail for an outlet that the
    snapshot does not name, which is left without a ring, and does fail for
    a snapshot entry that names no registered outlet. *)
Lemma restore_goes_by_snapshot_entries :
  (∃ pd od' c',
     make_point_dict [Sample.file_a; Sample.file_b] Sample.area Sample.od
       new_counts 1000%float
       (Some (Sample.state_file [0] [0] [[1%float; 2%float; 3%float]]))
     = inr (pd, od', c') ∧
     Sample.rings pd = [Some [1%float; 2%float; 3%float]; None]) ∧
  make_point_dict [Sample.file_a] Sample.area Sample.od new_counts 1000%float
    (Some (Sample.state_file [0; 5] [0; 5]
             [[1%float; 2%float; 3%float]; [4%float; 5%float; 6%float]]))
  = inl KeyError.
Proof.
  split; [|vm_compute; reflexivity].
  eexists _, _, _. split; vm_compute; reflexivity.
Qed.

Lemma restore_follows_the_snapshot_witness :
  restore (Sample.state_file [0] [0] [[1%float; 2%float; 3%float]])
    (skeleton Sample.pd_ab0)
  = if bool_decide (Forall (fun k => k ∈ map fst (skeleton Sample.pd_ab0))
                      (zip [0] [0]))
    then inr (restored (zip (zip [0] [0]) [[1%float; 2%float; 3%float]])
                (skeleton Sample.pd_ab0))
    else inl KeyError.
Proof.
  refine (restore_follows_the_snapshot
            (Sample.state_file [0] [0] [[1%float; 2%float; 3%float]])
            (skeleton Sample.pd_ab0) _ [0] [0] eq_refl eq_refl eq_refl eq_refl).
  cbn. apply NoDup_cons. split.
  - intros Hin. apply list_elem_of_singleton in Hin. discriminate Hin.
  - apply NoDup_singleton.
Defined.

(** The state time of a snapshot is one time axis, taken from the first
    outlet: with the time stamp 100 it is 100, 101, 102 whether the time
    axis of the second outlet starts at 5 or at 9; neither 105 nor 109 is
    recorded. *)
Lemma state_time_ignores_later_outlets :
  let stamp (t : float) :=
    out_state_time
      (snd (fst (convolve [((0, 0), Sample.outlet); ((1, 1), Sample.outlet_b t)]
                   (set_time_step Sample.td [100%float]) (Sample.flux_of 10)
                   true (Shape1 2)))) in
  d_time (Sample.outlet_b 5) = [5%float; 6%float; 7%float] ∧
  d_time (Sample.outlet_b 9) = [9%float; 10%float; 11%float] ∧
  stamp 5%float = Some [100%float; 101%float; 102%float] ∧
  stamp 9%float = Some [100%float; 101%float; 102%float].
Proof.
  intros stamp. repeat split; vm_compute; reflexivity.
Qed.

Lemma state_time_of_first_outlet_witness :
  ∃ (pd' : point_dict float) (td' : time_dict float)
    (ost : option (state float)),
    (∃ ts t, time_step (set_time_step Sample.td [100%float]) = Some ts ∧
             map2_bc add (d_time Sample.outlet) ts = inr t ∧
             out_state_time td' = Some t) ∧
    (ring_ok 3 [((0, 0), Sample.outlet); ((1, 1), Sample.outlet_b 5)] →
     placed (Shape1 2) [((0, 0), Sample.outlet); ((1, 1), Sample.outlet_b 5)] →
     ∃ st, ost = Some st ∧
       ∀ j kd, pd' !! j = Some kd →
         ∃ r, d_ring (snd kd) = Some r ∧ state_column st j (fst kd) = inr r).
Proof.
  eexists _, _, _.
  eapply (state_time_of_first_outlet (0, 0) Sample.outlet
            [((1, 1), Sample.outlet_b 5)] _
            (set_time_step Sample.td [100%float]) _ (Sample.flux_of 10)
            (Shape1 2) _ _ 3).
  vm_compute. reflexivity.
Defined.

(** ** A time step in closed form *)

Section StepFacts.
Context {num : Type} `{Scalar num}.

Lemma contribution_set_ring (flux : list (list num)) (d : point num)
    (r : list num) :
  contribution flux (set_ring d r) = contribution flux d.
Proof. reflexivity. Qed.

Lemma contribution_length (flux : list (list num)) (d : point num)
    (u : list (list num)) (c : list num) :
  d_uh d = Some u → contribution flux d = inr c → length c = length u.
Proof.
  unfold contribution. intros Hu Hc. rewrite Hu in Hc.
  destruct (gather flux (d_yi d) (d_xi d)) as [e|g]; [discriminate|].
  cbn [bind ret] in Hc.
  destruct (map_res (map2_bc mul g) u) as [e|prod] eqn:E; [discriminate|].
  cbn [bind ret] in Hc. injection Hc as <-. rewrite length_map.
  exact (map_res_length _ _ _ E).
Qed.

Lemma steady_step_point (flux : list (list num)) (d : point num) :
  steady d → (∃ c, contribution flux d = inr c) → steady (step_point flux d).
Proof.
  intros [Hn (u & r & Hu & Hr & Hl & Hne)] [c Hc]. split; [exact Hn|].
  exists u, (next_ring (ring_of d) (contribution_of flux d)).
  split; [exact Hu|]. split; [reflexivity|].
  unfold next_ring, ring_of, contribution_of. rewrite Hr, Hc.
  assert (Lc := contribution_length flux d u c Hu Hc).
  split.
  - rewrite length_app, length_tl, length_zip_with. cbn [length].
    destruct r; [congruence|]. cbn [length] in *. lia.
  - intros E. apply (f_equal length) in E. rewrite length_app in E.
    cbn [length] in E. lia.
Qed.

(** The body of the loop on a steady outlet whose contribution can be
    computed. *)
Lemma convolve_point_steady (flux : list (list num)) (i : nat) (k : key)
    (d : point num) (v : list num) :
  steady d → (∃ c, contribution flux d = inr c) → (i < length v)%nat →
  convolve_point flux i k d (Flow1 v) None
  = (step_point flux d, inr (Flow1 (<[i := step_emit flux d]> v), None)).
Proof.
  intros [Hn (u & r & Hu & Hr & Hl & Hne)] [c Hc] Hi.
  assert (Lc := contribution_length flux d u c Hu Hc).
  unfold convolve_point, step_point, step_emit, emit, next_ring, ring_of,
    contribution_of.
  rewrite Hr, Hc. rewrite iadd_same by congruence.
  destruct r as [|a r]; [congruence|]. destruct c as [|b c];
    [cbn [length] in *; lia|].
  cbn [zip_with tail]. rewrite getitem_head. cbn [bind ret].
  unfold store_flow.
  destruct (i <? length v)%nat eqn:E; [|apply Nat.ltb_ge in E; lia].
  cbn [d_now set_ring]. rewrite Hn, setitem_head, shift_one.
  rewrite !set_ring_set_ring. reflexivity.
Qed.

Lemma convolve_loop_steady (flux : list (list num)) (pts : point_dict num) :
  ∀ (i : nat) (v : list num),
    Forall (fun kd => steady (snd kd)) pts → feeds flux pts →
    (i + length pts ≤ length v)%nat →
    convolve_loop flux i pts (Flow1 v) None
    = (map (fun kd => (fst kd, step_point flux (snd kd))) pts,
       inr (Flow1 (take i v ++ map (fun kd => step_emit flux (snd kd)) pts
                     ++ drop (i + length pts) v), None)).
Proof.
  induction pts as [|[k d] pts IH]; intros i v Hs Hf Hl.
  - cbn [convolve_loop map length app]. rewrite Nat.add_0_r, take_drop.
    reflexivity.
  - cbn [length] in Hl. inversion Hs as [|? ? Hd Hs']; subst.
    inversion Hf as [|? ? Hc Hf']; subst. cbn [snd] in Hd, Hc.
    cbn [convolve_loop]. rewrite convolve_point_steady by (auto; lia).
    rewrite IH by (auto; rewrite length_insert; lia).
    cbn [map fst snd length]. f_equal. f_equal. f_equal.
    assert (Hi : (i < length v)%nat) by lia.
    destruct (lookup_lt_is_Some_2 v i Hi) as [x Hx].
    rewrite (take_S_r (<[i := step_emit flux d]> v) i (step_emit flux d))
      by (apply list_lookup_insert_eq; exact Hi).
    rewrite take_insert_ge by lia. rewrite drop_insert_lt by lia.
    rewrite <- app_assoc. cbn [app].
    replace (S i + length pts)%nat with (i + S (length pts))%nat by lia.
    reflexivity.
Qed.

Lemma convolve_steady (pd : point_dict num) (td : time_dict num)
    (flux : list (list num)) (n : nat) :
  pd ≠ [] → Forall (fun kd => steady (snd kd)) pd → feeds flux pd →
  (length pd ≤ n)%nat →
  convolve pd td flux false (Shape1 n)
  = (map (fun kd => (fst kd, step_point flux (snd kd))) pd,
     set_out_state_time td None,
     inr (Flow1 (map (fun kd => step_emit flux (snd kd)) pd
                   ++ zeros (n - length pd)), None)).
Proof.
  intros Hne Hs Hf Hl. unfold convolve.
  destruct pd as [|[k0 d0] rest]; [congruence|].
  cbn [convolve_first new_flow ret].
  rewrite convolve_loop_steady
    by (auto; unfold zeros; rewrite length_replicate; lia).
  cbn [take app Nat.add]. unfold zeros. rewrite drop_replicate. reflexivity.
Qed.

End StepFacts.

(** One call of [convolve] in closed form, array layout, no state asked
    for.  On a registry of steady outlets, none of them beyond the length
    of [out_flow], and a flux that reaches every outlet, the call succeeds:
    every outlet emits slot 0 of its ring plus its contribution at lag 0,
    its ring becomes the remaining sums moved down by one with a zero
    behind them, and the slots of [out_flow] that belong to no outlet are
    zero. *)
Theorem step_in_closed_form {num : Type} `{Scalar num}
    (pd : point_dict num) (td : time_dict num) (flux : list (list num))
    (n : nat) :
  pd ≠ [] → Forall (fun kd => steady (snd kd)) pd → feeds flux pd →
  (length pd ≤ n)%nat →
  convolve pd td flux false (Shape1 n)
  = (map (fun kd => (fst kd, step_point flux (snd kd))) pd,
     set_out_state_time td None,
     inr (Flow1 (map (fun kd => step_emit flux (snd kd)) pd
                   ++ zeros (n - length pd)), None)).
Proof.
  intros Hne Hs Hf Hl. apply convolve_steady; assumption.
Qed.

Section ConvolutionSum.
Context {num : Type} `{Scalar num}.

Lemma omap_cons {A B : Type} (f : A → option B) (a : A) (l : list A) :
  omap f (a :: l)
  = match f a with
    | Some y => y :: omap f l
    | None => omap f l
    end.
Proof. reflexivity. Qed.

Lemma omap_seq_S {A : Type} (f : nat → option A) (n : nat) :
  ∀ a : nat, omap f (seq (S a) n) = omap (fun s => f (S s)) (seq a n).
Proof.
  induction n as [|n IH]; intros a; [reflexivity|].
  cbn [seq]. rewrite !omap_cons, IH. reflexivity.
Qed.

Lemma next_ring_lookup (r c : list num) (t : nat) :
  length c = length r →
  match next_ring r c !! t with Some a => a | None => zero end
  = match r !! S t, c !! S t with
    | Some a, Some b => add a b
    | _, _ => zero
    end.
Proof.
  intros Hl. unfold next_ring.
  destruct r as [|a0 r], c as [|b0 c]; try discriminate.
  - destruct t; reflexivity.
  - cbn [zip_with tail]. cbn [length] in Hl.
    change ((a0 :: r) !! S t) with (r !! t).
    change ((b0 :: c) !! S t) with (c !! t).
    destruct (decide (t < length r)%nat) as [Ht|Ht].
    + rewrite lookup_app_l by (rewrite length_zip_with; lia).
      rewrite lookup_zip_with.
      destruct (lookup_lt_is_Some_2 r t Ht) as [a Ea].
      destruct (lookup_lt_is_Some_2 c t ltac:(lia)) as [b Eb].
      rewrite Ea, Eb. reflexivity.
    + rewrite (lookup_ge_None_2 r t) by lia.
      rewrite lookup_app_r by (rewrite length_zip_with; lia).
      rewrite length_zip_with.
      destruct (t - length r `min` length c)%nat; reflexivity.
Qed.

Lemma lagged_0 (r0 c0 : list num) (cs : list (list num)) :
  length c0 = length r0 → r0 ≠ [] → lagged r0 (c0 :: cs) 0 = emit r0 c0.
Proof.
  intros Hl Hne. unfold lagged, emit.
  destruct r0 as [|a r0]; [congruence|]. destruct c0 as [|b c0]; [discriminate|].
  reflexivity.
Qed.

Lemma lagged_S (r0 c0 : list num) (cs : list (list num)) (t : nat) :
  length c0 = length r0 →
  lagged r0 (c0 :: cs) (S t) = lagged (next_ring r0 c0) cs t.
Proof.
  intros Hl. unfold lagged. rewrite next_ring_lookup by exact Hl.
  change (seq 0 (S (S t))) with (0%nat :: seq 1 (S t)).
  rewrite omap_cons, omap_seq_S.
  change ((c0 :: cs) !! 0%nat ≫= (fun c => c !! (S t - 0)%nat))
    with (c0 !! S t).
  change (fun s => (c0 :: cs) !! S s ≫= (fun c => c !! (S t - S s)%nat))
    with (fun s => cs !! s ≫= (fun c => c !! (t - s)%nat)).
  destruct (r0 !! S t) as [a|] eqn:Ea.
  - destruct (lookup_lt_is_Some_2 c0 (S t)) as [b Eb].
    { apply lookup_lt_Some in Ea. lia. }
    rewrite Eb. reflexivity.
  - rewrite (lookup_ge_None_2 c0 (S t))
      by (apply lookup_ge_None_1 in Ea; lia).
    reflexivity.
Qed.

Lemma feeds_step (flux flux' : list (list num)) (pd : point_dict num) :
  feeds flux' pd →
  feeds flux' (map (fun kd => (fst kd, step_point flux (snd kd))) pd).
Proof.
  unfold feeds. rewrite Forall_map. intros Hf.
  eapply Forall_impl; [exact Hf|]. intros kd Hc. exact Hc.
Qed.

End ConvolutionSum.

(** The value emitted at step [t] is what slot [t] of the initial ring
    held plus the contributions of the steps up to [t], each at its lag. *)
Lemma emitted_lagged {num : Type} `{Scalar num}
    (n : nat) (fluxes : list (list num * list (list num))) :
  ∀ (pd : point_dict num) (td : time_dict num),
    pd ≠ [] → Forall (fun kd => steady (snd kd)) pd →
    Forall (fun tf => feeds (snd tf) pd) fluxes →
    (length pd ≤ n)%nat →
    snd (convolve_seq pd td (plain_steps fluxes) (Shape1 n))
    = inr (map (fun t =>
                  (Flow1 (map (fun kd => lagged (ring_of (snd kd))
                                           (contributions fluxes (snd kd)) t) pd
                            ++ zeros (n - length pd)), None))
               (seq 0 (length fluxes))).
Proof.
  induction fluxes as [|[ts flux] fluxes IH]; intros pd td Hne Hs Hf Hl;
    [reflexivity|].
  inversion Hf as [|? ? Hf0 Hf']; subst. cbn [snd] in Hf0.
  assert (Hc0 : ∀ kd, kd ∈ pd → ∃ c, contribution flux (snd kd) = inr c)
    by (apply Forall_forall; exact Hf0).
  assert (Hs0 : ∀ kd, kd ∈ pd → steady (snd kd))
    by (apply Forall_forall; exact Hs).
  cbn [plain_steps map fst snd convolve_seq].
  rewrite convolve_steady by assumption.
  fold (plain_steps fluxes).
  set (pd1 := map (fun kd => (fst kd, step_point flux (snd kd))) pd).
  assert (H1 : pd1 ≠ []) by (subst pd1; destruct pd; [congruence|discriminate]).
  assert (H2 : Forall (fun kd => steady (snd kd)) pd1).
  { subst pd1. rewrite Forall_map.
    apply Forall_forall. intros kd Hin. cbn [snd].
    apply steady_step_point; [apply Hs0, Hin|apply Hc0, Hin]. }
  assert (H3 : Forall (fun tf => feeds (snd tf) pd1) fluxes).
  { eapply Forall_impl; [exact Hf'|]. intros tf. apply feeds_step. }
  assert (H4 : (length pd1 ≤ n)%nat) by (subst pd1; rewrite length_map; lia).
  specialize (IH pd1 (set_out_state_time (set_time_step td ts) None) H1 H2 H3 H4).
  destruct (convolve_seq pd1 _ (plain_steps fluxes) (Shape1 n))
    as [[pd2 td2] r]. cbn [snd] in IH. subst r. cbn [snd bind ret].
  f_equal. cbn [length seq map]. f_equal.
  - f_equal. f_equal. f_equal. apply map_ext_Forall.
    apply Forall_forall. intros kd Hin.
    destruct (Hs0 kd Hin) as [Hn (u & r & Hu & Hr & Hlr & Hr0)].
    destruct (Hc0 kd Hin) as [c Hc].
    unfold step_emit, contributions. cbn [map snd]. symmetry.
    apply lagged_0; unfold ring_of, contribution_of; rewrite Hr;
      [|exact Hr0].
    rewrite Hc, (contribution_length _ _ _ _ Hu Hc). congruence.
  - rewrite <- fmap_S_seq. rewrite <- list_fmap_compose.
    apply map_ext. intros t. unfold compose. f_equal. f_equal.
    subst pd1. rewrite length_map. f_equal. rewrite map_map.
    apply map_ext_Forall.
    apply Forall_forall. intros kd Hin.
    destruct (Hs0 kd Hin) as [Hn (u & r & Hu & Hr & Hlr & Hr0)].
    destruct (Hc0 kd Hin) as [c Hc].
    cbn [snd]. unfold contributions at 2. cbn [map snd].
    rewrite lagged_S.
    + reflexivity.
    + unfold ring_of, contribution_of. rewrite Hr, Hc.
      rewrite (contribution_length _ _ _ _ Hu Hc). congruence.
Qed.

Section Routing.
Context {num : Type} `{Scalar num}.

Lemma gather_cells (flux : list (list num)) (d : point num) (g : list num) :
  length (d_yi d) = length (d_xi d) →
  gather flux (d_yi d) (d_xi d) = inr g →
  length g = length (d_xi d) ∧
  ∀ k, (k < length (d_xi d))%nat →
       g !! k = Some (flux_at flux (cell_y d k) (cell_x d k)).
Proof.
  intros Hl E. unfold gather in E.
  rewrite broadcast_same in E by exact Hl. cbn [bind] in E.
  pose proof (map_res_length _ _ _ E) as Hg.
  rewrite length_zip, Hl, Nat.min_id in Hg. split; [exact Hg|].
  intros k Hk. apply map_res_Forall2 in E.
  destruct (lookup_lt_is_Some_2 (d_yi d) k ltac:(lia)) as [y Hy].
  destruct (lookup_lt_is_Some_2 (d_xi d) k Hk) as [x Hx].
  assert (Hz : zip (d_yi d) (d_xi d) !! k = Some (y, x)).
  { apply lookup_zip_with_Some. exists y, x. auto. }
  destruct (Forall2_lookup_l _ _ _ _ _ E Hz) as (v & Hv & Hf).
  cbn [fst snd] in Hf. rewrite Hv. unfold flux_at, cell_y, cell_x.
  rewrite Hy, Hx, Hf. reflexivity.
Qed.

Lemma map_seq_lookup {A B : Type} (f : A → B) (h : nat → B) (l : list A) :
  (∀ i a, l !! i = Some a → f a = h i) →
  map f l = map h (seq 0 (length l)).
Proof.
  intros Hf. apply list_eq. intros i.
  rewrite !list_lookup_fmap.
  destruct (l !! i) as [a|] eqn:Ei.
  - rewrite (lookup_seq_lt _ _ _ (lookup_lt_Some _ _ _ Ei)).
    cbn. f_equal. apply Hf, Ei.
  - rewrite lookup_seq_ge by (apply lookup_ge_None, Ei). reflexivity.
Qed.

Lemma list_seq_lookup {A : Type} (h : nat → A) (l : list A) :
  (∀ i a, l !! i = Some a → a = h i) → l = map h (seq 0 (length l)).
Proof.
  intros Hl. rewrite <- (map_seq_lookup id h l Hl). symmetry. apply map_id.
Qed.

(** The contribution the code computes is the routed flux of the
    specification, lag by lag. *)
Lemma contribution_routed (flux : list (list num)) (d : point num)
    (c : list num) :
  aligned d → contribution flux d = inr c →
  c = map (routed flux d) (seq 0 (lags d)).
Proof.
  intros [Hyx Hrows] E. unfold contribution in E.
  apply bind_inr in E as (g & Hg & E).
  destruct (d_uh d) as [u|] eqn:Eu; [|discriminate]. cbn [bind ret] in E.
  apply bind_inr in E as (prod & Hp & E). injection E as <-.
  destruct (gather_cells flux d g Hyx Hg) as [Hgl Hgk].
  specialize (Hrows u eq_refl).
  assert (Hprod : prod = map (zip_with mul g) u).
  { symmetry. assert (E' : map_res (map2_bc mul g) u
                           = inr (map (zip_with mul g) u)).
    { apply map_res_inr. eapply Forall_impl; [exact Hrows|].
      intros row Hrow. cbn beta. apply map2_bc_same. congruence. }
    rewrite E' in Hp. injection Hp as <-. reflexivity. }
  subst prod. rewrite map_map. unfold lags. rewrite Eu.
  apply map_seq_lookup. intros l row Hl. unfold routed. f_equal.
  rewrite Forall_forall in Hrows.
  assert (Hrl : length row = length (d_xi d))
    by (apply Hrows, list_elem_of_lookup; eauto).
  rewrite <- Hgl.
  replace (length g) with (length (zip_with mul g row))
    by (rewrite length_zip_with; lia).
  apply list_seq_lookup. intros k v Hk.
  apply lookup_zip_with_Some in Hk as (a & w & -> & Ea & Ew).
  rewrite Hgk in Ea by (apply lookup_lt_Some in Ew; lia).
  injection Ea as <-. unfold weight. rewrite Eu, Hl, Ew. reflexivity.
Qed.

Lemma contributions_routing (fluxes : list (list num * list (list num)))
    (pd : point_dict num) (kd : key * point num) :
  kd ∈ pd → aligned (snd kd) →
  Forall (fun tf => feeds (snd tf) pd) fluxes →
  contributions fluxes (snd kd) = routing fluxes (snd kd).
Proof.
  intros Hin Ha Hf. unfold contributions, routing.
  apply map_ext_Forall. eapply Forall_impl; [exact Hf|].
  intros tf Hfeed. cbn beta. unfold feeds in Hfeed.
  rewrite Forall_forall in Hfeed. destruct (Hfeed kd Hin) as [c Hc].
  unfold contribution_of. rewrite Hc.
  apply (contribution_routed _ _ _ Ha Hc).
Qed.

End Routing.

(** The emitted values are the convolution of the flux with the unit
    hydrograph.  Over any sequence of time steps, on a registry of steady
    outlets in the array layout whose arrays agree and with fluxes that
    reach every outlet, every call succeeds and the value emitted for an
    outlet at step [t] is what slot [t] of its initial ring held, plus, for
    each step [s] from 0 to [t] within the lags of the unit hydrograph and
    in the order of the steps, what the flux of step [s] sends to the
    outlet at lag [t - s]: the flux of each contributing cell times the
    weight of that cell at that lag, summed over the cells in the order of
    numpy's summation.  This holds in the arithmetic of the scalars as it
    is, rounding included. *)
Theorem emitted_is_convolution_sum {num : Type} `{Scalar num}
    (n : nat) (fluxes : list (list num * list (list num)))
    (pd : point_dict num) (td : time_dict num) :
  pd ≠ [] → Forall (fun kd => steady (snd kd)) pd →
  Forall (fun kd => aligned (snd kd)) pd →
  Forall (fun tf => feeds (snd tf) pd) fluxes →
  (length pd ≤ n)%nat →
  snd (convolve_seq pd td (plain_steps fluxes) (Shape1 n))
  = inr (map (fun t =>
                (Flow1 (map (fun kd => lagged (ring_of (snd kd))
                                         (routing fluxes (snd kd)) t) pd
                          ++ zeros (n - length pd)), None))
             (seq 0 (length fluxes))).
Proof.
  intros Hne Hs Ha Hf Hl.
  rewrite (emitted_lagged n fluxes pd td Hne Hs Hf Hl).
  f_equal. apply map_ext. intros t. f_equal. f_equal. f_equal.
  apply map_ext_Forall. apply Forall_forall. intros kd Hin.
  rewrite Forall_forall in Ha.
  rewrite (contributions_routing fluxes pd kd Hin (Ha kd Hin) Hf).
  reflexivity.
Qed.

Lemma step_in_closed_form_witness :
  convolve Sample.pd_ab0 Sample.td Sample.flux2 false (Shape1 3)
  = (map (fun kd => (fst kd, step_point Sample.flux2 (snd kd))) Sample.pd_ab0,
     set_out_state_time Sample.td None,
     inr (Flow1 (map (fun kd => step_emit Sample.flux2 (snd kd)) Sample.pd_ab0
                   ++ zeros (3 - length Sample.pd_ab0)), None)).
Proof.
  apply (step_in_closed_form Sample.pd_ab0 Sample.td Sample.flux2 3).
  - discriminate.
  - repeat apply Forall_cons_2; try apply Forall_nil_2;
      (split; [reflexivity|]; eexists _, _; split; [reflexivity|];
       split; [reflexivity|]; split; [reflexivity|discriminate]).
  - repeat apply Forall_cons_2; try apply Forall_nil_2;
      (eexists; vm_compute; reflexivity).
  - vm_compute. lia.
Defined.

Lemma emitted_is_convolution_sum_witness :
  snd (convolve_seq Sample.pd_ab0 Sample.td
         (plain_steps [([100%float], Sample.flux2);
                       ([101%float], Sample.flux_of 1)]) (Shape1 2))
  = inr (map (fun t =>
                (Flow1 (map (fun kd =>
                               lagged (ring_of (snd kd))
                                 (routing
                                    [([100%float], Sample.flux2);
                                     ([101%float], Sample.flux_of 1)] (snd kd))
                                 t) Sample.pd_ab0
                          ++ zeros (2 - length Sample.pd_ab0)), None))
             (seq 0 (length [([100%float], Sample.flux2);
                             ([101%float], Sample.flux_of 1)]))).
Proof.
  apply (emitted_is_convolution_sum 2
           [([100%float], Sample.flux2); ([101%float], Sample.flux_of 1)]
           Sample.pd_ab0 Sample.td).
  - discriminate.
  - repeat apply Forall_cons_2; try apply Forall_nil_2;
      (split; [reflexivity|]; eexists _, _; split; [reflexivity|];
       split; [reflexivity|]; split; [reflexivity|discriminate]).
  - repeat apply Forall_cons_2; try apply Forall_nil_2;
      (split; [reflexivity|]; intros u [= <-];
       repeat apply Forall_cons_2; try apply Forall_nil_2; reflexivity).
  - repeat apply Forall_cons_2; try apply Forall_nil_2;
      (repeat apply Forall_cons_2; try apply Forall_nil_2;
       (eexists; vm_compute; reflexivity)).
  - vm_compute. lia.
Defined.

(** ** What a call of [convolve] never changes *)

Section Invariants.
Context {num : Type} `{Scalar num}.

Lemma convolve_point_keeps (flux : list (list num)) (i : nat) (pt : key)
    (d : point num) (out : flow num) (st : option (state num)) :
  clear_ring (fst (convolve_point flux i pt d out st)) = clear_ring d ∧
  length <$> d_ring (fst (convolve_point flux i pt d out st))
  = length <$> d_ring d.
Proof.
  unfold convolve_point. destruct (d_ring d) as [r|] eqn:Er;
    [|cbn [fst]; rewrite Er; split; reflexivity].
  destruct (contribution flux d) as [e|c];
    [cbn [fst]; rewrite Er; split; reflexivity|].
  destruct (iadd r c) as [e|r1] eqn:E1;
    [cbn [fst]; rewrite Er; split; reflexivity|].
  apply iadd_length in E1.
  destruct (let* v := getitem r1 0 in store_flow i (set_ring d r1) v out)
    as [e|out'].
  { cbn [fst]. rewrite clear_ring_set_ring. cbn. rewrite E1.
    split; reflexivity. }
  cbn [d_now set_ring].
  destruct (setitem r1 (d_now d) zero) as [e|r2] eqn:E2.
  { cbn [fst]. rewrite clear_ring_set_ring. cbn. rewrite E1.
    split; reflexivity. }
  apply setitem_length in E2.
  destruct (shift r2 1) as [e|r3] eqn:E3.
  { cbn [fst]. rewrite !clear_ring_set_ring. cbn. rewrite E2, E1.
    split; reflexivity. }
  apply shift_length in E3.
  assert (G : clear_ring (set_ring (set_ring (set_ring d r1) r2) r3)
              = clear_ring d ∧
              length <$> d_ring (set_ring (set_ring (set_ring d r1) r2) r3)
              = Some (length r)).
  { rewrite !clear_ring_set_ring. cbn. rewrite E3, E2, E1. split; reflexivity. }
  destruct st as [s|]; [|exact G].
  destruct (store_state i pt r3 s); exact G.
Qed.

Lemma convolve_loop_keeps (flux : list (list num)) (pts : point_dict num) :
  ∀ (i : nat) (out : flow num) (st : option (state num)),
    skeleton (fst (convolve_loop flux i pts out st)) = skeleton pts ∧
    ring_lengths (fst (convolve_loop flux i pts out st)) = ring_lengths pts.
Proof.
  induction pts as [|[k d] pts IH]; intros i out st; [split; reflexivity|].
  cbn [convolve_loop].
  destruct (convolve_point_keeps flux i k d out st) as [K1 K2].
  destruct (convolve_point flux i k d out st) as [d' [e|[out' st']]];
    cbn [fst] in K1, K2.
  - cbn [fst]. unfold ring_lengths. rewrite !skeleton_cons. cbn [map snd].
    rewrite K1, K2. split; reflexivity.
  - destruct (IH (S i) out' st') as [I1 I2].
    destruct (convolve_loop flux (S i) pts out' st') as [rest' r].
    cbn [fst] in *. unfold ring_lengths in *. rewrite !skeleton_cons.
    cbn [map snd]. rewrite K1, K2, I1, I2. split; reflexivity.
Qed.

End Invariants.

(** Whether a call of [convolve] returns or raises, the registry it leaves
    has the same outlets under the same keys in the same order, every
    outlet is as it was in everything but its ring, and every ring has the
    length it had: outlets that had no ring still have none. *)
Theorem convolve_keeps_registry_shape {num : Type} `{Scalar num}
    (pd : point_dict num) (td : time_dict num) (flux : list (list num))
    (rs : bool) (shp : shape) :
  skeleton (fst (fst (convolve pd td flux rs shp))) = skeleton pd ∧
  ring_lengths (fst (fst (convolve pd td flux rs shp))) = ring_lengths pd.
Proof.
  unfold convolve. destruct pd as [|[k0 d0] rest]; [split; reflexivity|].
  destruct (convolve_first rs shp d0 td) as [td' [e|st]];
    [split; reflexivity|].
  destruct (convolve_loop_keeps flux ((k0, d0) :: rest) 0 (new_flow shp) st)
    as [K1 K2].
  destruct (convolve_loop flux 0 ((k0, d0) :: rest) (new_flow shp) st)
    as [pd' r].
  cbn [fst] in *. split; assumption.
Qed.

(** ** [shift] as a rotation *)

Section ShiftFacts.

Lemma shift_rotate {A : Type} (x : A) (l : list A) (k : Z) :
  shift (x :: l) k
  = inr (rotate (Z.to_nat (k mod Z.of_nat (length (x :: l)))) (x :: l)).
Proof.
  unfold shift, rotate. change (length (x :: l) =? 0)%nat with false.
  cbn iota. rewrite Nat.mod_small; [reflexivity|].
  assert (0 ≤ k mod Z.of_nat (length (x :: l)) < Z.of_nat (length (x :: l)))
    by (apply Z.mod_pos_bound; cbn [length]; lia).
  lia.
Qed.

Lemma rotate_rotate_mod {A : Type} (l : list A) (a b : Z) :
  l ≠ [] →
  rotate (Z.to_nat (b mod Z.of_nat (length l)))
    (rotate (Z.to_nat (a mod Z.of_nat (length l))) l)
  = rotate (Z.to_nat ((a + b) mod Z.of_nat (length l))) l.
Proof.
  intros Hne.
  assert (HL : 0 < Z.of_nat (length l)) by (destruct l; [congruence|cbn; lia]).
  set (L := Z.of_nat (length l)) in *.
  assert (Ha := Z.mod_pos_bound a L HL).
  assert (Hb := Z.mod_pos_bound b L HL).
  assert (Hab := Z.mod_pos_bound (a + b) L HL).
  apply list_eq_same_length with (n := length l);
    [rewrite !length_rotate; reflexivity|rewrite !length_rotate; reflexivity|].
  intros i y z Hi Hy Hz.
  rewrite lookup_rotate_r in Hy by (rewrite length_rotate; exact Hi).
  rewrite length_rotate in Hy.
  rewrite lookup_rotate_r in Hy
    by (apply rotate_nat_add_lt; lia).
  rewrite lookup_rotate_r in Hz by exact Hi.
  assert (E : rotate_nat_add (Z.to_nat (a mod L))
                (rotate_nat_add (Z.to_nat (b mod L)) i (length l)) (length l)
              = rotate_nat_add (Z.to_nat ((a + b) mod L)) i (length l)).
  { unfold rotate_nat_add. fold L. f_equal.
    assert (Hi' := Z.mod_pos_bound (Z.of_nat (Z.to_nat (b mod L)) + Z.of_nat i)
                     L HL).
    rewrite !Z2Nat.id by lia.
    rewrite Z.add_mod_idemp_r, Z.add_mod_idemp_l by lia.
    rewrite (Z.add_mod_idemp_l (a + b)) by lia.
    replace (a + (b mod L + Z.of_nat i)) with (b mod L + (a + Z.of_nat i))
      by lia.
    rewrite Z.add_mod_idemp_l by lia. f_equal. lia. }
  rewrite E in Hy. congruence.
Qed.

End ShiftFacts.

(** [shift] rotates.  On a list that is not empty, shifting by [a] and then
    by [b] is shifting by [a + b], for offsets of either sign; the offset 0
    and a full turn leave the list as it is, the offset 1 moves the head to
    the end and the offset -1 moves the last element to the front.  On the
    empty list every offset raises [ZeroDivisionError]. *)
Theorem shift_composes {A : Type} (x : A) (l : list A) (a b : Z) :
  (let* l' := shift (x :: l) a in shift l' b) = shift (x :: l) (a + b) ∧
  shift (x :: l) 0 = inr (x :: l) ∧
  shift (x :: l) (Z.of_nat (length (x :: l))) = inr (x :: l) ∧
  shift (x :: l) 1 = inr (l ++ [x]) ∧
  shift (l ++ [x]) (-1) = inr (x :: l) ∧
  shift (@nil A) a = inl ZeroDivisionError.
Proof.
  assert (Z0 : shift (x :: l) 0 = inr (x :: l)).
  { unfold shift. change (length (x :: l) =? 0)%nat with false. cbn iota.
    rewrite Z.mod_0_l by (cbn [length]; lia). cbn [Z.to_nat drop take].
    apply f_equal, app_nil_r. }
  assert (Zadd : ∀ (y : A) (k : list A) (c d : Z),
            (let* l' := shift (y :: k) c in shift l' d)
            = shift (y :: k) (c + d)).
  { intros y k c d. rewrite !shift_rotate. cbn [bind].
    destruct (rotate (Z.to_nat (c mod Z.of_nat (length (y :: k)))) (y :: k))
      as [|z l'] eqn:E.
    { apply (f_equal length) in E. rewrite length_rotate in E. discriminate. }
    rewrite shift_rotate. f_equal. rewrite <- E.
    assert (EL : length (z :: l') = length (y :: k))
      by (rewrite <- E; apply length_rotate).
    rewrite <- E in EL at 1. rewrite EL.
    apply rotate_rotate_mod. discriminate. }
  split; [apply Zadd|]. split; [exact Z0|]. split; [|split; [apply shift_one|]].
  - unfold shift. change (length (x :: l) =? 0)%nat with false. cbn iota.
    rewrite Z.mod_same by (cbn [length]; lia). cbn [Z.to_nat drop take].
    apply f_equal, app_nil_r.
  - split; [|reflexivity].
    assert (E1 := shift_one x l).
    assert (E2 := Zadd x l 1 (-1)). rewrite E1 in E2. cbn [bind] in E2.
    rewrite E2. exact Z0.
Qed.

(** ** The registry built by [make_point_dict] *)

Section RegistryFacts.
Context {num : Type} `{Scalar num}.

Lemma read_point_cell (f : uh_file num) (area : list (list num))
    (od : out_dict num) (rho : num) (cold : bool) (d : point num) :
  read_point f area od rho cold = inr d →
  (d_y d, d_x d) = outlet_cell f.
Proof.
  unfold read_point. destruct (units od) as [u|]; [|discriminate].
  cbn [bind ret]. destruct (scaled_uh f area u rho) as [e|m]; [discriminate|].
  cbn [bind]. destruct cold.
  - destruct m as [m|]; [|discriminate]. cbn [bind ret].
    intros E. injection E as <-. reflexivity.
  - cbn [bind ret]. intros E. injection E as <-. reflexivity.
Qed.

Lemma read_points_keys (area : list (list num)) (od : out_dict num)
    (rho : num) (cold : bool) (fs : list (uh_file num)) :
  ∀ acc pd : point_dict num,
    read_points fs area od rho cold acc = inr pd →
    keyed acc → NoDup (map fst acc) →
    map fst pd = keys_after (map fst acc) (map outlet_cell fs) ∧
    keyed pd ∧ NoDup (map fst pd).
Proof.
  induction fs as [|f fs IH]; intros acc pd E Hk Hn.
  - cbn in E. injection E as <-. auto.
  - cbn [read_points] in E.
    destruct (read_point f area od rho cold) as [e|d] eqn:Ed; [discriminate|].
    cbn [bind] in E. apply read_point_cell in Ed.
    apply IH in E.
    + destruct E as (E1 & E2 & E3). split; [|auto].
      rewrite E1. cbn [map keys_after]. rewrite od_set_keys, Ed.
      destruct (decide (outlet_cell f ∈ map fst acc)); reflexivity.
    + apply od_set_Forall; [reflexivity|exact Hk].
    + apply od_set_NoDup. exact Hn.
Qed.

Lemma skeleton_od_set_get (k : key) (d : point num) (r : list num)
    (pd : point_dict num) :
  od_get k pd = inr d → skeleton (od_set k (set_ring d r) pd) = skeleton pd.
Proof.
  induction pd as [|[k' d'] pd IH]; [discriminate|].
  cbn [od_get od_set]. destruct (decide (k = k')) as [->|Hne].
  - intros E. injection E as ->. rewrite !skeleton_cons, clear_ring_set_ring.
    reflexivity.
  - intros E. rewrite !skeleton_cons, IH by exact E. reflexivity.
Qed.

Lemma restore_ring_skeleton (k : key) (r : list num) (pd pd' : point_dict num) :
  restore_ring k r pd = inr pd' → skeleton pd' = skeleton pd.
Proof.
  unfold restore_ring. destruct (od_get k pd) as [e|d] eqn:E; [discriminate|].
  cbn [bind ret]. intros E'. injection E' as <-.
  apply skeleton_od_set_get. exact E.
Qed.

Lemma restore_grid_skeleton (g : list (list (list num))) (ks : list key) :
  ∀ pd pd' : point_dict num,
    restore_grid g ks pd = inr pd' → skeleton pd' = skeleton pd.
Proof.
  induction ks as [|k ks IH]; intros pd pd' E.
  - cbn in E. injection E as <-. reflexivity.
  - cbn [restore_grid] in E.
    destruct (getitem2 g (fst k) (snd k)) as [e|r]; [discriminate|].
    cbn [bind] in E.
    destruct (restore_ring k r pd) as [e|pd1] eqn:E1; [discriminate|].
    cbn [bind] in E. apply IH in E. apply restore_ring_skeleton in E1.
    congruence.
Qed.

Lemma restore_array_skeleton (xs ys : list Z) (cols : list (list num)) :
  ∀ (i : nat) (pd pd' : point_dict num),
    restore_array i cols xs ys pd = inr pd' → skeleton pd' = skeleton pd.
Proof.
  induction cols as [|r cols IH]; intros i pd pd' E.
  - cbn in E. injection E as <-. reflexivity.
  - cbn [restore_array] in E.
    destruct (getitem ys (Z.of_nat i)) as [e|yo]; [discriminate|].
    cbn [bind] in E.
    destruct (getitem xs (Z.of_nat i)) as [e|xo]; [discriminate|].
    cbn [bind] in E.
    destruct (restore_ring (yo, xo) r pd) as [e|pd1] eqn:E1; [discriminate|].
    cbn [bind] in E. apply IH in E. apply restore_ring_skeleton in E1.
    congruence.
Qed.

Lemma restore_skeleton (f : nc_file num) (pd pd' : point_dict num) :
  restore f pd = inr pd' → skeleton pd' = skeleton pd.
Proof.
  unfold restore. destruct (nc_streamflow f) as [len cols|len g].
  - destruct cols as [|c cols].
    + intros E. injection E as <-. reflexivity.
    + destruct (nc_xi f) as [xs|]; [|discriminate].
      destruct (nc_yi f) as [ys|]; [|discriminate]. cbn [bind ret].
      apply restore_array_skeleton.
  - apply restore_grid_skeleton.
Qed.

Lemma keyed_skeleton (pd pd' : point_dict num) :
  skeleton pd' = skeleton pd → keyed pd → keyed pd'.
Proof. apply keys_ok_skeleton. Qed.

Lemma keys_after_length (ks : list key) :
  ∀ acc : list key,
    (length (keys_after acc ks) ≤ length acc + length ks)%nat.
Proof.
  induction ks as [|k ks IH]; intros acc; cbn [keys_after length]; [lia|].
  specialize (IH (if decide (k ∈ acc) then acc else acc ++ [k])).
  destruct (decide (k ∈ acc)); [lia|].
  rewrite length_app in IH. cbn [length] in IH. lia.
Qed.

Lemma keyed_zip (pd : point_dict num) :
  keyed pd →
  zip (map (fun kd => d_y (snd kd)) pd) (map (fun kd => d_x (snd kd)) pd)
  = map fst pd.
Proof.
  induction 1 as [|[k d] pd Hk _ IH]; [reflexivity|].
  cbn [fst snd] in Hk. cbn [map fst snd]. rewrite Hk, <- IH. reflexivity.
Qed.

End RegistryFacts.

(** The registry holds one outlet per cell.  Whenever [make_point_dict]
    succeeds, with or without an initial state, the keys of the registry
    are the outlet cells of the files, each at the place of its first file
    and without repetition; every outlet is stored under its own cell; the
    outlet coordinate arrays of [out_dict] are exactly the keys, in the
    order of the registry, and the four outlet arrays are as long as the
    registry; [counts['points']] is the number of files, which the
    registry cannot exceed but may fall short of. *)
Theorem registry_is_keyed_by_cell {num : Type} `{Scalar num}
    (files : list (uh_file num)) (area : list (list num))
    (od od' : out_dict num) (c c' : counts) (rho : num)
    (initial_state : option (nc_file num)) (pd : point_dict num) :
  make_point_dict files area od c rho initial_state = inr (pd, od', c') →
  map fst pd = keys_after [] (map outlet_cell files) ∧
  NoDup (map fst pd) ∧ keyed pd ∧
  zip (outlet_ys od') (outlet_xs od') = map fst pd ∧
  length (lats od') = length pd ∧ length (lons od') = length pd ∧
  points c' = length files ∧ (length pd ≤ length files)%nat.
Proof.
  unfold make_point_dict. intros E.
  destruct (read_points files area od rho _ []) as [e|pd0] eqn:E0;
    [discriminate|].
  cbn [bind] in E.
  apply read_points_keys in E0; [|apply Forall_nil_2|apply NoDup_nil_2].
  destruct E0 as (K1 & K2 & K3). cbn [map] in K1.
  assert (Es : ∃ pd1, (match initial_state with
                       | None => ret pd0
                       | Some f => restore f pd0
                       end) = inr pd1 ∧ skeleton pd1 = skeleton pd0).
  { destruct initial_state as [f|].
    - destruct (restore f pd0) as [e|pd1] eqn:E1; [discriminate|].
      exists pd1. split; [reflexivity|]. apply (restore_skeleton f). exact E1.
    - exists pd0. split; reflexivity. }
  destruct Es as (pd1 & E1 & S1). rewrite E1 in E. cbn [bind ret] in E.
  injection E as <- <- <-.
  assert (Ek : map fst pd1 = map fst pd0)
    by (rewrite <- (skeleton_keys pd1), S1; apply skeleton_keys).
  assert (Hk : keyed pd1) by (apply (keyed_skeleton pd0); assumption).
  cbn [set_outlets set_points outlet_ys outlet_xs lats lons points].
  rewrite !length_map, Ek, <- K1.
  split; [reflexivity|]. split; [exact K3|]. split; [exact Hk|].
  split; [rewrite <- Ek; apply keyed_zip; exact Hk|].
  split; [reflexivity|]. split; [reflexivity|]. split; [reflexivity|].
  apply (f_equal length) in Ek. rewrite !length_map in Ek.
  assert (L := keys_after_length (map outlet_cell files) []).
  rewrite <- K1 in L. rewrite !length_map in L. cbn [length] in L. lia.
Qed.

Lemma registry_is_keyed_by_cell_witness :
  ∃ pd od' c',
    make_point_dict [Sample.file_a; Sample.file_b; Sample.file_a] Sample.area
      Sample.od new_counts 1000%float None = inr (pd, od', c') ∧
    map fst pd
    = keys_after [] (map outlet_cell
                       [Sample.file_a; Sample.file_b; Sample.file_a]) ∧
    NoDup (map fst pd) ∧ keyed pd ∧
    zip (outlet_ys od') (outlet_xs od') = map fst pd ∧
    length (lats od') = length pd ∧ length (lons od') = length pd ∧
    points c' = length [Sample.file_a; Sample.file_b; Sample.file_a] ∧
    (length pd ≤ length [Sample.file_a; Sample.file_b; Sample.file_a])%nat.
Proof.
  eexists _, _, _. split; [vm_compute; reflexivity|].
  eapply (registry_is_keyed_by_cell
            [Sample.file_a; Sample.file_b; Sample.file_a] Sample.area
            Sample.od _ new_counts _ 1000%float None).
  vm_compute. reflexivity.
Defined.

Section LastFile.
Context {num : Type} `{Scalar num}.

Lemma od_get_od_set_eq {V : Type} (k : key) (v : V) (m : list (key * V)) :
  od_get k (od_set k v m) = inr v.
Proof.
  induction m as [|[k' v'] m IH]; cbn [od_set od_get].
  - rewrite decide_True by reflexivity. reflexivity.
  - destruct (decide (k = k')) as [->|Hne]; cbn [od_get].
    + rewrite decide_True by reflexivity. reflexivity.
    + rewrite decide_False by exact Hne. exact IH.
Qed.

Lemma od_get_od_set_ne {V : Type} (k k' : key) (v : V) (m : list (key * V)) :
  k ≠ k' → od_get k (od_set k' v m) = od_get k m.
Proof.
  intros Hne. induction m as [|[k1 v1] m IH]; cbn [od_set od_get].
  - rewrite decide_False by exact Hne. reflexivity.
  - destruct (decide (k' = k1)) as [->|Hne1]; cbn [od_get].
    + rewrite !decide_False by exact Hne. reflexivity.
    + destruct (decide (k = k1)); [reflexivity|exact IH].
Qed.

Lemma read_points_app (area : list (list num)) (od : out_dict num)
    (rho : num) (cold : bool) (fs1 fs2 : list (uh_file num)) :
  ∀ acc : point_dict num,
    read_points (fs1 ++ fs2) area od rho cold acc
    = (let* acc1 := read_points fs1 area od rho cold acc in
       read_points fs2 area od rho cold acc1).
Proof.
  induction fs1 as [|f fs1 IH]; intros acc; [reflexivity|].
  cbn [app read_points].
  destruct (read_point f area od rho cold) as [e|d]; [reflexivity|].
  cbn [bind]. apply IH.
Qed.

Lemma read_points_other_cells (area : list (list num)) (od : out_dict num)
    (rho : num) (cold : bool) (k : key) (fs : list (uh_file num)) :
  Forall (fun g => outlet_cell g ≠ k) fs →
  ∀ acc pd : point_dict num,
    read_points fs area od rho cold acc = inr pd →
    od_get k pd = od_get k acc.
Proof.
  induction 1 as [|f fs Hf _ IH]; intros acc pd E.
  - cbn in E. injection E as <-. reflexivity.
  - cbn [read_points] in E.
    destruct (read_point f area od rho cold) as [e|d] eqn:Ed; [discriminate|].
    cbn [bind] in E. apply IH in E. rewrite E.
    apply od_get_od_set_ne. rewrite (read_point_cell _ _ _ _ _ _ Ed).
    intros Ek. apply Hf. symmetry. exact Ek.
Qed.

End LastFile.

(** When several unit-hydrograph files name the same outlet cell, the last
    of them is the one registered: after a cold start the entry under the
    cell of a file that no later file shares is the outlet read from that
    file, whatever earlier files said about the cell. *)
Theorem last_file_of_a_cell_wins {num : Type} `{Scalar num}
    (fs1 fs2 : list (uh_file num)) (f : uh_file num)
    (area : list (list num)) (od od' : out_dict num) (c c' : counts)
    (rho : num) (pd : point_dict num) :
  make_point_dict (fs1 ++ f :: fs2) area od c rho None = inr (pd, od', c') →
  Forall (fun g => outlet_cell g ≠ outlet_cell f) fs2 →
  od_get (outlet_cell f) pd = read_point f area od rho true.
Proof.
  unfold make_point_dict. intros E Hf.
  destruct (read_points (fs1 ++ f :: fs2) area od rho true []) as [e|pd0] eqn:E0;
    [discriminate|].
  cbn [bind ret] in E. injection E as <- _ _.
  rewrite read_points_app in E0.
  destruct (read_points fs1 area od rho true []) as [e|acc1]; [discriminate|].
  cbn [bind read_points] in E0.
  destruct (read_point f area od rho true) as [e|d] eqn:Ed; [discriminate|].
  cbn [bind] in E0.
  rewrite (read_points_other_cells _ _ _ _ _ _ Hf _ _ E0).
  rewrite (read_point_cell _ _ _ _ _ _ Ed). apply od_get_od_set_eq.
Qed.

Lemma last_file_of_a_cell_wins_witness :
  ∃ pd od' c',
    make_point_dict ([Sample.file_a; Sample.file_b] ++ Sample.file_p :: [])
      Sample.area Sample.od new_counts 1000%float None = inr (pd, od', c') ∧
    od_get (outlet_cell Sample.file_p) pd
    = read_point Sample.file_p Sample.area Sample.od 1000%float true.
Proof.
  eexists _, _, _. split; [vm_compute; reflexivity|].
  eapply (last_file_of_a_cell_wins [Sample.file_a; Sample.file_b] []
            Sample.file_p Sample.area Sample.od _ new_counts _ 1000%float).
  - vm_compute. reflexivity.
  - apply Forall_nil_2.
Defined.

(** ** Output files of the array layout *)

Section ArrayOutput.
Context {num : Type} `{Scalar num}.

Lemma keys_after_NoDup (ks : list key) :
  ∀ acc : list key,
    length (keys_after acc ks) = (length acc + length ks)%nat → NoDup ks.
Proof.
  induction ks as [|k ks IH]; intros acc E; [apply NoDup_nil_2|].
  cbn [keys_after length] in E.
  pose proof (keys_after_length ks
                (if decide (k ∈ acc) then acc else acc ++ [k])) as Hle.
  destruct (decide (k ∈ acc)) as [Hin|Hnin]; [lia|].
  rewrite length_app in Hle. cbn [length] in Hle.
  apply NoDup_cons. split.
  - intros Hk.
    assert (Hsub : ∀ acc', k ∈ acc' →
              (length (keys_after acc' ks) < length acc' + length ks)%nat).
    { clear -Hk. induction ks as [|k' ks IH]; intros acc' Ha;
        [apply elem_of_nil in Hk; contradiction|].
      cbn [keys_after length].
      apply elem_of_cons in Hk as [<-|Hk].
      - rewrite decide_True by exact Ha.
        pose proof (keys_after_length ks acc'). lia.
      - destruct (decide (k' ∈ acc')).
        + specialize (IH Hk acc' Ha). lia.
        + specialize (IH Hk (acc' ++ [k'])
                        ltac:(apply elem_of_app; left; exact Ha)).
          rewrite length_app in IH. cbn [length] in IH. lia. }
    specialize (Hsub (acc ++ [k]) ltac:(apply elem_of_app; right;
                                         apply list_elem_of_here)).
    rewrite length_app in Hsub. cbn [length] in Hsub. lia.
  - apply (IH (acc ++ [k])). rewrite length_app. cbn [length]. lia.
Qed.

(** The registry has fewer entries than there are files as soon as two
    files name one outlet cell. *)
Lemma registry_shorter (files : list (uh_file num)) (area : list (list num))
    (od od' : out_dict num) (c c' : counts) (rho : num)
    (ist : option (nc_file num)) (pd : point_dict num) :
  make_point_dict files area od c rho ist = inr (pd, od', c') →
  ¬ NoDup (map outlet_cell files) →
  od' = set_outlets od pd ∧ (length pd < length files)%nat.
Proof.
  unfold make_point_dict. intros E Hdup.
  apply bind_inr in E as (pd0 & Hpd0 & E).
  apply bind_inr in E as (pd1 & Hpd1 & E). cbn [ret] in E.
  injection E as <- <- <-. split; [reflexivity|].
  destruct (read_points_keys area od rho _ files [] pd0 Hpd0)
    as (Hkeys & _ & _); [apply Forall_nil_2|apply NoDup_nil_2|].
  cbn [map] in Hkeys.
  assert (Hl0 : (length pd0 < length files)%nat).
  { pose proof (keys_after_length (map outlet_cell files) []) as Hle.
    rewrite <- Hkeys, !length_map in Hle. cbn [length] in Hle.
    destruct (decide (length pd0 = length files)) as [Heq|]; [|lia].
    exfalso. apply Hdup. apply (keys_after_NoDup _ []).
    rewrite <- Hkeys, !length_map. cbn [length]. lia. }
  assert (Hl1 : length pd1 = length pd0).
  { destruct ist as [f|].
    - apply restore_skeleton in Hpd1.
      apply (f_equal (@length _)) in Hpd1. unfold skeleton in Hpd1.
      rewrite !length_map in Hpd1. exact Hpd1.
    - cbn [ret] in Hpd1. injection Hpd1 as <-. reflexivity. }
  lia.
Qed.

End ArrayOutput.

(** Two unit-hydrograph files that name one outlet cell make the output
    of the array layout impossible.  [init] takes the number of points of
    the files from the number of unit-hydrograph files, while the registry,
    and with it the outlet arrays of [out_dict], has one entry per outlet
    cell.  [write_output] then makes the dimension of the points longer
    than the outlet arrays and its first assignment of one of them is
    refused: no file is written, whatever the data and the time dictionary,
    and with the time entries at hand the exception is [IndexError]. *)
Theorem shared_outlet_cell_blocks_array_output {num : Type} `{Scalar num}
    (uh_files : list (uh_file num)) (g : grid_file num)
    (ist : option (nc_file num)) (o : outputs) (w : list message)
    (pd : point_dict num) (od : out_dict num) (a : list (list num))
    (shp : shape) (c : counts) :
  String.eqb (out_type o) "grid" = false →
  init uh_files g ist o = (w, inr (pd, od, a, shp, c)) →
  ¬ NoDup (map outlet_cell uh_files) →
  shp = Shape1 (length uh_files) ∧
  length (outlet_xs od) = length pd ∧
  (length pd < length uh_files)%nat ∧
  ∀ (data : out_data num) (td : time_dict num),
    (∀ f, write_output data od td shp ≠ inr f) ∧
    (is_Some (time_units td) → is_Some (time_cal td) →
     is_Some (time_long_name td) →
     is_Some (match data with
              | Data_state _ => out_state_time td
              | Data_flow _ => time_step td
              end) →
     write_output data od td shp = inl IndexError).
Proof.
  intros Hg Ei Hdup. unfold init in Ei.
  destruct (area_m2 g) as [[area|] w0]; rewrite Hg in Ei;
    [|discriminate]. cbn [ret] in Ei.
  destruct (make_point_dict uh_files area _ new_counts waterDensity ist)
    as [e|[[pd' od'] c']] eqn:Em; [discriminate|].
  cbn [bind ret] in Ei. injection Ei as <- <- <- <- <- <-.
  destruct (registry_shorter _ _ _ _ _ _ _ _ _ Em Hdup) as [-> Hlt].
  split; [reflexivity|].
  assert (Hxs : length (outlet_xs (set_outlets
                  {| units := if String.eqb (out_units o) "mass"
                              then Some "kg/m2*s"
                              else if String.eqb (out_units o) "volume"
                                   then Some "m3/s" else None;
                     longitudes := None; latitudes := None;
                     lats := []; lons := []; outlet_xs := [];
                     outlet_ys := [] |} pd')) = length pd')
    by (cbn [set_outlets outlet_xs]; apply length_map).
  split; [exact Hxs|]. split; [exact Hlt|].
  intros data td.
  assert (Hput : nc_put1 (length uh_files)
                   (outlet_xs (set_outlets
                      {| units := if String.eqb (out_units o) "mass"
                                  then Some "kg/m2*s"
                                  else if String.eqb (out_units o) "volume"
                                       then Some "m3/s" else None;
                         longitudes := None; latitudes := None;
                         lats := []; lons := []; outlet_xs := [];
                         outlet_ys := [] |} pd'))
                 = inl IndexError).
  { unfold nc_put1. rewrite Hxs.
    destruct (length pd' =? length uh_files)%nat eqn:En; [|reflexivity].
    apply Nat.eqb_eq in En. lia. }
  unfold write_output. rewrite Hput. split.
  - intros f.
    destruct (need (time_units td)); [discriminate|].
    destruct (need (time_cal td)); [discriminate|].
    destruct (need (time_long_name td)); [discriminate|].
    cbn [bind].
    destruct (match data with
              | Data_state _ => need (out_state_time td)
              | Data_flow _ => need (time_step td)
              end); discriminate.
  - intros [tu ->] [tc ->] [tl ->] Ht. cbn [need bind ret].
    destruct data; destruct Ht as [t ->]; reflexivity.
Qed.

Lemma shared_outlet_cell_blocks_array_output_witness :
  ∃ w pd od a shp c,
    init [Sample.file_a; Sample.file_b; Sample.file_a]
      {| area_units := "m2"; grid_area := Sample.area; xc := Sample.area;
         yc := Sample.area |} None
      {| out_type := "array"; out_units := "volume"; outputs_state := None |}
    = (w, inr (pd, od, a, shp, c)) ∧
    shp = Shape1 3 ∧ length (outlet_xs od) = length pd ∧
    (length pd < 3)%nat ∧
    ∀ (data : out_data float) (td : time_dict float),
      (∀ f, write_output data od td shp ≠ inr f) ∧
      (is_Some (time_units td) → is_Some (time_cal td) →
       is_Some (time_long_name td) →
       is_Some (match data with
                | Data_state _ => out_state_time td
                | Data_flow _ => time_step td
                end) →
       write_output data od td shp = inl IndexError).
Proof.
  eexists _, _, _, _, _, _. split; [vm_compute; reflexivity|].
  eapply (shared_outlet_cell_blocks_array_output
            [Sample.file_a; Sample.file_b; Sample.file_a]
            {| area_units := "m2"; grid_area := Sample.area;
               xc := Sample.area; yc := Sample.area |} None
            {| out_type := "array"; out_units := "volume";
               outputs_state := None |}).
  - reflexivity.
  - vm_compute. reflexivity.
  - intros Hnd. apply NoDup_cons in Hnd as [Hn _]. apply Hn.
    apply list_elem_of_further, list_elem_of_here.
Defined.

(** ** [init]: the area units and the output units *)

#[local] Set Warnings "-inexact-float".

Section InitFacts.
Context {num : Type} `{Scalar num}.

Lemma one_of_true (s : string) (l : list string) :
  one_of s l = true → In s l.
Proof.
  unfold one_of. intros E. apply existsb_exists in E as (x & Hin & Ex).
  apply String.eqb_eq in Ex. subst x. exact Hin.
Qed.

(** With known area units [init] prints nothing while it converts. *)
Lemma area_m2_known (g : grid_file num) :
  one_of (area_units g) known_area_units = true →
  ∃ a, area_m2 g = (Some a, []).
Proof.
  intros E. apply one_of_true in E. unfold area_m2.
  repeat (destruct E as [E|E]; [rewrite <- E; eexists; reflexivity|]).
  destruct E.
Qed.

End InitFacts.

(** The table of area units, in binary64.  Areas in square radians are
    multiplied by the Earth radius 6.37122e6 twice, areas in square
    kilometers by 1000 twice, areas in square miles (the unit [miles]
    included) by 1609.34 twice and areas in acres by 4046.856; areas in
    square meters are taken as they are.  In each case nothing is
    printed. *)
Theorem area_units_table (u : string) (a xs ys : list (list float)) :
  let g := {| area_units := u; grid_area := a; xc := xs; yc := ys |} in
  let twice (k : float) (v : float) := PrimFloat.mul (PrimFloat.mul v k) k in
  (In u ["rad2"; "radians2"; "radian2"; "rad^2"; "radians^2"; "rads^2";
         "radians squared"; "square-radians"] →
   area_m2 g = (Some (map (map (twice 6371220%float)) a), [])) ∧
  (In u ["m2"; "m^2"; "meters^2"; "meters2"; "square-meters";
         "meters squared"] →
   area_m2 g = (Some a, [])) ∧
  (In u ["km2"; "km^2"; "kilometers^2"; "kilometers2"; "square-kilometers";
         "kilometers squared"] →
   area_m2 g = (Some (map (map (twice 1000%float)) a), [])) ∧
  (In u ["mi2"; "mi^2"; "miles^2"; "miles"; "square-miles";
         "miles squared"] →
   area_m2 g = (Some (map (map (twice 1609.34%float)) a), [])) ∧
  (In u ["acres"; "ac"; "ac."] →
   area_m2 g
   = (Some (map (map (fun v => PrimFloat.mul v 4046.856%float)) a), [])).
Proof.
  intros g twice. subst g twice. unfold area_m2. cbn [area_units grid_area].
  repeat split; intros E;
    repeat (destruct E as [E|E]; [rewrite <- E; reflexivity|]);
    destruct E.
Qed.

(** Output units other than [mass] and [volume] leave [out_dict] without
    the entry ['units']: with known area units and at least one
    unit-hydrograph file [init] then raises [KeyError], having printed
    nothing; with no unit-hydrograph file and no initial state it returns
    an empty registry, on which every call of [convolve] raises
    [UnboundLocalError]. *)
Theorem init_needs_mass_or_volume {num : Type} `{Scalar num}
    (f : uh_file num) (fs : list (uh_file num)) (g : grid_file num)
    (initial_state : option (nc_file num)) (o : outputs) :
  one_of (area_units g) known_area_units = true →
  out_units o ≠ "mass" → out_units o ≠ "volume" →
  init (f :: fs) g initial_state o = ([], inl KeyError) ∧
  ∃ od a shp,
    init [] g None o = ([], inr ([], od, a, shp, new_counts)) ∧
    ∀ (td : time_dict num) flux rs shp',
      snd (convolve [] td flux rs shp') = inl UnboundLocalError.
Proof.
  intros Hk Hm Hv. destruct (area_m2_known g Hk) as [a Ha].
  apply String.eqb_neq in Hm, Hv.
  unfold init. rewrite Ha, Hm, Hv.
  split.
  - destruct (String.eqb (out_type o) "grid"); reflexivity.
  - destruct (String.eqb (out_type o) "grid"); eexists _, _, _;
      (split; [reflexivity|intros; reflexivity]).
Qed.

Lemma init_needs_mass_or_volume_witness :
  init (Sample.file_a :: [Sample.file_b])
    {| area_units := "km2"; grid_area := Sample.area; xc := Sample.area;
       yc := Sample.area |} None
    {| out_type := "array"; out_units := "energy"; outputs_state := None |}
  = ([], inl KeyError) ∧
  ∃ od a shp,
    init []
      {| area_units := "km2"; grid_area := Sample.area; xc := Sample.area;
         yc := Sample.area |} None
      {| out_type := "array"; out_units := "energy"; outputs_state := None |}
    = ([], inr ([], od, a, shp, new_counts)) ∧
    ∀ (td : time_dict float) flux rs shp',
      snd (convolve [] td flux rs shp') = inl UnboundLocalError.
Proof.
  apply (init_needs_mass_or_volume Sample.file_a [Sample.file_b]
           {| area_units := "km2"; grid_area := Sample.area;
              xc := Sample.area; yc := Sample.area |} None
           {| out_type := "array"; out_units := "energy";
              outputs_state := None |}).
  - reflexivity.
  - discriminate.
  - discriminate.
Defined.

(** ** [run] as it is written *)

(** A run stops in its first iteration.  With no flux file [run] returns
    at once and nothing is counted.  With at least one, the first file is
    counted as a time step and then an exception ends the run, so that the
    other files are never opened: [TypeError] when the configuration names
    no state dates, the exception of the flux combination when runoff and
    baseflow do not fit together, and otherwise the [NameError] of the
    statement that stands before the call of [convolve]. *)
Theorem run_stops_at_first_file {num : Type} `{Scalar num}
    (ff : flux_file num) (rest : list (flux_file num)) (o : outputs)
    (c : counts) :
  run [] o c
  = ({| run_time_dict :=
          {| time_step := None; time_units := None; time_cal := None;
             time_long_name := None; time_output_frequency := None;
             out_state_time := None |};
        run_counts := c; run_div := None; run_log := [] |}, inr tt) ∧
  run (ff :: rest) o c = run [ff] o c ∧
  timesteps (run_counts (fst (run (ff :: rest) o c))) = S (timesteps c) ∧
  snd (run (ff :: rest) o c)
  = match outputs_state o with
    | None => inl TypeError
    | Some _ =>
        match combine (Runoff ff) (Baseflow ff)
                (fst (fst (flux_div (output_frequency ff) (output_mode ff)
                             (runoff_units ff)))) with
        | inl e => inl e
        | inr _ => inl NameError
        end
    end.
Proof.
  split; [reflexivity|]. unfold run. rewrite !run_loop_cons.
  split; [reflexivity|]. unfold run_step, read_flux, first_file.
  destruct (outputs_state o) as [dates|]; [|split; reflexivity].
  cbn [Nat.eqb].
  destruct (flux_div (output_frequency ff) (output_mode ff) (runoff_units ff))
    as [[dv w] fr].
  cbn [fst snd]. unfold combine.
  destruct (add_fluxes (Runoff ff) (Baseflow ff)) as [e|g];
    split; reflexivity.
Qed.

(** ** Lists of file names in the configuration *)

Section SplitJoin.

Lemma append_empty_r (s : string) : String.append s "" = s.
Proof. induction s as [|c s IH]; cbn; [reflexivity|rewrite IH; reflexivity]. Qed.

Lemma append_assoc (s t u : string) :
  String.append (String.append s t) u = String.append s (String.append t u).
Proof. induction s as [|c s IH]; cbn; [reflexivity|rewrite IH; reflexivity]. Qed.

Lemma contains_cons (sub : string) (c : Ascii.ascii) (s : string) :
  contains sub (String c s) = false →
  String.prefix sub (String c s) = false ∧ contains sub s = false.
Proof.
  cbn [contains]. destruct (String.prefix sub (String c s)); [discriminate|].
  intros E. split; [reflexivity|exact E].
Qed.

(** An occurrence of the separator cannot start inside a piece that holds
    none, even when the separator follows the piece. *)
Lemma prefix_sep_step (c : Ascii.ascii) (s rest : string) :
  String.prefix ", " (String c s) = false →
  String.prefix ", " (String c (String.append s (String.append ", " rest)))
  = false.
Proof.
  cbn [String.prefix].
  match goal with
  | |- context [Ascii.ascii_dec ?a c] => destruct (Ascii.ascii_dec a c)
  end; [|intros _; reflexivity].
  destruct s as [|c' s]; [intros _; reflexivity|].
  cbn [String.append String.prefix].
  match goal with
  | |- context [Ascii.ascii_dec ?a c'] => destruct (Ascii.ascii_dec a c')
  end; [destruct s; discriminate|intros _; reflexivity].
Qed.

Lemma split_from_piece (s : string) :
  ∀ piece rest : string,
    contains ", " s = false →
    split_from ", " 0 piece (String.append s (String.append ", " rest))
    = String.append piece s :: split_from ", " 0 "" rest.
Proof.
  induction s as [|c s IH]; intros piece rest Hc.
  - rewrite append_empty_r. destruct rest; reflexivity.
  - apply contains_cons in Hc as [Hp Hc].
    change (String.append (String c s) (String.append ", " rest))
      with (String c (String.append s (String.append ", " rest))).
    cbn [split_from].
    rewrite (prefix_sep_step c s rest Hp), IH by exact Hc.
    rewrite append_assoc. reflexivity.
Qed.

Lemma split_from_last (s : string) :
  ∀ piece : string,
    contains ", " s = false →
    split_from ", " 0 piece s = [String.append piece s].
Proof.
  induction s as [|c s IH]; intros piece Hc.
  - rewrite append_empty_r. reflexivity.
  - apply contains_cons in Hc as [Hp Hc]. cbn [split_from].
    rewrite Hp, IH by exact Hc. rewrite append_assoc. reflexivity.
Qed.

Lemma split_from_join (l : list string) :
  ∀ s : string,
    Forall (fun s => contains ", " s = false) (s :: l) →
    split_from ", " 0 "" (join ", " (s :: l)) = s :: l.
Proof.
  induction l as [|s2 l IH]; intros s Hf.
  - cbn [join]. apply split_from_last. inversion Hf; assumption.
  - inversion Hf as [|? ? Hs Hf']; subst.
    change (join ", " (s :: s2 :: l))
      with (String.append s (String.append ", " (join ", " (s2 :: l)))).
    rewrite split_from_piece by exact Hs. cbn [String.append].
    rewrite IH by exact Hf'. reflexivity.
Qed.

End SplitJoin.

(** A list of names survives being written with [", ".join] and read with
    [split(', ')], as the list of flux files does between [write_restart]
    and [process_config_file], when it is not empty and no name holds a
    comma followed by a blank.  The empty list does not: it comes back as
    the list of one empty name. *)
Theorem split_join_round_trip (s : string) (l : list string) :
  Forall (fun s => contains ", " s = false) (s :: l) →
  split ", " (join ", " (s :: l)) = inr (s :: l) ∧
  split ", " (join ", " []) = inr [""].
Proof.
  intros Hf. split; [|reflexivity]. unfold split.
  change (String.eqb ", " "") with false. cbn iota. unfold ret. f_equal.
  apply split_from_join. exact Hf.
Qed.

Lemma split_join_round_trip_witness :
  split ", " (join ", " ("flux.1990-01-01.nc" :: ["flux.1990-01-02.nc"]))
  = inr ("flux.1990-01-01.nc" :: ["flux.1990-01-02.nc"]) ∧
  split ", " (join ", " []) = inr [""].
Proof.
  apply (split_join_round_trip "flux.1990-01-01.nc" ["flux.1990-01-02.nc"]).
  repeat apply Forall_cons_2; try apply Forall_nil_2; reflexivity.
Defined.

(** ** [process_config_file] *)

Section ConfigFacts.

Lemma restart_get_other (get : string → string → option string)
    (state_name : string) (flux_files : list string) (s o : string) :
  (String.eqb s "Paths" && String.eqb o "initial_state"
   || String.eqb s "Paths" && String.eqb o "flux_files") = false →
  write_restart get state_name flux_files s o = get s o.
Proof.
  unfold write_restart, cfg_set. intros E.
  apply orb_false_elim in E as [E1 E2]. rewrite E1, E2. reflexivity.
Qed.

End ConfigFacts.

(** A run restarted from the restart configuration goes on with the flux
    files that were left.  If a configuration can be processed, then so
    can the one [write_restart] makes of it for a state file and at least
    two remaining flux files whose names hold no comma followed by a
    blank: the same warnings are printed, the flux files are the remaining
    ones in their order, the initial state is the state file if it exists
    and none otherwise, and every other setting is as before. *)
Theorem restart_configuration_round_trip (env : config_env)
    (w : list config_message) (s : settings) (state_name f1 f2 : string)
    (rest : list string) :
  process_config_file env = (w, inr s) →
  Forall (fun name => contains ", " name = false) (f1 :: f2 :: rest) →
  process_config_file (restart_env env state_name (f1 :: f2 :: rest))
  = (w, inr {| set_uh_files := set_uh_files s;
               set_flux_files := f1 :: f2 :: rest;
               set_grid_file := set_grid_file s;
               set_out_path := set_out_path s;
               set_initial_state :=
                 if os_path_exists env state_name then Some state_name
                 else None;
               set_outputs := set_outputs s;
               set_case_name := set_case_name s;
               set_verbose := set_verbose s |}).
Proof.
  intros E Hf. unfold process_config_file in *.
  cbn [restart_env cfg_get cfg_getboolean os_path_exists os_makedirs
       sorted_glob].
  set (get' := write_restart (cfg_get env) state_name (f1 :: f2 :: rest)).
  change (get' "Outputs" "out_type") with (cfg_get env "Outputs" "out_type").
  change (get' "Outputs" "out_units") with (cfg_get env "Outputs" "out_units").
  change (get' "Outputs" "state") with (cfg_get env "Outputs" "state").
  change (get' "Outputs" "case_name") with (cfg_get env "Outputs" "case_name").
  change (get' "Paths" "uh_files") with (cfg_get env "Paths" "uh_files").
  change (get' "Paths" "grid_file") with (cfg_get env "Paths" "grid_file").
  change (get' "Paths" "out_path") with (cfg_get env "Paths" "out_path").
  change (get' "Paths" "flux_files")
    with (Some (join ", " (f1 :: f2 :: rest))).
  change (get' "Paths" "initial_state") with (Some state_name).
  cbv beta iota.
  change (split ", " (join ", " (f1 :: f2 :: rest)))
    with (ret (A := list string)
            (split_from ", " 0 "" (join ", " (f1 :: f2 :: rest)))).
  rewrite (split_from_join _ _ Hf). cbn [ret length Nat.ltb Nat.leb].
  destruct (cfg_get env "Outputs" "out_type") as [ot|];
    destruct (cfg_get env "Outputs" "out_units") as [ou|];
    (destruct (cfg_get env "Paths" "uh_files") as [up|]; [|discriminate];
     destruct (cfg_get env "Paths" "flux_files") as [fl|]; [|discriminate];
     destruct (split ", " fl) as [e|f]; [discriminate|];
     destruct (if (1 <? length f)%nat then ret f
               else match f with
                    | f0 :: _ => ret (sorted_glob env f0)
                    | [] => raise IndexError
                    end) as [e|ffs]; [discriminate|];
     destruct (cfg_get env "Paths" "grid_file") as [gf|]; [|discriminate];
     destruct (cfg_get env "Paths" "out_path") as [op|]; [|discriminate];
     destruct (negb (os_path_exists env op) && negb (os_makedirs env op));
       [discriminate|];
     injection E as <- <-; reflexivity).
Qed.

Lemma restart_configuration_round_trip_witness :
  ∃ w s,
    process_config_file ConfigSample.env = (w, inr s) ∧
    process_config_file
      (restart_env ConfigSample.env "out/state_2.nc"
         ("flux/3.nc" :: "flux/4.nc" :: []))
    = (w, inr {| set_uh_files := set_uh_files s;
                 set_flux_files := "flux/3.nc" :: "flux/4.nc" :: [];
                 set_grid_file := set_grid_file s;
                 set_out_path := set_out_path s;
                 set_initial_state :=
                   if os_path_exists ConfigSample.env "out/state_2.nc"
                   then Some "out/state_2.nc" else None;
                 set_outputs := set_outputs s;
                 set_case_name := set_case_name s;
                 set_verbose := set_verbose s |}).
Proof.
  eexists _, _. split; [vm_compute; reflexivity|].
  eapply (restart_configuration_round_trip ConfigSample.env _ _
            "out/state_2.nc" "flux/3.nc" "flux/4.nc" []).
  - vm_compute. reflexivity.
  - repeat apply Forall_cons_2; try apply Forall_nil_2; reflexivity.
Defined.

Section ConfigOutcome.

Lemma split_from_not_nil (sep : string) (s : string) :
  ∀ (skip : nat) (piece : string), split_from sep skip piece s ≠ [].
Proof.
  induction s as [|c s IH]; intros skip piece; cbn [split_from];
    [discriminate|].
  destruct skip; [|apply IH].
  destruct (String.prefix sep (String c s)); [discriminate|apply IH].
Qed.

Lemma split_not_nil (s : string) (f : list string) :
  split ", " s = inr f → f ≠ [].
Proof.
  unfold split. change (String.eqb ", " "") with false. cbn iota.
  intros E. injection E as <-. apply split_from_not_nil.
Qed.

Lemma config_outcome (env : config_env) :
  match cfg_get env "Paths" "uh_files", cfg_get env "Paths" "flux_files" with
  | Some up, Some fl =>
      match cfg_get env "Paths" "grid_file", cfg_get env "Paths" "out_path"
      with
      | Some gf, Some op =>
          if os_path_exists env op || os_makedirs env op
          then ∃ s, snd (process_config_file env) = inr s
          else snd (process_config_file env) = inl (Raised NameError)
      | _, _ => snd (process_config_file env) = inl (Raised NameError)
      end
  | _, _ => snd (process_config_file env) = inl ConfigParser_Error
  end.
Proof.
  unfold process_config_file.
  destruct (cfg_get env "Outputs" "out_type") as [ot|];
    destruct (cfg_get env "Outputs" "out_units") as [ou|];
    (destruct (cfg_get env "Paths" "uh_files") as [up|]; [|reflexivity];
     destruct (cfg_get env "Paths" "flux_files") as [fl|]; [|reflexivity];
     destruct (split ", " fl) as [e|f] eqn:Esp;
     [unfold split in Esp; discriminate|];
     apply split_not_nil in Esp;
     destruct f as [|f0 f]; [congruence|];
     destruct (1 <? length (f0 :: f))%nat; unfold ret; cbv beta iota zeta;
     (destruct (cfg_get env "Paths" "grid_file") as [gf|];
      [|destruct (cfg_get env "Paths" "out_path"); reflexivity];
      destruct (cfg_get env "Paths" "out_path") as [op|]; [|reflexivity];
      destruct (os_path_exists env op); destruct (os_makedirs env op);
      cbn [negb andb orb snd]; try reflexivity; eexists; reflexivity)).
Qed.

End ConfigOutcome.

(** What a configuration needs.  [process_config_file] returns exactly
    when the options [uh_files], [flux_files], [grid_file] and [out_path]
    of the section [Paths] can be read and the output path exists or can
    be made; nothing in the sections [Options] and [Outputs] and no
    initial state is needed.  When the unit-hydrograph and flux files are
    given and the grid file or the output path is the obstacle, what is
    raised is [NameError]. *)
Theorem config_succeeds_iff (env : config_env) :
  ((∃ s, snd (process_config_file env) = inr s) ↔
   (∃ up fl gf op,
      cfg_get env "Paths" "uh_files" = Some up ∧
      cfg_get env "Paths" "flux_files" = Some fl ∧
      cfg_get env "Paths" "grid_file" = Some gf ∧
      cfg_get env "Paths" "out_path" = Some op ∧
      (os_path_exists env op = true ∨ os_makedirs env op = true))) ∧
  (is_Some (cfg_get env "Paths" "uh_files") →
   is_Some (cfg_get env "Paths" "flux_files") →
   (∀ s, snd (process_config_file env) ≠ inr s) →
   snd (process_config_file env) = inl (Raised NameError)).
Proof.
  assert (O := config_outcome env).
  destruct (cfg_get env "Paths" "uh_files") as [up|].
  2: { rewrite O. split; [split|].
       - intros [s Es]. discriminate.
       - intros (? & ? & ? & ? & ? & _). discriminate.
       - intros [? ?]. discriminate. }
  destruct (cfg_get env "Paths" "flux_files") as [fl|].
  2: { rewrite O. split; [split|].
       - intros [s Es]. discriminate.
       - intros (? & ? & ? & ? & _ & ? & _). discriminate.
       - intros _ [? ?]. discriminate. }
  destruct (cfg_get env "Paths" "grid_file") as [gf|].
  2: { assert (O' : snd (process_config_file env) = inl (Raised NameError))
         by (destruct (cfg_get env "Paths" "out_path"); exact O).
       rewrite O'. split; [split|].
       - intros [s Es]. discriminate.
       - intros (? & ? & ? & ? & _ & _ & ? & _). discriminate.
       - reflexivity. }
  destruct (cfg_get env "Paths" "out_path") as [op|].
  2: { rewrite O. split; [split|].
       - intros [s Es]. discriminate.
       - intros (? & ? & ? & ? & _ & _ & _ & ? & _). discriminate.
       - reflexivity. }
  destruct (os_path_exists env op) eqn:Ex; destruct (os_makedirs env op) eqn:Em;
    cbn [orb] in O.
  1-3: (split; [split|];
        [intros _; exists up, fl, gf, op; rewrite Ex, Em; auto 10
        |intros _; exact O
        |intros _ _ Hn; destruct O as [s Es]; exfalso; exact (Hn s Es)]).
  rewrite O. split; [split|].
  - intros [s Es]. discriminate.
  - intros (? & ? & ? & op' & _ & _ & _ & Eo & Hx). injection Eo as <-.
    rewrite Ex, Em in Hx. destruct Hx; discriminate.
  - reflexivity.
Qed.

Section ConfigSettings.

Lemma config_settings (env : config_env) (w : list config_message)
    (s : settings) :
  process_config_file env = (w, inr s) →
  set_outputs s
  = {| out_type := match cfg_get env "Outputs" "out_type" with
                   | Some t => t
                   | None => "array"
                   end;
       out_units := match cfg_get env "Outputs" "out_units" with
                    | Some u => u
                    | None => "volume"
                    end;
       outputs_state := match cfg_get env "Outputs" "state" with
                        | Some st => Some (split_from ", " 0 "" st)
                        | None => None
                        end |} ∧
  set_initial_state s
  = match cfg_get env "Paths" "initial_state" with
    | Some f => if os_path_exists env f then Some f else None
    | None => None
    end ∧
  w = match cfg_get env "Outputs" "out_type" with
      | Some _ => []
      | None => [Out_type_not_found]
      end ++
      match cfg_get env "Outputs" "out_units" with
      | Some _ => []
      | None => [Out_units_not_found]
      end.
Proof.
  unfold process_config_file.
  destruct (cfg_get env "Outputs" "out_type") as [ot|];
    destruct (cfg_get env "Outputs" "out_units") as [ou|];
    (destruct (cfg_get env "Paths" "uh_files") as [up|]; [|discriminate];
     destruct (cfg_get env "Paths" "flux_files") as [fl|]; [|discriminate];
     destruct (split ", " fl) as [e|f]; [discriminate|];
     destruct (if (1 <? length f)%nat then ret f
               else match f with
                    | f0 :: _ => ret (sorted_glob env f0)
                    | [] => raise IndexError
                    end) as [e|ffs]; [discriminate|];
     destruct (cfg_get env "Paths" "grid_file") as [gf|]; [|discriminate];
     destruct (cfg_get env "Paths" "out_path") as [op|]; [|discriminate];
     destruct (negb (os_path_exists env op) && negb (os_makedirs env op));
       [discriminate|];
     intros E; injection E as <- <-;
     cbn [set_outputs set_initial_state];
     destruct (cfg_get env "Outputs" "state"); repeat split; reflexivity).
Qed.

End ConfigSettings.

(** The settings of a configuration that can be processed.  A missing
    output type is taken as [array] and missing output units as [volume],
    each with its warning and no other.  The state dates are absent
    exactly when the option [state] is.  The initial state is the
    configured file exactly when that file exists: a configured file that
    does not exist is dropped without a word, and the run starts cold. *)
Theorem settings_of_a_configuration (env : config_env)
    (w : list config_message) (s : settings) :
  process_config_file env = (w, inr s) →
  (∀ f, set_initial_state s = Some f ↔
        cfg_get env "Paths" "initial_state" = Some f ∧
        os_path_exists env f = true) ∧
  (cfg_get env "Outputs" "out_type" = None →
   out_type (set_outputs s) = "array") ∧
  (cfg_get env "Outputs" "out_units" = None →
   out_units (set_outputs s) = "volume") ∧
  (∀ m, m ∈ w ↔
        (m = Out_type_not_found ∧ cfg_get env "Outputs" "out_type" = None) ∨
        (m = Out_units_not_found ∧ cfg_get env "Outputs" "out_units" = None)) ∧
  (outputs_state (set_outputs s) = None ↔
   cfg_get env "Outputs" "state" = None).
Proof.
  intros E. apply config_settings in E as (Eo & Ei & Ew).
  rewrite Eo, Ei, Ew. cbn [out_type out_units outputs_state].
  split; [|split; [|split; [|split]]].
  - intros f. destruct (cfg_get env "Paths" "initial_state") as [f'|].
    + destruct (os_path_exists env f') eqn:Ex.
      * split; [intros E; injection E as <-; auto|intros [E _]; exact E].
      * split; [discriminate|]. intros [E Ex']. injection E as <-. congruence.
    + split; [discriminate|intros [E _]; discriminate].
  - intros ->. reflexivity.
  - intros ->. reflexivity.
  - intros m. rewrite elem_of_app.
    destruct (cfg_get env "Outputs" "out_type");
      destruct (cfg_get env "Outputs" "out_units");
      rewrite ?elem_of_nil, ?list_elem_of_singleton;
      intuition (try discriminate; auto).
  - destruct (cfg_get env "Outputs" "state"); split; auto; discriminate.
Qed.

Lemma settings_of_a_configuration_witness :
  ∃ w s,
    process_config_file ConfigSample.env = (w, inr s) ∧
    (∀ f, set_initial_state s = Some f ↔
          cfg_get ConfigSample.env "Paths" "initial_state" = Some f ∧
          os_path_exists ConfigSample.env f = true) ∧
    (cfg_get ConfigSample.env "Outputs" "out_type" = None →
     out_type (set_outputs s) = "array") ∧
    (cfg_get ConfigSample.env "Outputs" "out_units" = None →
     out_units (set_outputs s) = "volume") ∧
    (∀ m, m ∈ w ↔
          (m = Out_type_not_found ∧
           cfg_get ConfigSample.env "Outputs" "out_type" = None) ∨
          (m = Out_units_not_found ∧
           cfg_get ConfigSample.env "Outputs" "out_units" = None)) ∧
    (outputs_state (set_outputs s) = None ↔
     cfg_get ConfigSample.env "Outputs" "state" = None).
Proof.
  eexists _, _. split; [vm_compute; reflexivity|].
  eapply (settings_of_a_configuration ConfigSample.env).
  vm_compute. reflexivity.
Defined.

(** Without state dates no run gets anywhere.  When the configuration has
    no option [state], [process_config_file] sets [outputs['state']] to
    [False], and [run] then raises [TypeError] on its first flux file,
    having counted it, whatever the file holds. *)
Theorem run_needs_state_dates {num : Type} `{Scalar num}
    (env : config_env) (w : list config_message) (s : settings)
    (ff : flux_file num) (rest : list (flux_file num)) (c : counts) :
  cfg_get env "Outputs" "state" = None →
  process_config_file env = (w, inr s) →
  snd (run (ff :: rest) (set_outputs s) c) = inl TypeError ∧
  timesteps (run_counts (fst (run (ff :: rest) (set_outputs s) c)))
  = S (timesteps c) ∧
  run_div (fst (run (ff :: rest) (set_outputs s) c)) = None.
Proof.
  intros En E. apply config_settings in E as (Eo & _ & _).
  rewrite En in Eo. unfold run. rewrite run_loop_cons.
  unfold run_step, read_flux. rewrite Eo. cbn [outputs_state].
  repeat split; reflexivity.
Qed.

Lemma run_needs_state_dates_witness :
  ∃ s,
    ConfigSample.settings_of ConfigSample.env = Some s ∧
    ∀ (ff : flux_file float) (rest : list (flux_file float)) (c : counts),
      snd (run (ff :: rest) (set_outputs s) c) = inl TypeError ∧
      timesteps (run_counts (fst (run (ff :: rest) (set_outputs s) c)))
      = S (timesteps c) ∧
      run_div (fst (run (ff :: rest) (set_outputs s) c)) = None.
Proof.
  eexists. split; [vm_compute; reflexivity|]. intros ff rest c.
  eapply (run_needs_state_dates ConfigSample.env _ _ ff rest c).
  - reflexivity.
  - vm_compute. reflexivity.
Defined.

(** * Properties of the pour-point search *)

Section PourFacts.
Context {num : Type} `{Scalar num} `{Ordered num}.

Lemma getitem_of_nat {A : Type} (l : list A) (i : nat) (a : A) :
  getitem l (Z.of_nat i) = inr a ↔ l !! i = Some a.
Proof.
  split; [|apply getitem_nat].
  intros E. apply getitem_inr in E as (j & Ej & El).
  apply np_index_inr in Ej as [_ Ej]. rewrite Ej in El by lia.
  rewrite Nat2Z.id in El. exact El.
Qed.

Lemma getitem2_of_nat {A : Type} (g : list (list A)) (r c : nat) (a : A) :
  getitem2 g (Z.of_nat r) (Z.of_nat c) = inr a ↔
  ∃ row, g !! r = Some row ∧ row !! c = Some a.
Proof.
  unfold getitem2. split.
  - destruct (getitem g (Z.of_nat r)) as [e|row] eqn:E; [discriminate|].
    cbn [bind]. intros E'. exists row.
    split; apply getitem_of_nat; assumption.
  - intros (row & Er & Ec). apply getitem_of_nat in Er, Ec.
    rewrite Er. cbn [bind]. exact Ec.
Qed.

(** The cells found for an id are the cells that hold it. *)
Lemma row_hits_spec (j : Z) (r : nat) (row : list Z) :
  ∀ (c0 : nat) (rc : nat * nat),
    rc ∈ row_hits j r c0 row ↔
    fst rc = r ∧ (c0 ≤ snd rc)%nat ∧ row !! (snd rc - c0)%nat = Some j.
Proof.
  induction row as [|v row IH]; intros c0 [r' c']; cbn [row_hits fst snd].
  - rewrite elem_of_nil. split; [contradiction|]. intros (_ & _ & E).
    discriminate.
  - destruct (v =? j) eqn:Ev.
    + apply Z.eqb_eq in Ev. rewrite elem_of_cons, IH. cbn [fst snd]. split.
      * intros [E|(E1 & E2 & E3)].
        -- injection E as -> ->. rewrite Nat.sub_diag, Ev.
           split; [reflexivity|]. split; [lia|reflexivity].
        -- split; [exact E1|]. split; [lia|].
           replace (c' - c0)%nat with (S (c' - S c0)) by lia. exact E3.
      * intros (E1 & E2 & E3). destruct (decide (c' = c0)) as [->|Hne].
        -- left. congruence.
        -- right. split; [exact E1|]. split; [lia|].
           replace (c' - c0)%nat with (S (c' - S c0)) in E3 by lia. exact E3.
    + apply Z.eqb_neq in Ev. rewrite IH. cbn [fst snd]. split.
      * intros (E1 & E2 & E3). split; [exact E1|]. split; [lia|].
        replace (c' - c0)%nat with (S (c' - S c0)) by lia. exact E3.
      * intros (E1 & E2 & E3). destruct (decide (c' = c0)) as [->|Hne].
        -- rewrite Nat.sub_diag in E3. cbn in E3. congruence.
        -- split; [exact E1|]. split; [lia|].
           replace (c' - c0)%nat with (S (c' - S c0)) in E3 by lia. exact E3.
Qed.

Lemma hits_spec (j : Z) (g : list (list Z)) :
  ∀ (r0 : nat) (rc : nat * nat),
    rc ∈ hits j r0 g ↔
    (r0 ≤ fst rc)%nat ∧
    ∃ row, g !! (fst rc - r0)%nat = Some row ∧ row !! snd rc = Some j.
Proof.
  induction g as [|row g IH]; intros r0 [r c]; cbn [hits fst snd].
  - rewrite elem_of_nil. split; [contradiction|].
    intros (_ & row & E & _). discriminate.
  - rewrite elem_of_app, row_hits_spec, IH. cbn [fst snd]. split.
    + intros [(E1 & _ & E3)|(E1 & row' & E2 & E3)].
      * subst r. split; [lia|]. exists row. rewrite Nat.sub_diag, Nat.sub_0_r in *.
        auto.
      * split; [lia|]. exists row'.
        replace (r - r0)%nat with (S (r - S r0)) by lia. auto.
    + intros (E1 & row' & E2 & E3). destruct (decide (r = r0)) as [->|Hne].
      * left. rewrite Nat.sub_diag in E2. cbn in E2. injection E2 as ->.
        rewrite Nat.sub_0_r. auto with lia.
      * right. split; [lia|]. exists row'.
        replace (r - r0)%nat with (S (r - S r0)) in E2 by lia. auto.
Qed.

Lemma py_max_Z (l : list Z) (a : Z) :
  py_max Z.ltb l = inr a → a ∈ l ∧ ∀ b, b ∈ l → b ≤ a.
Proof.
  destruct l as [|a0 l]; [discriminate|]. cbn [py_max ret]. intros E.
  injection E as <-.
  assert (G : ∀ (l : list Z) (m : Z),
            let r := fold_left (fun m x => if m <? x then x else m) l m in
            (r = m ∨ r ∈ l) ∧ m ≤ r ∧ ∀ b, b ∈ l → b ≤ r).
  { clear. induction l as [|x l IH]; intros m; cbn [fold_left].
    - split; [auto|]. split; [lia|]. intros b Hb. apply elem_of_nil in Hb.
      contradiction.
    - destruct (IH (if m <? x then x else m)) as (I1 & I2 & I3).
      destruct (m <? x) eqn:E; [apply Z.ltb_lt in E|apply Z.ltb_ge in E].
      + split; [right; destruct I1 as [->|I1];
                  [apply elem_of_cons; auto|apply elem_of_cons; auto]|].
        split; [lia|]. intros b Hb. apply elem_of_cons in Hb as [->|Hb];
          [lia|auto].
      + split; [destruct I1 as [->|I1]; [auto|right; apply elem_of_cons; auto]|].
        split; [lia|]. intros b Hb. apply elem_of_cons in Hb as [->|Hb];
          [lia|auto]. }
  destruct (G l a0) as (G1 & G2 & G3). split.
  - apply elem_of_cons. destruct G1 as [->|G1]; auto.
  - intros b Hb. apply elem_of_cons in Hb as [->|Hb]; [exact G2|auto].
Qed.

Lemma argmax_from_spec (l : list Z) :
  ∀ (pre : list Z) (best : Z) (at_ : nat),
    pre !! at_ = Some best →
    (∀ b, b ∈ pre → b ≤ best) →
    (∀ k b, (k < at_)%nat → pre !! k = Some b → b < best) →
    ∃ m, (pre ++ l) !! argmax_from best at_ (length pre) l = Some m ∧
         (∀ b, b ∈ pre ++ l → b ≤ m) ∧
         (∀ k b, (k < argmax_from best at_ (length pre) l)%nat →
                 (pre ++ l) !! k = Some b → b < m).
Proof.
  induction l as [|a l IH]; intros pre best at_ Hat Hle Hlt.
  - cbn [argmax_from]. rewrite app_nil_r. exists best. auto.
  - cbn [argmax_from].
    replace (pre ++ a :: l) with ((pre ++ [a]) ++ l)
      by (rewrite <- app_assoc; reflexivity).
    replace (S (length pre)) with (length (pre ++ [a]))
      by (rewrite length_app; cbn [length]; lia).
    destruct (best <? a) eqn:E; [apply Z.ltb_lt in E|apply Z.ltb_ge in E].
    + apply IH.
      * rewrite lookup_app_r by lia. rewrite Nat.sub_diag. reflexivity.
      * intros b Hb. apply elem_of_app in Hb as [Hb|Hb].
        -- specialize (Hle b Hb). lia.
        -- apply list_elem_of_singleton in Hb. lia.
      * intros k b Hk Hb. rewrite lookup_app_l in Hb by exact Hk.
        assert (b ∈ pre) by (apply list_elem_of_lookup; eauto).
        specialize (Hle b ltac:(assumption)). lia.
    + apply IH.
      * rewrite lookup_app_l by (apply lookup_lt_Some in Hat; exact Hat).
        exact Hat.
      * intros b Hb. apply elem_of_app in Hb as [Hb|Hb]; [auto|].
        apply list_elem_of_singleton in Hb. lia.
      * intros k b Hk Hb.
        rewrite lookup_app_l in Hb
          by (apply lookup_lt_Some in Hat; lia).
        eauto.
Qed.

Lemma argmax_spec (l : list Z) (k : nat) :
  argmax l = inr k →
  ∃ m, l !! k = Some m ∧ (∀ b, b ∈ l → b ≤ m) ∧
       (∀ k' b, (k' < k)%nat → l !! k' = Some b → b < m).
Proof.
  destruct l as [|a l]; [discriminate|]. cbn [argmax ret]. intros E.
  injection E as <-.
  apply (argmax_from_spec l [a] a 0).
  - reflexivity.
  - intros b Hb. apply list_elem_of_singleton in Hb. lia.
  - intros k b Hk. lia.
Qed.

End PourFacts.

Section PourSearch.
Context {num : Type} `{Scalar num} `{Ordered num}.
Variable to_int32 : Z → res Z.
Variable to_float32 : num → num.

Lemma getitem2_at_cell {A : Type} (g : list (list A)) (rc : nat * nat) (a : A) :
  getitem2 g (Z.of_nat (fst rc)) (Z.of_nat (snd rc)) = inr a ↔
  at_cell g rc = Some a.
Proof.
  rewrite getitem2_of_nat. unfold at_cell. split.
  - intros (row & -> & E). exact E.
  - destruct (g !! fst rc) as [row|]; [|discriminate]. eauto.
Qed.

Lemma hits_at_cell (j : Z) (g : list (list Z)) (rc : nat * nat) :
  rc ∈ hits j 0 g ↔ at_cell g rc = Some j.
Proof.
  rewrite hits_spec. unfold at_cell. rewrite Nat.sub_0_r. split.
  - intros (_ & row & -> & E). exact E.
  - destruct (g !! fst rc) as [row|]; [|discriminate].
    intros E. split; [lia|eauto].
Qed.

Lemma take_cells_lookup {A : Type} (g : list (list A)) (inds : list (nat * nat))
    (vs : list A) :
  take_cells g inds = inr vs →
  length vs = length inds ∧
  ∀ k rc v, inds !! k = Some rc → vs !! k = Some v → at_cell g rc = Some v.
Proof.
  intros E. apply map_res_Forall2 in E. split.
  - symmetry. exact (Forall2_length _ _ _ E).
  - intros k rc v Hi Hv.
    apply getitem2_at_cell. exact (Forall2_lookup_lr _ _ _ _ _ _ E Hi Hv).
Qed.

Lemma meshgrid_x_cell (lons lats : list num) (rc : nat * nat) (v : num) :
  at_cell (meshgrid_x lons lats) rc = Some v →
  lons !! snd rc = Some v ∧ (fst rc < length lats)%nat.
Proof.
  unfold at_cell, meshgrid_x.
  destruct (replicate (length lats) lons !! fst rc) as [row|] eqn:E;
    [|discriminate].
  apply lookup_replicate in E as [-> E]. auto.
Qed.

Lemma meshgrid_y_cell (lons lats : list num) (rc : nat * nat) (v : num) :
  at_cell (meshgrid_y lons lats) rc = Some v →
  lats !! fst rc = Some v ∧ (snd rc < length lons)%nat.
Proof.
  unfold at_cell, meshgrid_y. rewrite list_lookup_fmap.
  destruct (lats !! fst rc) as [la|]; [|discriminate]. cbn.
  intros E. apply lookup_replicate in E as [-> E]. auto.
Qed.

(** One row of the result. *)
Lemma pour_point_of_spec (rs : rasters num) (res : num) (j : Z)
    (row : pour_point num) :
  pour_point_of to_int32 to_float32 rs
    (meshgrid_x (raster_lon rs) (raster_lat rs))
    (meshgrid_y (raster_lon rs) (raster_lat rs)) res j = inr row →
  to_int32 j = inr (basin row) ∧
  ∃ k rc a lo la,
    hits j 0 (Basin_ID rs) !! k = Some rc ∧
    at_cell (Source_Area rs) rc = Some a ∧
    to_int32 a = inr (max_area row) ∧
    (∀ rc' a', at_cell (Basin_ID rs) rc' = Some j →
               at_cell (Source_Area rs) rc' = Some a' → a' ≤ a) ∧
    (∀ k' rc' a', (k' < k)%nat → hits j 0 (Basin_ID rs) !! k' = Some rc' →
                  at_cell (Source_Area rs) rc' = Some a' → a' < a) ∧
    raster_lon rs !! snd rc = Some lo ∧ raster_lat rs !! fst rc = Some la ∧
    x_outlet row = to_float32 lo ∧ y_outlet row = to_float32 la.
Proof.
  unfold pour_point_of. intros E.
  destruct (to_int32 j) as [e|b] eqn:Eb; cbn [bind] in E; [discriminate|].
  set (inds := hits j 0 (Basin_ID rs)) in *.
  destruct (take_cells (meshgrid_x _ _) inds) as [e|xb] eqn:Ex;
    cbn [bind] in E; [discriminate|].
  destruct (take_cells (meshgrid_y _ _) inds) as [e|yb] eqn:Ey;
    cbn [bind] in E; [discriminate|].
  destruct (take_cells (Source_Area rs) inds) as [e|areas] eqn:Ea;
    cbn [bind] in E; [discriminate|].
  destruct (py_max Z.ltb areas) as [e|a] eqn:Em;
    cbn [bind] in E; [discriminate|].
  destruct (to_int32 a) as [e|ma] eqn:Ema; cbn [bind] in E; [discriminate|].
  destruct (argmax areas) as [e|k] eqn:Ek; cbn [bind] in E; [discriminate|].
  destruct (getitem xb (Z.of_nat k)) as [e|xo] eqn:Exo;
    cbn [bind] in E; [discriminate|].
  destruct (getitem yb (Z.of_nat k)) as [e|yo] eqn:Eyo;
    cbn [bind] in E; [discriminate|].
  destruct (py_min num_ltb xb) as [e|x0]; cbn [bind] in E; [discriminate|].
  destruct (py_max num_ltb xb) as [e|x1]; cbn [bind] in E; [discriminate|].
  destruct (py_min num_ltb yb) as [e|y0]; cbn [bind] in E; [discriminate|].
  destruct (py_max num_ltb yb) as [e|y1]; cbn [bind ret] in E;
    [discriminate|].
  injection E as <-. cbn [basin max_area x_outlet y_outlet].
  split; [reflexivity|].
  apply take_cells_lookup in Ex as [Lx Ex], Ey as [Ly Ey], Ea as [La Ea].
  apply py_max_Z in Em as [Hin Hmax].
  apply argmax_spec in Ek as (m & Hk & Hkmax & Hkfirst).
  assert (m = a).
  { assert (m ∈ areas) by (apply list_elem_of_lookup; eauto).
    specialize (Hmax m ltac:(assumption)). specialize (Hkmax a Hin). lia. }
  subst m.
  apply getitem_of_nat in Exo, Eyo.
  destruct (lookup_lt_is_Some_2 inds k) as [rc Hrc].
  { apply lookup_lt_Some in Hk. lia. }
  apply (Ex k rc xo Hrc) in Exo. apply (Ey k rc yo Hrc) in Eyo.
  apply meshgrid_x_cell in Exo as [Exo _].
  apply meshgrid_y_cell in Eyo as [Eyo _].
  exists k, rc, a, xo, yo.
  split; [exact Hrc|]. split; [exact (Ea k rc a Hrc Hk)|].
  split; [exact Ema|]. split; [|split; [|auto]].
  - intros rc' a' Hb Ha. apply hits_at_cell in Hb.
    apply list_elem_of_lookup in Hb as [k' Hk'].
    destruct (lookup_lt_is_Some_2 areas k') as [a'' Ha''].
    { apply lookup_lt_Some in Hk'. fold inds in Hk'. lia. }
    assert (at_cell (Source_Area rs) rc' = Some a'') by (eapply Ea; eauto).
    assert (a'' = a') by congruence. subst a''.
    apply Hmax. apply list_elem_of_lookup. eauto.
  - intros k' rc' a' Hlt Hk' Ha.
    destruct (lookup_lt_is_Some_2 areas k') as [a'' Ha''].
    { apply lookup_lt_Some in Hk'. fold inds in Hk'. lia. }
    assert (at_cell (Source_Area rs) rc' = Some a'') by (eapply Ea; eauto).
    assert (a'' = a') by congruence. subst a''.
    eapply Hkfirst; eauto.
Qed.

Lemma np_min_spec (g : list (list Z)) (lo : Z) :
  np_min g = inr lo → lo ∈ concat g ∧ ∀ v, v ∈ concat g → lo ≤ v.
Proof.
  unfold np_min. destruct (concat g) as [|a l]; [discriminate|].
  cbn [ret]. intros E. injection E as <-.
  assert (G : ∀ (l : list Z) (m : Z),
            (fold_left Z.min l m = m ∨ fold_left Z.min l m ∈ l) ∧
            fold_left Z.min l m ≤ m ∧
            ∀ b, b ∈ l → fold_left Z.min l m ≤ b).
  { clear. induction l as [|x l IH]; intros m; cbn [fold_left].
    - split; [auto|]. split; [lia|]. intros b Hb. apply elem_of_nil in Hb.
      contradiction.
    - destruct (IH (Z.min m x)) as (I1 & I2 & I3).
      split; [|split; [lia|]].
      + destruct I1 as [I1|I1]; [|right; apply elem_of_cons; auto].
        rewrite I1. destruct (Z.min_spec m x) as [[_ ->]|[_ ->]];
          [auto|right; apply elem_of_cons; auto].
      + intros b Hb. apply elem_of_cons in Hb as [->|Hb]; [lia|auto]. }
  destruct (G l a) as (G1 & G2 & G3). split.
  - apply elem_of_cons. destruct G1 as [->|G1]; auto.
  - intros v Hv. apply elem_of_cons in Hv as [->|Hv]; auto.
Qed.

Lemma np_max_spec (g : list (list Z)) (hi : Z) :
  np_max g = inr hi → hi ∈ concat g ∧ ∀ v, v ∈ concat g → v ≤ hi.
Proof.
  unfold np_max. destruct (concat g) as [|a l]; [discriminate|].
  cbn [ret]. intros E. injection E as <-.
  assert (G : ∀ (l : list Z) (m : Z),
            (fold_left Z.max l m = m ∨ fold_left Z.max l m ∈ l) ∧
            m ≤ fold_left Z.max l m ∧
            ∀ b, b ∈ l → b ≤ fold_left Z.max l m).
  { clear. induction l as [|x l IH]; intros m; cbn [fold_left].
    - split; [auto|]. split; [lia|]. intros b Hb. apply elem_of_nil in Hb.
      contradiction.
    - destruct (IH (Z.max m x)) as (I1 & I2 & I3).
      split; [|split; [lia|]].
      + destruct I1 as [I1|I1]; [|right; apply elem_of_cons; auto].
        rewrite I1. destruct (Z.max_spec m x) as [[_ ->]|[_ ->]];
          [right; apply elem_of_cons; auto|auto].
      + intros b Hb. apply elem_of_cons in Hb as [->|Hb]; [lia|auto]. }
  destruct (G l a) as (G1 & G2 & G3). split.
  - apply elem_of_cons. destruct G1 as [->|G1]; auto.
  - intros v Hv. apply elem_of_cons in Hv as [->|Hv]; auto.
Qed.

(** The result, row by row. *)
Lemma find_pour_points_rows (rs : rasters num) (rows : list (pour_point num)) :
  find_pour_points to_int32 to_float32 rs = inr rows →
  ∃ lo hi res,
    np_min (Basin_ID rs) = inr lo ∧ np_max (Basin_ID rs) = inr hi ∧
    Forall2 (fun j row =>
               pour_point_of to_int32 to_float32 rs
                 (meshgrid_x (raster_lon rs) (raster_lat rs))
                 (meshgrid_y (raster_lon rs) (raster_lat rs)) res j = inr row)
      (seqZ lo (hi - lo)) rows.
Proof.
  unfold find_pour_points. intros E.
  destruct (getitem (raster_lon rs) 1) as [e|l1]; cbn [bind] in E;
    [discriminate|].
  destruct (getitem (raster_lon rs) 0) as [e|l0]; cbn [bind] in E;
    [discriminate|].
  destruct (np_min (Basin_ID rs)) as [e|lo]; cbn [bind] in E; [discriminate|].
  destruct (np_max (Basin_ID rs)) as [e|hi]; cbn [bind] in E; [discriminate|].
  apply map_res_Forall2 in E. exists lo, hi, (num_sub l1 l0). auto.
Qed.

End PourSearch.

Section RowMajor.

Lemma increasing_cons (x : nat * nat) (l : list (nat * nat)) :
  (∀ b, b ∈ l → before x b) → increasing l → increasing (x :: l).
Proof.
  intros Hx Hl k' k a b Hlt Ha Hb. destruct k as [|k]; [lia|].
  cbn in Hb. destruct k' as [|k'].
  - cbn in Ha. injection Ha as <-. apply Hx. apply list_elem_of_lookup. eauto.
  - cbn in Ha. apply (Hl k' k); [lia|assumption|assumption].
Qed.

Lemma increasing_app (l1 l2 : list (nat * nat)) :
  increasing l1 → increasing l2 →
  (∀ a b, a ∈ l1 → b ∈ l2 → before a b) → increasing (l1 ++ l2).
Proof.
  induction l1 as [|x l1 IH]; intros H1 H2 H12; [exact H2|].
  cbn [app]. apply increasing_cons.
  - intros b Hb. apply elem_of_app in Hb as [Hb|Hb].
    + apply list_elem_of_lookup in Hb as [k Hk].
      apply (H1 0%nat (S k) x b); [lia|reflexivity|exact Hk].
    + apply H12; [apply elem_of_cons; auto|exact Hb].
  - apply IH; [|exact H2|].
    + intros k' k a b Hlt Ha Hb. apply (H1 (S k') (S k)); [lia|exact Ha|exact Hb].
    + intros a b Ha Hb. apply H12; [apply elem_of_cons; auto|exact Hb].
Qed.

Lemma row_hits_increasing (j : Z) (r : nat) (row : list Z) :
  ∀ c0 : nat, increasing (row_hits j r c0 row).
Proof.
  induction row as [|v row IH]; intros c0; cbn [row_hits].
  - intros k' k a b _ Ha. discriminate.
  - destruct (v =? j); [|apply IH]. apply increasing_cons; [|apply IH].
    intros b Hb. apply row_hits_spec in Hb as (E1 & E2 & _).
    right. cbn [fst snd]. split; [congruence|lia].
Qed.

Lemma hits_increasing (j : Z) (g : list (list Z)) :
  ∀ r0 : nat, increasing (hits j r0 g).
Proof.
  induction g as [|row g IH]; intros r0; cbn [hits].
  - intros k' k a b _ Ha. discriminate.
  - apply increasing_app; [apply row_hits_increasing|apply IH|].
    intros a b Ha Hb. apply row_hits_spec in Ha as (E1 & _ & _).
    apply hits_spec in Hb as (E2 & _). left. lia.
Qed.

Lemma before_irrefl (a b : nat * nat) : before a b → before b a → False.
Proof. unfold before. lia. Qed.

End RowMajor.

(** Which basins are searched.  When the search succeeds, the result has
    one row for each integer from the smallest basin id of the raster up
    to, but not including, the largest: the basin with the largest id gets
    no row, a raster with a single id gives no row at all, and every
    integer between the smallest and the largest id has to be the id of at
    least one cell. *)
Theorem pour_points_search_range {num : Type} `{Scalar num} `{Ordered num}
    (to_int32 : Z → res Z) (to_float32 : num → num) (rs : rasters num)
    (rows : list (pour_point num)) :
  find_pour_points to_int32 to_float32 rs = inr rows →
  ∃ lo hi,
    lo ∈ concat (Basin_ID rs) ∧ hi ∈ concat (Basin_ID rs) ∧
    (∀ v, v ∈ concat (Basin_ID rs) → lo ≤ v ≤ hi) ∧
    length rows = Z.to_nat (hi - lo) ∧
    (∀ (i : nat) row, rows !! i = Some row →
       to_int32 (lo + Z.of_nat i) = inr (basin row)) ∧
    (∀ j, lo ≤ j < hi → ∃ rc, at_cell (Basin_ID rs) rc = Some j).
Proof.
  intros E.
  apply (find_pour_points_rows to_int32 to_float32) in E
    as (lo & hi & res & Elo & Ehi & F).
  apply np_min_spec in Elo as [Lin Lmin]. apply np_max_spec in Ehi as [Hin Hmax].
  exists lo, hi. split; [exact Lin|]. split; [exact Hin|].
  split; [intros v Hv; split; auto|].
  split; [rewrite <- (Forall2_length _ _ _ F); apply length_seqZ|].
  split.
  - intros i row Hrow.
    destruct (Forall2_lookup_r _ _ _ _ _ F Hrow) as (j & Hj & Ej).
    apply lookup_seqZ in Hj as [-> _].
    apply (pour_point_of_spec to_int32 to_float32) in Ej as [Ej _]. exact Ej.
  - intros j Hj.
    assert (Hin' : j ∈ seqZ lo (hi - lo)) by (apply elem_of_seqZ; lia).
    apply list_elem_of_lookup in Hin' as [i Hi].
    destruct (Forall2_lookup_l _ _ _ _ _ F Hi) as (row & _ & Ej).
    apply (pour_point_of_spec to_int32 to_float32) in Ej
      as (_ & k & rc & _ & _ & _ & Hk & _).
    exists rc. apply hits_at_cell. apply list_elem_of_lookup. eauto.
Qed.

(** The pour point of a basin is its cell of largest source area.  Every
    row of a successful search belongs to a basin id [j]; its outlet is a
    cell of that basin whose source area is the largest in the basin, and
    the first such cell row by row; [max_area] is that area and the outlet
    coordinates are the longitude of the cell's column and the latitude of
    its row, each as converted on assignment. *)
Theorem pour_point_is_largest_cell {num : Type} `{Scalar num} `{Ordered num}
    (to_int32 : Z → res Z) (to_float32 : num → num) (rs : rasters num)
    (rows : list (pour_point num)) (i : nat) (row : pour_point num) :
  find_pour_points to_int32 to_float32 rs = inr rows →
  rows !! i = Some row →
  ∃ j rc a lo la,
    to_int32 j = inr (basin row) ∧
    at_cell (Basin_ID rs) rc = Some j ∧
    at_cell (Source_Area rs) rc = Some a ∧
    to_int32 a = inr (max_area row) ∧
    (∀ rc' a', at_cell (Basin_ID rs) rc' = Some j →
               at_cell (Source_Area rs) rc' = Some a' →
               a' ≤ a ∧ (before rc' rc → a' < a)) ∧
    raster_lon rs !! snd rc = Some lo ∧ raster_lat rs !! fst rc = Some la ∧
    x_outlet row = to_float32 lo ∧ y_outlet row = to_float32 la.
Proof.
  intros E Hrow.
  apply (find_pour_points_rows to_int32 to_float32) in E
    as (lo & hi & res & _ & _ & F).
  destruct (Forall2_lookup_r _ _ _ _ _ F Hrow) as (j & _ & Ej).
  apply (pour_point_of_spec to_int32 to_float32) in Ej
    as (Eb & k & rc & a & xo & yo & Hk & Ha & Ema & Hmax & Hfirst & Rest).
  exists j, rc, a, xo, yo. split; [exact Eb|].
  split; [apply hits_at_cell, list_elem_of_lookup; eauto|].
  split; [exact Ha|]. split; [exact Ema|]. split; [|exact Rest].
  intros rc' a' Hb Ha'. split; [eapply Hmax; eauto|]. intros Hbefore.
  assert (Hin : rc' ∈ hits j 0 (Basin_ID rs)) by (apply hits_at_cell; exact Hb).
  apply list_elem_of_lookup in Hin as [k' Hk'].
  destruct (decide (k' < k)%nat) as [Hlt|Hge]; [eapply Hfirst; eauto|].
  exfalso. destruct (decide (k' = k)) as [->|Hne].
  - assert (rc' = rc) by congruence. subst rc'.
    exact (before_irrefl _ _ Hbefore Hbefore).
  - apply (before_irrefl rc' rc Hbefore).
    apply (hits_increasing j (Basin_ID rs) 0 k k'); [lia|exact Hk|exact Hk'].
Qed.

Lemma pour_points_search_range_witness :
  ∃ rows lo hi,
    PourSample.search = inr rows ∧
    lo ∈ concat (Basin_ID PourSample.rs) ∧
    hi ∈ concat (Basin_ID PourSample.rs) ∧
    (∀ v, v ∈ concat (Basin_ID PourSample.rs) → lo ≤ v ≤ hi) ∧
    length rows = Z.to_nat (hi - lo) ∧
    (∀ (i : nat) row, rows !! i = Some row →
       ret (lo + Z.of_nat i) = inr (basin row)) ∧
    (∀ j, lo ≤ j < hi → ∃ rc, at_cell (Basin_ID PourSample.rs) rc = Some j).
Proof.
  eexists. 
  destruct (pour_points_search_range (fun z => ret z) (fun v : float => v)
              PourSample.rs _ eq_refl) as (lo & hi & P).
  exists lo, hi. split; [reflexivity|exact P].
Defined.

Lemma pour_point_is_largest_cell_witness :
  ∃ rows row j rc a lo la,
    PourSample.search = inr rows ∧ rows !! 1%nat = Some row ∧
    ret j = inr (basin row) ∧
    at_cell (Basin_ID PourSample.rs) rc = Some j ∧
    at_cell (Source_Area PourSample.rs) rc = Some a ∧
    ret a = inr (max_area row) ∧
    (∀ rc' a', at_cell (Basin_ID PourSample.rs) rc' = Some j →
               at_cell (Source_Area PourSample.rs) rc' = Some a' →
               a' ≤ a ∧ (before rc' rc → a' < a)) ∧
    raster_lon PourSample.rs !! snd rc = Some lo ∧
    raster_lat PourSample.rs !! fst rc = Some la ∧
    x_outlet row = lo ∧ y_outlet row = la.
Proof.
  eexists _, _.
  destruct (pour_point_is_largest_cell (fun z => ret z) (fun v : float => v)
              PourSample.rs _ 1%nat _ eq_refl eq_refl)
    as (j & rc & a & lo & la & P).
  exists j, rc, a, lo, la. split; [reflexivity|]. split; [reflexivity|exact P].
Defined.

Section PourTotal.
Context {num : Type} `{Scalar num} `{Ordered num}.
Variable to_int32 : Z → res Z.
Variable to_float32 : num → num.

Lemma map_res_ok {A B : Type} (f : A → res B) (l : list A) :
  Forall (fun a => ∃ b, f a = inr b) l → ∃ l', map_res f l = inr l'.
Proof.
  induction 1 as [|a l [b Hb] _ [l' IH]]; [exists []; reflexivity|].
  exists (b :: l'). cbn [map_res]. rewrite Hb. cbn [bind]. rewrite IH.
  reflexivity.
Qed.

Lemma take_cells_ok {A : Type} (g : list (list A)) (inds : list (nat * nat)) :
  Forall (fun rc => ∃ a, at_cell g rc = Some a) inds →
  ∃ vs, take_cells g inds = inr vs.
Proof.
  intros F. apply map_res_ok. eapply Forall_impl; [exact F|].
  intros rc [a Ha]. exists a. apply getitem2_at_cell. exact Ha.
Qed.

Lemma meshgrid_x_at (lons lats : list num) (rc : nat * nat) :
  (fst rc < length lats)%nat → (snd rc < length lons)%nat →
  ∃ v, at_cell (meshgrid_x lons lats) rc = Some v.
Proof.
  intros Hr Hc. unfold at_cell, meshgrid_x.
  rewrite lookup_replicate_2 by exact Hr. apply lookup_lt_is_Some_2. exact Hc.
Qed.

Lemma meshgrid_y_at (lons lats : list num) (rc : nat * nat) :
  (fst rc < length lats)%nat → (snd rc < length lons)%nat →
  ∃ v, at_cell (meshgrid_y lons lats) rc = Some v.
Proof.
  intros Hr Hc. unfold at_cell, meshgrid_y. rewrite list_lookup_fmap.
  destruct (lookup_lt_is_Some_2 lats (fst rc) Hr) as [la ->]. cbn.
  exists la. apply lookup_replicate_2. exact Hc.
Qed.

Lemma argmax_from_lt (l : list Z) :
  ∀ (best : Z) (at_ i : nat),
    (at_ < i)%nat → (argmax_from best at_ i l < i + length l)%nat.
Proof.
  induction l as [|a l IH]; intros best at_ i Hlt; cbn [argmax_from length];
    [lia|].
  destruct (best <? a).
  - specialize (IH a i (S i) ltac:(lia)). lia.
  - specialize (IH best at_ (S i) ltac:(lia)). lia.
Qed.

Lemma pour_point_of_ok (rs : rasters num) (res : num) (j : Z) :
  (∀ z, ∃ b, to_int32 z = inr b) → fits_grid rs →
  (∃ rc, at_cell (Basin_ID rs) rc = Some j) →
  ∃ row,
    pour_point_of to_int32 to_float32 rs
      (meshgrid_x (raster_lon rs) (raster_lat rs))
      (meshgrid_y (raster_lon rs) (raster_lat rs)) res j = inr row.
Proof.
  intros Hcast [_ Hfit] [rc0 Hrc0]. unfold pour_point_of.
  destruct (Hcast j) as [b ->]. cbn [bind].
  set (inds := hits j 0 (Basin_ID rs)).
  assert (Hinds : ∀ rc, rc ∈ inds → at_cell (Basin_ID rs) rc = Some j)
    by (intros rc; apply hits_at_cell).
  destruct (take_cells_ok (meshgrid_x (raster_lon rs) (raster_lat rs)) inds)
    as [xb Ex].
  { apply Forall_forall. intros rc Hin.
    destruct (Hfit rc j (Hinds rc Hin)) as (? & ? & _).
    apply meshgrid_x_at; assumption. }
  destruct (take_cells_ok (meshgrid_y (raster_lon rs) (raster_lat rs)) inds)
    as [yb Ey].
  { apply Forall_forall. intros rc Hin.
    destruct (Hfit rc j (Hinds rc Hin)) as (? & ? & _).
    apply meshgrid_y_at; assumption. }
  destruct (take_cells_ok (Source_Area rs) inds) as [areas Ea].
  { apply Forall_forall. intros rc Hin.
    destruct (Hfit rc j (Hinds rc Hin)) as (_ & _ & Ha). exact Ha. }
  rewrite Ex, Ey, Ea. cbn [bind].
  assert (Lx := proj1 (take_cells_lookup _ _ _ Ex)).
  assert (Ly := proj1 (take_cells_lookup _ _ _ Ey)).
  assert (La := proj1 (take_cells_lookup _ _ _ Ea)).
  assert (Hne : inds ≠ []).
  { intros E. assert (Hin : rc0 ∈ inds) by (apply hits_at_cell; exact Hrc0).
    rewrite E in Hin. apply elem_of_nil in Hin. exact Hin. }
  destruct inds as [|i0 inds']; [congruence|].
  destruct areas as [|a0 areas]; [discriminate|].
  destruct xb as [|x0 xb]; [discriminate|].
  destruct yb as [|y0 yb]; [discriminate|].
  cbn [py_max py_min argmax ret bind].
  destruct (Hcast (fold_left (fun m x => if m <? x then x else m) areas a0))
    as [ma ->].
  cbn [bind].
  assert (Hk := argmax_from_lt areas a0 0 1 ltac:(lia)).
  set (k := argmax_from a0 0 1 areas) in *.
  cbn [length] in Lx, Ly, La.
  destruct (lookup_lt_is_Some_2 (x0 :: xb) k) as [xo Hxo];
    [cbn [length]; lia|].
  destruct (lookup_lt_is_Some_2 (y0 :: yb) k) as [yo Hyo];
    [cbn [length]; lia|].
  rewrite (getitem_nat _ _ _ Hxo), (getitem_nat _ _ _ Hyo). cbn [bind].
  eexists. reflexivity.
Qed.

End PourTotal.

(** When the search succeeds.  If the rasters fit the grid of the
    coordinate axes, the basin ids are consecutive and the conversion to
    32-bit integers refuses no value, the search returns a result, with
    its rows as described above. *)
Theorem pour_point_search_succeeds {num : Type} `{Scalar num} `{Ordered num}
    (to_int32 : Z → res Z) (to_float32 : num → num) (rs : rasters num) :
  (∀ z, ∃ b, to_int32 z = inr b) → fits_grid rs → ids_consecutive rs →
  concat (Basin_ID rs) ≠ [] →
  ∃ rows, find_pour_points to_int32 to_float32 rs = inr rows.
Proof.
  intros Hcast Hfit Hids Hne. unfold find_pour_points.
  assert (Hrow := fun res j =>
            pour_point_of_ok to_int32 to_float32 rs res j Hcast Hfit).
  destruct Hfit as [Hl Hfit'].
  destruct (raster_lon rs) as [|l0 [|l1 lons]] eqn:El;
    [cbn [length] in Hl; lia|cbn [length] in Hl; lia|].
  rewrite (getitem_nat (l0 :: l1 :: lons) 1 l1 eq_refl : getitem _ 1 = _).
  rewrite getitem_head. cbn [bind ret].
  destruct (np_min (Basin_ID rs)) as [e|lo] eqn:Elo.
  { unfold np_min in Elo. destruct (concat (Basin_ID rs));
      [congruence|discriminate]. }
  destruct (np_max (Basin_ID rs)) as [e|hi] eqn:Ehi.
  { unfold np_max in Ehi. destruct (concat (Basin_ID rs));
      [congruence|discriminate]. }
  cbn [bind]. apply np_min_spec in Elo as [Lin _].
  apply np_max_spec in Ehi as [Hin _].
  apply map_res_ok. apply Forall_forall. intros j Hj.
  apply elem_of_seqZ in Hj. apply Hrow.
  apply (Hids lo hi j Lin Hin). lia.
Qed.

Lemma pour_point_search_succeeds_witness :
  ∃ rows, find_pour_points (fun z => ret z) (fun v : float => v) PourSample.rs
          = inr rows.
Proof.
  apply (pour_point_search_succeeds (fun z => ret z) (fun v : float => v)
           PourSample.rs).
  - intros z. exists z. reflexivity.
  - split; [vm_compute; lia|]. intros [r c] j.
    destruct r as [|[|[|r]]]; destruct c as [|[|[|c]]];
      try discriminate; intros _;
      (split; [vm_compute; lia|]; split; [vm_compute; lia|];
       eexists; reflexivity).
  - intros j1 j2 j H1 H2 Hj.
    assert (G : ∀ v, v ∈ concat (Basin_ID PourSample.rs) → 1 ≤ v ≤ 3).
    { intros v Hv. cbn in Hv.
      repeat (apply elem_of_cons in Hv as [->|Hv]; [lia|]).
      apply elem_of_nil in Hv. contradiction. }
    apply G in H1, H2.
    assert (Hc : j = 1 ∨ j = 2 ∨ j = 3) by lia.
    destruct Hc as [->|[->| ->]];
      [exists (0, 0)%nat|exists (0, 2)%nat|exists (2, 0)%nat]; reflexivity.
  - discriminate.
Defined.

(** What stops the search at once: coordinate axes with fewer than two
    longitudes raise [IndexError], and with two or more a raster without
    any cell raises [ValueError]. *)
Lemma pour_point_search_needs_a_grid {num : Type} `{Scalar num}
    `{Ordered num} (to_int32 : Z → res Z) (to_float32 : num → num)
    (rs : rasters num) :
  ((length (raster_lon rs) < 2)%nat →
   find_pour_points to_int32 to_float32 rs = inl IndexError) ∧
  ((2 ≤ length (raster_lon rs))%nat → concat (Basin_ID rs) = [] →
   find_pour_points to_int32 to_float32 rs = inl ValueError).
Proof.
  split.
  - intros Hl. unfold find_pour_points.
    destruct (raster_lon rs) as [|l0 [|l1 lons]]; [reflexivity|reflexivity|].
    cbn [length] in Hl. lia.
  - intros Hl Hne. unfold find_pour_points.
    destruct (raster_lon rs) as [|l0 [|l1 lons]];
      [cbn [length] in Hl; lia|cbn [length] in Hl; lia|].
    rewrite (getitem_nat (l0 :: l1 :: lons) 1 l1 eq_refl : getitem _ 1 = _).
    rewrite getitem_head. cbn [bind ret]. unfold np_min. rewrite Hne.
    reflexivity.
Qed.
